(** * OpenPredict: the resilient acquisition layer

    A shallow embedding of [ENHANCED_YAHOO_FINANCE_FETCHER.py]: the circuit
    breaker, the backoff policy, the single-entry validity cache, the OHLC
    validator and [fetch_ohlc], which orchestrates them around the provider.

    Conventions of the embedding.
    - Python floats (monotonic instants, durations, prices) are rationals
      [Q]; the three non-finite floats are constructors of [float64].
    - Python ints are [Z]; row counts are [nat].
    - [time.monotonic()] is an explicit [now] argument of the methods of the
      small classes, and the [clock] field of the [World] for [fetch_ohlc].
    - Objects that the code shares and copies (DataFrames) live in a heap and
      are passed by location.
    - Logging has no effect on any modelled state and is left out. *)

From Stdlib Require Import ZArith QArith Qpower Qminmax Lqa Lia Bool String Ascii List.
From stdpp Require Import base option list strings gmap sorting.
Import ListNotations.

Local Open Scope Z_scope.

(** ** Comparisons of rationals as booleans *)

Definition Qleb (x y : Q) : bool := Qle_bool x y.
Definition Qltb (x y : Q) : bool := negb (Qle_bool y x).
(** Python truthiness of a float: [0.0] is falsy. *)
Definition truthy (x : Q) : bool := negb (Qeq_bool x 0).

(** ** Configuration

    The module imports its constants from [config]; the ones the enhanced
    fetcher needs are taken as a record, so that every statement below holds
    for whichever values a deployment sets. *)

Record Config := mkConfig {
  YFINANCE_RETRY_ATTEMPTS : Z;
  YFINANCE_RETRY_DELAY : Q;
  YFINANCE_RETRY_MAX_DELAY : Q;
  YFINANCE_RETRY_JITTER_ENABLED : bool;
  YFINANCE_RATE_LIMIT_BACKOFF : Q;
  YFINANCE_RATE_LIMIT_MAX_BACKOFF : Q;
  YFINANCE_CACHE_TTL : Q;
  YFINANCE_CACHE_ENABLED : bool;
  YFINANCE_CACHE_VALIDATION : bool;
  VALIDATE_OHLC_RELATIONSHIPS : bool;
  VALIDATE_DATA_FRESHNESS : bool;
  VALIDATE_NO_DUPLICATES : bool;
  VALIDATE_NO_NAN_VALUES : bool;
  VALIDATE_VOLUME_POSITIVE : bool;
  DATA_FRESHNESS_MAX_AGE_SECONDS : Q;
  DATA_FRESHNESS_MIN_AGE_SECONDS : Q;
  CIRCUIT_BREAKER_ENABLED : bool;
  CIRCUIT_BREAKER_THRESHOLD : Z;
  CIRCUIT_BREAKER_RESET_INTERVAL : Q
}.

(** ** class CircuitBreaker *)

Module CircuitBreaker.

Record t := mk {
  threshold : Z;
  reset_interval : Q;
  failure_count : Z;
  last_failure_time : option Q;
  is_open : bool
}.

(** [__init__] *)
Definition init (threshold : Z) (reset_interval : Q) : t :=
  mk threshold reset_interval 0 None false.

Definition record_success (b : t) : t :=
  mk (threshold b) (reset_interval b) 0 (last_failure_time b) false.

Definition record_failure (now : Q) (b : t) : t :=
  let count := failure_count b + 1 in
  mk (threshold b) (reset_interval b) count (Some now)
     (if threshold b <=? count then true else is_open b).

(** [can_attempt] returns its answer and the breaker as it leaves it.
    [if self.last_failure_time:] is a truthiness test: it fails on [None]
    and on the instant [0.0]. *)
Definition can_attempt (now : Q) (b : t) : bool * t :=
  if negb (is_open b) then (true, b)
  else
    match last_failure_time b with
    | Some last =>
        if truthy last then
          let elapsed := (now - last)%Q in
          if Qleb (reset_interval b) elapsed
          then (true, mk (threshold b) (reset_interval b) 0 (Some last) false)
          else (false, b)
        else (false, b)
    | None => (false, b)
    end.

(** [n] calls of [record_failure], at the instants of [times]. *)
Definition record_failures (times : list Q) (b : t) : t :=
  fold_left (fun b now => record_failure now b) times b.

(** A run of [can_attempt] calls at the instants of [times]: the answers,
    in order, and the final breaker. *)
Fixpoint can_attempts (times : list Q) (b : t) : list bool * t :=
  match times with
  | [] => ([], b)
  | now :: rest =>
      let '(ok, b1) := can_attempt now b in
      let '(oks, b2) := can_attempts rest b1 in
      (ok :: oks, b2)
  end.

End CircuitBreaker.

(** ** _calculate_backoff_delay

    [jitter] is the value [random.uniform(0, 1)] draws; it is read only when
    jitter is enabled. *)

Definition _calculate_backoff_delay (cfg : Config) (jitter : Q)
    (attempt : Z) (is_rate_limit : bool) : Q :=
  let base_delay :=
    if is_rate_limit
    then (YFINANCE_RATE_LIMIT_BACKOFF cfg * 2 ^ (attempt - 1))%Q
    else (YFINANCE_RETRY_DELAY cfg * 2 ^ (attempt - 1))%Q in
  let max_delay :=
    if is_rate_limit
    then YFINANCE_RATE_LIMIT_MAX_BACKOFF cfg
    else YFINANCE_RETRY_MAX_DELAY cfg in
  let delay := Qmin base_delay max_delay in
  if YFINANCE_RETRY_JITTER_ENABLED cfg then (delay + jitter)%Q else delay.

(** ** Exceptions

    The exceptions of the model, and what a call that can raise comes to. *)
Inductive exn :=
| ProviderError (msg : string)
| KeyError (missing : list string)      (* df[cols] with labels not in df *)
| ValueError                            (* time.sleep of a negative length *)
| AttributeError                        (* a field of [None] *)
| TypeError.                            (* naive datetime minus aware Timestamp *)

(** The double quote, which the [str] of a KeyError puts around its text. *)
Definition dquote : string := String (ascii_of_nat 34) EmptyString.

(** [str(e)] *)
Definition str (e : exn) : string :=
  match e with
  | ProviderError msg => msg
  | KeyError missing =>
      (dquote ++ "['" ++ String.concat "', '" missing ++ "'] not in index"
       ++ dquote)%string
  | ValueError => "sleep length must be non-negative"%string
  | AttributeError => "'NoneType' object has no attribute 'data'"%string
  | TypeError =>
      "Cannot subtract tz-naive and tz-aware datetime-like objects."%string
  end.

Inductive outcome (A : Type) :=
| Ok (a : A)
| Raise (e : exn).
Arguments Ok {A} a.
Arguments Raise {A} e.

(** ** Bars and DataFrames *)

(** A float64 cell: a finite number or one of the three non-finite values. *)
Inductive float64 :=
| Num (q : Q)
| NaN
| PosInf
| NegInf.

(** [a < b] on floats; every comparison with NaN is false. *)
Definition flt (a b : float64) : bool :=
  match a, b with
  | NaN, _ | _, NaN => false
  | Num x, Num y => Qltb x y
  | NegInf, Num _ | NegInf, PosInf | Num _, PosInf => true
  | _, _ => false
  end.

Definition fgt (a b : float64) : bool := flt b a.

Definition isna (a : float64) : bool :=
  match a with NaN => true | _ => false end.

Definition isinf (a : float64) : bool :=
  match a with PosInf | NegInf => true | _ => false end.

Definition fadd (a b : float64) : float64 :=
  match a, b with
  | NaN, _ | _, NaN => NaN
  | Num x, Num y => Num (x + y)
  | PosInf, NegInf | NegInf, PosInf => NaN
  | PosInf, _ | _, PosInf => PosInf
  | NegInf, _ | _, NegInf => NegInf
  end.

(** One row of the canonical schema. [timestamp] is the instant in
    nanoseconds, as pandas stores it. *)
Record Bar := mkBar {
  timestamp : Z;
  open : float64;
  high : float64;
  low : float64;
  close : float64;
  volume : float64
}.

(** The dtype of the volume column. yfinance delivers the volume as int64; a
    column with a missing value, or one built from floats, is float64. The
    cells of an int64 column are whole numbers, written [Num] like the
    others. *)
Inductive dtype := Int64 | Float64.

(** A DataFrame: its column labels and its rows, whether its instants carry
    a time zone (yfinance delivers them with the zone of the exchange), and
    the dtype of its volume. A row carries a value for each canonical field;
    a field whose label is not among [columns] cannot be read ([df['x']]
    raises KeyError), and the code below reads a field only behind a check of
    its label. *)
Record DataFrame := mkDataFrame {
  columns : list string;
  rows : list Bar;
  tz_aware : bool;
  volume_dtype : dtype
}.

Global Instance DataFrame_inhabited : Inhabited DataFrame :=
  populate (mkDataFrame [] [] false Float64).

Definition has_column (df : DataFrame) (col : string) : bool :=
  existsb (String.eqb col) (columns df).

(** [df.empty]: some axis has length 0. *)
Definition df_empty (df : DataFrame) : bool :=
  match columns df, rows df with
  | [], _ | _, [] => true
  | _, _ => false
  end.

(** [(cond).sum()]: the number of rows where a boolean Series is true. *)
Definition count_where (p : Bar -> bool) (df : DataFrame) : nat :=
  length (List.filter p (rows df)).

(** [Series.min()], [Series.max()] and [Series.sum()], which skip NaN. *)
Definition series_min (xs : list float64) : float64 :=
  match List.filter (fun x => negb (isna x)) xs with
  | [] => NaN
  | x :: rest => fold_left (fun m y => if flt y m then y else m) rest x
  end.

Definition series_max (xs : list float64) : float64 :=
  match List.filter (fun x => negb (isna x)) xs with
  | [] => NaN
  | x :: rest => fold_left (fun m y => if flt m y then y else m) rest x
  end.

Definition series_sum (xs : list float64) : float64 :=
  fold_left fadd (List.filter (fun x => negb (isna x)) xs) (Num 0).

(** A signed 64-bit integer: the sum of an int64 column wraps around. *)
Definition wrap64 (z : Z) : Z := (z + 2 ^ 63) mod 2 ^ 64 - 2 ^ 63.

(** The whole number in a cell of an int64 column. *)
Definition int64_cell (x : float64) : Z :=
  match x with
  | Num q => Z.quot (Qnum q) (Zpos (Qden q))
  | _ => 0
  end.

Definition int64_sum (xs : list float64) : Z :=
  wrap64 (fold_left Z.add (List.map int64_cell xs) 0).

(** [Series.duplicated().sum()]: the occurrences after the first of each
    value. *)
Fixpoint duplicated_count (seen : list Z) (ts : list Z) : nat :=
  match ts with
  | [] => 0%nat
  | t :: rest =>
      ((if existsb (Z.eqb t) seen then 1 else 0)
       + duplicated_count (t :: seen) rest)%nat
  end.

(** [Series.max()] of the timestamps (of a frame with at least one row). *)
Definition timestamp_max (ts : list Z) : Z :=
  match ts with
  | [] => 0
  | t :: rest => fold_left Z.max rest t
  end.

(** ** class DataValidationReport *)

(** The lines a report can carry, one constructor per f-string of
    [_validate_ohlc_data]; the arguments are the formatted values. *)
Inductive message :=
| MsgEmpty                                 (* DataFrame is empty *)
| MsgMissingColumns (cols : list string)   (* Missing columns: {cols} *)
| MsgHighLtLow (n : nat)                   (* {n} bars with High < Low *)
| MsgHighLtOpen (n : nat)                  (* {n} bars with High < Open *)
| MsgHighLtClose (n : nat)                 (* {n} bars with High < Close *)
| MsgLowGtOpen (n : nat)                   (* {n} bars with Low > Open *)
| MsgLowGtClose (n : nat)                  (* {n} bars with Low > Close *)
| MsgNaN (total : nat) (per_column : list (string * nat))
                                           (* Found {total} NaN values: {..} *)
| MsgInf (total : nat)                     (* Found {total} inf values *)
| MsgNegativeVolume (n : nat)              (* {n} bars with negative volume *)
| MsgDuplicateTimestamps (n : nat)         (* {n} duplicate timestamps *)
| MsgStale (age_seconds : Q)               (* Data is stale: {age}s old *)
| MsgFuture (age_seconds : Q).             (* Data from future: {age}s *)

(** The values [add_stat] stores. *)
Inductive stat :=
| StatInt (n : Z)
| StatFloat (x : float64)
| StatDict (d : gmap string float64).

(** [df['volume'].sum()]: an int64 on an int64 column, a float on a float64
    column. *)
Definition volume_total (df : DataFrame) : stat :=
  match volume_dtype df with
  | Int64 => StatInt (int64_sum (List.map volume (rows df)))
  | Float64 => StatFloat (series_sum (List.map volume (rows df)))
  end.

Module DataValidationReport.

Record t := mk {
  is_valid : bool;
  errors : list message;
  warnings : list message;
  stats : gmap string stat
}.

(** [__init__] *)
Definition init : t := mk true [] [] ∅.

Definition add_error (error : message) (r : t) : t :=
  mk false (errors r ++ [error]) (warnings r) (stats r).

Definition add_warning (warning : message) (r : t) : t :=
  mk (is_valid r) (errors r) (warnings r ++ [warning]) (stats r).

Definition add_stat (key : string) (value : stat) (r : t) : t :=
  mk (is_valid r) (errors r) (warnings r) (<[key := value]> (stats r)).

(** Assignment to the attribute [is_valid]. *)
Definition set_is_valid (v : bool) (r : t) : t :=
  mk v (errors r) (warnings r) (stats r).

End DataValidationReport.

(** [if n > 0: report.add_error(msg(n))] *)
Definition error_if_positive (n : nat) (msg : nat -> message)
    (r : DataValidationReport.t) : DataValidationReport.t :=
  if (0 <? n)%nat then DataValidationReport.add_error (msg n) r else r.

(** [if flag: body] as a step on the report. *)
Definition when (flag : bool)
    (body : DataValidationReport.t -> DataValidationReport.t)
    (r : DataValidationReport.t) : DataValidationReport.t :=
  if flag then body r else r.

(** ** _validate_ohlc_data *)

Definition required_cols : list string :=
  ["timestamp"; "open"; "high"; "low"; "close"; "volume"]%string.

Definition price_cols : list (string * (Bar -> float64)) :=
  [("open", open); ("high", high); ("low", low); ("close", close)]%string.

Definition value_cols : list (string * (Bar -> float64)) :=
  price_cols ++ [("volume"%string, volume)].

(** [df[cols].isna().sum()]: the NaN count of each column. *)
Definition nan_counts (df : DataFrame) : list (string * nat) :=
  List.map (fun '(name, col) => (name, count_where (fun b => isna (col b)) df))
           value_cols.

(** [df[cols].isin([np.inf, -np.inf]).sum()] *)
Definition inf_mask (df : DataFrame) : list (string * nat) :=
  List.map (fun '(name, col) => (name, count_where (fun b => isinf (col b)) df))
           price_cols.

(** [.sum()] of such a Series of counts. *)
Definition counts_sum (counts : list (string * nat)) : nat :=
  fold_right (fun '(_, n) acc => (n + acc)%nat) 0%nat counts.

Definition nanoseconds : Q := inject_Z (10 ^ 9).

Section Validator.

Import DataValidationReport.

Variable cfg : Config.

Definition check_relationships (df : DataFrame) (report : t) : t :=
  let invalid_hl := count_where (fun b => flt (high b) (low b)) df in
  let report := error_if_positive invalid_hl MsgHighLtLow report in
  let invalid_h_open := count_where (fun b => flt (high b) (open b)) df in
  let invalid_h_close := count_where (fun b => flt (high b) (close b)) df in
  let report := error_if_positive invalid_h_open MsgHighLtOpen report in
  let report := error_if_positive invalid_h_close MsgHighLtClose report in
  let invalid_l_open := count_where (fun b => fgt (low b) (open b)) df in
  let invalid_l_close := count_where (fun b => fgt (low b) (close b)) df in
  let report := error_if_positive invalid_l_open MsgLowGtOpen report in
  error_if_positive invalid_l_close MsgLowGtClose report.

Definition check_nan_values (df : DataFrame) (report : t) : t :=
  let counts := nan_counts df in
  let report :=
    error_if_positive (counts_sum counts) (fun n => MsgNaN n counts) report in
  error_if_positive (counts_sum (inf_mask df)) MsgInf report.

Definition check_volume (df : DataFrame) (report : t) : t :=
  let negative_volume := count_where (fun b => flt (volume b) (Num 0)) df in
  error_if_positive negative_volume MsgNegativeVolume report.

Definition check_duplicates (df : DataFrame) (report : t) : t :=
  let duplicate_timestamps :=
    duplicated_count [] (List.map timestamp (rows df)) in
  error_if_positive duplicate_timestamps MsgDuplicateTimestamps report.

(** The two tests on the age of the latest bar. *)
Definition check_age (age_seconds : Q) (report : t) : t :=
  let report :=
    if Qltb (DATA_FRESHNESS_MAX_AGE_SECONDS cfg) age_seconds
    then add_warning (MsgStale age_seconds) report else report in
  if Qltb age_seconds (DATA_FRESHNESS_MIN_AGE_SECONDS cfg)
  then add_error (MsgFuture age_seconds) report else report.

(** The freshness block. [utcnow] is [datetime.utcnow()], a naive datetime,
    in nanoseconds like the timestamps. [now - latest_timestamp] raises
    TypeError when the latest timestamp carries a zone; neither line has been
    added by then. *)
Definition check_freshness (utcnow : Z) (df : DataFrame) (report : t)
    : outcome t :=
  let latest_timestamp := timestamp_max (List.map timestamp (rows df)) in
  if tz_aware df then Raise TypeError
  else
    let age_seconds := (inject_Z (utcnow - latest_timestamp) / nanoseconds)%Q in
    Ok (check_age age_seconds report).

Definition add_statistics (df : DataFrame) (report : t) : t :=
  let report := add_stat "row_count" (StatInt (Z.of_nat (length (rows df)))) report in
  let report :=
    add_stat "price_range"
      (StatDict
         (<["close_max"%string := series_max (List.map close (rows df))]>
         (<["close_min"%string := series_min (List.map close (rows df))]>
         (<["open_max"%string := series_max (List.map open (rows df))]>
         (<["open_min"%string := series_min (List.map open (rows df))]> ∅)))))
      report in
  add_stat "volume_total" (volume_total df) report.

(** The method returns a report or raises: the result is an [outcome]. *)
Definition _validate_ohlc_data (utcnow : Z) (df : DataFrame) : outcome t :=
  let report := init in
  if df_empty df then Ok (add_error MsgEmpty report)
  else
    let missing_cols :=
      List.filter (fun col => negb (has_column df col)) required_cols in
    match missing_cols with
    | _ :: _ => Ok (add_error (MsgMissingColumns missing_cols) report)
    | [] =>
        let report :=
          when (VALIDATE_OHLC_RELATIONSHIPS cfg) (check_relationships df) report in
        let report :=
          when (VALIDATE_NO_NAN_VALUES cfg) (check_nan_values df) report in
        let report :=
          when (VALIDATE_VOLUME_POSITIVE cfg) (check_volume df) report in
        let report :=
          when (VALIDATE_NO_DUPLICATES cfg) (check_duplicates df) report in
        match
          (if VALIDATE_DATA_FRESHNESS cfg
           then check_freshness utcnow df report else Ok report)
        with
        | Raise e => Raise e
        | Ok report => Ok (add_statistics df report)
        end
    end.

End Validator.

(** ** class CacheEntry, class CacheStatistics *)

(** A location of the heap of DataFrames. *)
Definition loc := nat.

Module CacheEntry.

Record t := mk {
  data : loc;                       (* the entry's own copy of the frame *)
  metadata : string * string;       (* period, interval *)
  creation_time : Q;
  hit_count : Z;
  validation_passed : bool
}.

Definition set_hit_count (n : Z) (e : t) : t :=
  mk (data e) (metadata e) (creation_time e) n (validation_passed e).

Definition set_validation_passed (v : bool) (e : t) : t :=
  mk (data e) (metadata e) (creation_time e) (hit_count e) v.

End CacheEntry.

Module CacheStatistics.

Record t := mk {
  hits : Z;
  misses : Z;
  invalidations : Z;
  evictions : Z
}.

Definition init : t := mk 0 0 0 0.

Definition incr_hits (s : t) : t :=
  mk (hits s + 1) (misses s) (invalidations s) (evictions s).

Definition incr_misses (s : t) : t :=
  mk (hits s) (misses s + 1) (invalidations s) (evictions s).

Definition incr_invalidations (s : t) : t :=
  mk (hits s) (misses s) (invalidations s + 1) (evictions s).

(** [hit_rate]: the share of hits among the reads, in percent; [0.0] when
    there was no read. *)
Definition hit_rate (s : t) : Q :=
  let total := hits s + misses s in
  if 0 <? total
  then (inject_Z (hits s) / inject_Z total * 100)%Q
  else 0%Q.

End CacheStatistics.

(** ** class YahooFinanceFetcherEnhanced: the instance *)

Record Fetcher := mkFetcher {
  instrument : string;
  cache : option CacheEntry.t;
  cache_stats : CacheStatistics.t;
  circuit_breaker : option CircuitBreaker.t;
  rate_limit_backoff : Q;
  rate_limit_until : Q;
  last_fetch_time : option Q
}.

Definition set_cache (c : option CacheEntry.t) (self : Fetcher) : Fetcher :=
  mkFetcher (instrument self) c (cache_stats self) (circuit_breaker self)
            (rate_limit_backoff self) (rate_limit_until self)
            (last_fetch_time self).

Definition set_cache_stats (s : CacheStatistics.t) (self : Fetcher) : Fetcher :=
  mkFetcher (instrument self) (cache self) s (circuit_breaker self)
            (rate_limit_backoff self) (rate_limit_until self)
            (last_fetch_time self).

Definition set_circuit_breaker (b : option CircuitBreaker.t) (self : Fetcher)
    : Fetcher :=
  mkFetcher (instrument self) (cache self) (cache_stats self) b
            (rate_limit_backoff self) (rate_limit_until self)
            (last_fetch_time self).

Definition set_rate_limit_until (u : Q) (self : Fetcher) : Fetcher :=
  mkFetcher (instrument self) (cache self) (cache_stats self)
            (circuit_breaker self) (rate_limit_backoff self) u
            (last_fetch_time self).

Definition set_last_fetch_time (u : option Q) (self : Fetcher) : Fetcher :=
  mkFetcher (instrument self) (cache self) (cache_stats self)
            (circuit_breaker self) (rate_limit_backoff self)
            (rate_limit_until self) u.

(** [__init__] *)
Definition Fetcher_init (cfg : Config) (instrument : string) : Fetcher :=
  mkFetcher instrument None CacheStatistics.init
    (if CIRCUIT_BREAKER_ENABLED cfg
     then Some (CircuitBreaker.init (CIRCUIT_BREAKER_THRESHOLD cfg)
                                    (CIRCUIT_BREAKER_RESET_INTERVAL cfg))
     else None)
    0 0 None.

(** ** _is_cache_valid, _should_use_cache

    Both read the monotonic clock ([now]) and update the statistics, so they
    return their answer together with the instance as they leave it. *)

Section Cache.

Variable cfg : Config.

Definition _is_cache_valid (now : Q) (self : Fetcher) : bool * Fetcher :=
  match cache self with
  | None => (false, self)
  | Some entry =>
      let age := (now - CacheEntry.creation_time entry)%Q in
      let is_valid := Qltb age (YFINANCE_CACHE_TTL cfg) in
      (* [self.cache] is an object, hence truthy *)
      if negb is_valid
      then (is_valid,
            set_cache_stats
              (CacheStatistics.incr_invalidations (cache_stats self)) self)
      else (is_valid, self)
  end.

Definition count_miss (self : Fetcher) : Fetcher :=
  set_cache_stats (CacheStatistics.incr_misses (cache_stats self)) self.

Definition count_hit (self : Fetcher) : Fetcher :=
  let self :=
    set_cache_stats (CacheStatistics.incr_hits (cache_stats self)) self in
  match cache self with
  | Some entry =>
      set_cache
        (Some (CacheEntry.set_hit_count (CacheEntry.hit_count entry + 1) entry))
        self
  | None => self
  end.

Definition _should_use_cache (now : Q) (self : Fetcher) : bool * Fetcher :=
  if negb (YFINANCE_CACHE_ENABLED cfg) then (false, count_miss self)
  else
    let '(valid, self) := _is_cache_valid now self in
    if negb valid then (false, count_miss self)
    else
      let blocked :=
        match cache self with
        | Some entry =>
            YFINANCE_CACHE_VALIDATION cfg
            && negb (CacheEntry.validation_passed entry)
        | None => false
        end in
      if blocked then (false, count_miss self)
      else (true, count_hit self).

(** [clear_cache] *)
Definition clear_cache (self : Fetcher) : Fetcher :=
  set_cache_stats CacheStatistics.init (set_cache None self).

End Cache.

(** ** Strings: [str.lower] and the [in] test

    [lower] maps the ASCII capitals and leaves every other character. *)

Definition lower_ascii (c : ascii) : ascii :=
  let n := nat_of_ascii c in
  if ((65 <=? n) && (n <=? 90))%nat then ascii_of_nat (n + 32) else c.

Fixpoint lower (s : string) : string :=
  match s with
  | EmptyString => EmptyString
  | String c rest => String (lower_ascii c) (lower rest)
  end.

(** [needle in hay] *)
Fixpoint contains (needle hay : string) : bool :=
  String.prefix needle hay
  || match hay with
     | EmptyString => false
     | String _ rest => contains needle rest
     end.

(** ** The world around the fetcher

    What [fetch_ohlc] touches outside the instance: the monotonic clock, the
    heap of DataFrame objects, and the counters that index the answers of the
    provider and of the random generator. *)

Record World := mkWorld {
  clock : Q;
  heap : list DataFrame;
  provider_calls : nat;
  jitter_draws : nat
}.

(** What [ticker.history] hands back: a frame indexed by instant. [raw] holds
    the provider's column labels and the rows, the [timestamp] of a row being
    its index value; [index_name] is the label [reset_index] gives the index
    column; [tz_aware] of [raw] says whether the index carries a zone. *)
Record RawFrame := mkRawFrame {
  index_name : string;
  raw : DataFrame
}.

Inductive ProviderResult :=
| Raises (msg : string)         (* an Exception whose [str] is [msg] *)
| Returns (frame : RawFrame).

Record Response := mkResponse {
  took : Q;                     (* monotonic time the call consumed *)
  result : ProviderResult
}.

(** The behaviour of the surroundings: the provider's answer to its [n]-th
    call for an instrument, period and interval; the [n]-th draw of
    [random.uniform(0, 1)]; the wall clock at a monotonic instant. *)
Record Env := mkEnv {
  provider : nat -> string -> string -> string -> Response;
  jitter : nat -> Q;
  utcnow : Q -> Z
}.

(** ** A state and exception monad for the method bodies *)

Definition M (A : Type) : Type := Fetcher -> World -> outcome A * Fetcher * World.

Definition ret {A} (a : A) : M A := fun self w => (Ok a, self, w).

Definition raise {A} (e : exn) : M A := fun self w => (Raise e, self, w).

Definition bind {A B} (m : M A) (k : A -> M B) : M B :=
  fun self w =>
    match m self w with
    | (Ok a, self', w') => k a self' w'
    | (Raise e, self', w') => (Raise e, self', w')
    end.

(** [try: body  except Exception as e: handler(e)] *)
Definition try_except {A} (body : M A) (handler : exn -> M A) : M A :=
  fun self w =>
    match body self w with
    | (Ok a, self', w') => (Ok a, self', w')
    | (Raise e, self', w') => handler e self' w'
    end.

Notation "'let*' x ':=' m 'in' k" := (bind m (fun x => k))
  (at level 10, x name, m at level 100, k at level 200).
Notation "'do' m 'then' k" := (bind m (fun _ => k))
  (at level 10, m at level 100, k at level 200).

Definition get_self : M Fetcher := fun self w => (Ok self, self, w).
Definition modify_self (f : Fetcher -> Fetcher) : M unit :=
  fun self w => (Ok tt, f self, w).
Definition get_world : M World := fun self w => (Ok w, self, w).
Definition modify_world (f : World -> World) : M unit :=
  fun self w => (Ok tt, self, f w).

(** Run a method that takes the instant and returns the updated instance. *)
Definition timed {A} (method : Q -> Fetcher -> A * Fetcher) : M A :=
  fun self w => let '(a, self') := method (clock w) self in (Ok a, self', w).

(** A call that returns or raises and touches neither instance nor world. *)
Definition lift {A} (o : outcome A) : M A := fun self w => (o, self, w).

(** [time.monotonic()] *)
Definition monotonic : M Q := fun self w => (Ok (clock w), self, w).

Definition advance (d : Q) (w : World) : World :=
  mkWorld (clock w + d)%Q (heap w) (provider_calls w) (jitter_draws w).

(** [time.sleep(d)] *)
Definition sleep (d : Q) : M unit :=
  if Qltb d 0 then raise ValueError else modify_world (advance d).

(** A new DataFrame object holding [df]; its location is the result. The
    heap holds the frames that outlive the step that builds them: a frame an
    attempt builds and drops, as when its validation raises, is not entered. *)
Definition alloc (df : DataFrame) : M loc :=
  fun self w =>
    (Ok (length (heap w)), self,
     mkWorld (clock w) (heap w ++ [df]) (provider_calls w) (jitter_draws w)).

(** [df.copy()] of the object at [l]. *)
Definition copy (l : loc) : M loc :=
  let* w := get_world in alloc (heap w !!! l).

(** ** Normalising the provider's frame *)

(** [df.reset_index()]: the index becomes the first column. *)
Definition reset_index (f : RawFrame) : DataFrame :=
  mkDataFrame (index_name f :: columns (raw f)) (rows (raw f))
              (tz_aware (raw f)) (volume_dtype (raw f)).

(** [df.columns = [col.lower() for col in df.columns]] *)
Definition lower_columns (df : DataFrame) : DataFrame :=
  mkDataFrame (List.map lower (columns df)) (rows df)
              (tz_aware df) (volume_dtype df).

(** [df['timestamp'] = ...]: the label is added when it is new. *)
Definition assign_timestamp (df : DataFrame) : DataFrame :=
  mkDataFrame
    (if has_column df "timestamp" then columns df
     else columns df ++ ["timestamp"%string])
    (rows df) (tz_aware df) (volume_dtype df).

(** [df.sort_values('timestamp').reset_index(drop=True)]: ascending. pandas
    does not fix the order of rows of equal instant; here a row comes after
    the rows of the same instant that followed it. *)
Fixpoint insert_by_timestamp (b : Bar) (sorted : list Bar) : list Bar :=
  match sorted with
  | [] => [b]
  | c :: rest =>
      if timestamp b <? timestamp c then b :: c :: rest
      else c :: insert_by_timestamp b rest
  end.

Definition sort_values (bars : list Bar) : list Bar :=
  fold_right insert_by_timestamp [] bars.

(** ** fetch_ohlc *)

(** What one pass through the body of the retry loop asks for next. *)
Inductive flow (A : Type) :=
| Return (value : A)                    (* [return value] *)
| NextAttempt (is_rate_limited : bool). (* on to the next attempt *)
Arguments Return {A} value.
Arguments NextAttempt {A} is_rate_limited.

Section Fetch.

Variable cfg : Config.
Variable env : Env.

Definition empty_report : DataValidationReport.t := DataValidationReport.init.

(** [self.circuit_breaker.record_failure()] behind [if self.circuit_breaker:] *)
Definition breaker_record_failure : M unit :=
  let* now := monotonic in
  modify_self (fun self =>
    match circuit_breaker self with
    | Some b =>
        set_circuit_breaker (Some (CircuitBreaker.record_failure now b)) self
    | None => self
    end).

Definition breaker_record_success : M unit :=
  modify_self (fun self =>
    match circuit_breaker self with
    | Some b => set_circuit_breaker (Some (CircuitBreaker.record_success b)) self
    | None => self
    end).

(** [self.circuit_breaker and not self.circuit_breaker.can_attempt()] *)
Definition breaker_blocks : M bool :=
  timed (fun now self =>
    match circuit_breaker self with
    | Some b =>
        let '(ok, b') := CircuitBreaker.can_attempt now b in
        (negb ok, set_circuit_breaker (Some b') self)
    | None => (false, self)
    end).

(** [self._calculate_backoff_delay(attempt, is_rate_limit)], drawing the
    jitter when it is enabled. *)
Definition backoff_delay (attempt : Z) (is_rate_limit : bool) : M Q :=
  if YFINANCE_RETRY_JITTER_ENABLED cfg then
    fun self w =>
      (Ok (_calculate_backoff_delay cfg (jitter env (jitter_draws w))
                                    attempt is_rate_limit),
       self,
       mkWorld (clock w) (heap w) (provider_calls w) (S (jitter_draws w)))
  else ret (_calculate_backoff_delay cfg 0 attempt is_rate_limit).

(** [yf.Ticker(self.instrument).history(period=period, interval=interval)] *)
Definition history (period interval : string) : M RawFrame :=
  fun self w =>
    let r := provider env (provider_calls w) (instrument self) period interval in
    let w' := mkWorld (clock w + took r)%Q (heap w)
                      (S (provider_calls w)) (jitter_draws w) in
    match result r with
    | Raises msg => (Raise (ProviderError msg), self, w')
    | Returns frame => (Ok frame, self, w')
    end.

(** [df[required_cols]] *)
Definition select_required (df : DataFrame) : M DataFrame :=
  match List.filter (fun col => negb (has_column df col)) required_cols with
  | [] => ret (mkDataFrame required_cols (rows df)
                            (tz_aware df) (volume_dtype df))
  | missing => raise (KeyError missing)
  end.

(** [self.cache = CacheEntry(df, {...})] and the assignment of
    [validation_passed] that follows it. *)
Definition update_cache (df : loc) (period interval : string)
    (passed : bool) : M unit :=
  let* data := copy df in
  let* creation_time := monotonic in
  modify_self
    (set_cache
       (Some (CacheEntry.set_validation_passed passed
                (CacheEntry.mk data (period, interval) creation_time 0 false)))).

(** The body of [try:] for one attempt. *)
Definition attempt_body (period interval : string) (validate : bool)
    (attempt : Z) (is_rate_limited : bool)
    : M (flow (option loc * DataValidationReport.t)) :=
  let* fetch_start := monotonic in
  let* frame := history period interval in
  if df_empty (raw frame) then
    if attempt <? YFINANCE_RETRY_ATTEMPTS cfg then
      let* delay := backoff_delay attempt false in
      do sleep delay then
      ret (NextAttempt is_rate_limited)
    else
      do breaker_record_failure then
      ret (Return (None, empty_report))
  else
    let df := lower_columns (reset_index frame) in
    if has_column df "datetime" || has_column df "date" then
      let df := assign_timestamp df in
      let* df := select_required df in
      let df := mkDataFrame (columns df) (sort_values (rows df))
                            (tz_aware df) (volume_dtype df) in
      let* now := monotonic in
      let* report := lift (_validate_ohlc_data cfg (utcnow env now) df) in
      let* obj := alloc df in
      do (if YFINANCE_CACHE_ENABLED cfg
          then update_cache obj period interval
                            (DataValidationReport.is_valid report)
          else ret tt) then
      do breaker_record_success then
      let* now := monotonic in
      do modify_self (set_last_fetch_time (Some now)) then
      ret (Return (Some obj, report))
    else
      do breaker_record_failure then
      ret (Return (None, empty_report)).

(** The body of [except Exception as e:]. *)
Definition handler (attempt : Z) (is_rate_limited : bool) (e : exn)
    : M (flow (option loc * DataValidationReport.t)) :=
  let is_rate_limited :=
    if contains "429" (str e) || contains "rate" (lower (str e))
    then true else is_rate_limited in
  if attempt <? YFINANCE_RETRY_ATTEMPTS cfg then
    let* delay := backoff_delay attempt is_rate_limited in
    do sleep delay then
    ret (NextAttempt is_rate_limited)
  else
    do (if is_rate_limited then
          let* backoff := backoff_delay attempt true in
          let* now := monotonic in
          modify_self (set_rate_limit_until (now + backoff)%Q)
        else ret tt) then
    do breaker_record_failure then
    ret (NextAttempt is_rate_limited).

(** [for attempt in range(1, YFINANCE_RETRY_ATTEMPTS + 1)], from [attempt]
    on, [remaining] passes being left; then the final [return]. *)
Fixpoint retry_loop (period interval : string) (validate : bool)
    (remaining : nat) (attempt : Z) (is_rate_limited : bool)
    : M (option loc * DataValidationReport.t) :=
  match remaining with
  | O => ret (None, empty_report)
  | S remaining =>
      let* next :=
        try_except (attempt_body period interval validate attempt is_rate_limited)
                   (handler attempt is_rate_limited) in
      match next with
      | Return value => ret value
      | NextAttempt is_rate_limited =>
          retry_loop period interval validate remaining (attempt + 1)
                     is_rate_limited
      end
  end.

(** The cache branch: [self.cache.data.copy()] and the report that carries
    the cached flag. Reading [self.cache.data] when there is no entry is an
    AttributeError, and the branch is outside every [try]. *)
Definition read_cache : M (option loc * DataValidationReport.t) :=
  let* self := get_self in
  match cache self with
  | None => raise AttributeError
  | Some entry =>
      let* df := copy (CacheEntry.data entry) in
      let report :=
        DataValidationReport.set_is_valid
          (CacheEntry.validation_passed entry) DataValidationReport.init in
      ret (Some df, report)
  end.

Definition fetch_ohlc (period interval : string) (use_cache validate : bool)
    : M (option loc * DataValidationReport.t) :=
  (* Check circuit breaker *)
  let* blocked := breaker_blocks in
  if blocked then ret (None, empty_report)
  else
    (* Check rate limit backoff *)
    let* self := get_self in
    let* now := monotonic in
    if Qltb now (rate_limit_until self) then ret (None, empty_report)
    else
      (* Check cache first *)
      let* hit :=
        if use_cache then timed (_should_use_cache cfg) else ret false in
      if hit then read_cache
      else
        retry_loop period interval validate
                   (Z.to_nat (YFINANCE_RETRY_ATTEMPTS cfg)) 1 false.

End Fetch.

(** ** get_latest_price, get_current_bar, get_cache_stats *)

(** [int(x)] of a float truncates toward zero; it raises ValueError on NaN
    and OverflowError on an infinity. Neither is among the exceptions
    [fetch_ohlc] deals with, so they have a type of their own. *)
Inductive int_error :=
| IntOfNaN            (* ValueError: cannot convert float NaN to integer *)
| IntOfInfinity.      (* OverflowError: cannot convert float infinity to integer *)

Definition python_int (x : float64) : int_error + Z :=
  match x with
  | Num q => inr (Z.quot (Qnum q) (Zpos (Qden q)))
  | NaN => inl IntOfNaN
  | PosInf | NegInf => inl IntOfInfinity
  end.

(** The dict [get_current_bar] returns. *)
Record CurrentBar := mkCurrentBar {
  bar_timestamp : Z;
  bar_open : float64;
  bar_high : float64;
  bar_low : float64;
  bar_close : float64;
  bar_volume : Z
}.

(** [df.iloc[-1]] of a frame that is not empty. *)
Definition last_row (df : DataFrame) : option Bar := last (rows df).

(** [latest[col]] for each of [cols] in turn: the first label that is not a
    column raises KeyError. *)
Definition require_columns (df : DataFrame) (cols : list string) : M unit :=
  match List.filter (fun col => negb (has_column df col)) cols with
  | [] => ret tt
  | col :: _ => raise (KeyError [col])
  end.

Section Accessors.

Variable cfg : Config.
Variable env : Env.

(** [get_latest_price]. The frame is read through the location that
    [fetch_ohlc] hands back. *)
Definition get_latest_price : M (option float64) :=
  let* result := fetch_ohlc cfg env "1d" "1m" true false in
  match fst result with
  | None => ret None
  | Some l =>
      let* w := get_world in
      let df := heap w !!! l in
      if df_empty df then ret None
      else
        match last_row df with
        | None => ret None
        | Some latest =>
            do require_columns df ["close"%string] then
            ret (Some (close latest))
        end
  end.

(** [get_current_bar]. A result [inl e] stands for the exception [e] of
    [int(latest['volume'])], which leaves the method. *)
Definition get_current_bar : M (int_error + option CurrentBar) :=
  let* result := fetch_ohlc cfg env "1d" "1m" true false in
  match fst result with
  | None => ret (inr None)
  | Some l =>
      let* w := get_world in
      let df := heap w !!! l in
      if df_empty df then ret (inr None)
      else
        match last_row df with
        | None => ret (inr None)
        | Some latest =>
            do require_columns df required_cols then
            match python_int (volume latest) with
            | inl e => ret (inl e)
            | inr v =>
                ret (inr (Some (mkCurrentBar (timestamp latest) (open latest)
                                             (high latest) (low latest)
                                             (close latest) v)))
            end
        end
  end.

End Accessors.

(** [get_cache_stats]: the three counters and the hit rate, by key. *)
Definition get_cache_stats (self : Fetcher) : gmap string Q :=
  <["hit_rate_percent"%string := CacheStatistics.hit_rate (cache_stats self)]>
  (<["invalidations"%string :=
       inject_Z (CacheStatistics.invalidations (cache_stats self))]>
  (<["misses"%string := inject_Z (CacheStatistics.misses (cache_stats self))]>
  (<["hits"%string := inject_Z (CacheStatistics.hits (cache_stats self))]> ∅))).

(** * The vocabulary of the statements

    Predicates and concrete values that the properties below are stated
    with. *)

(** ** Concrete values *)

(** Three attempts, delays 2 s capped at 8 s, no jitter, TTL 50 s, threshold
    3; of the checks of the validator only the relational one is on, and a
    cache hit does not require a validated entry. *)
Definition sample_config : Config := {|
  YFINANCE_RETRY_ATTEMPTS := 3;
  YFINANCE_RETRY_DELAY := 2;
  YFINANCE_RETRY_MAX_DELAY := 8;
  YFINANCE_RETRY_JITTER_ENABLED := false;
  YFINANCE_RATE_LIMIT_BACKOFF := 300;
  YFINANCE_RATE_LIMIT_MAX_BACKOFF := 3600;
  YFINANCE_CACHE_TTL := 50;
  YFINANCE_CACHE_ENABLED := true;
  YFINANCE_CACHE_VALIDATION := false;
  VALIDATE_OHLC_RELATIONSHIPS := true;
  VALIDATE_DATA_FRESHNESS := false;
  VALIDATE_NO_DUPLICATES := false;
  VALIDATE_NO_NAN_VALUES := false;
  VALIDATE_VOLUME_POSITIVE := false;
  DATA_FRESHNESS_MAX_AGE_SECONDS := 120;
  DATA_FRESHNESS_MIN_AGE_SECONDS := -60;
  CIRCUIT_BREAKER_ENABLED := true;
  CIRCUIT_BREAKER_THRESHOLD := 3;
  CIRCUIT_BREAKER_RESET_INTERVAL := 60
|}.

(** The bar of scenario 3: open 11, high 10, low 12, close 11. *)
Definition scenario_bar : Bar := {|
  timestamp := 0;
  open := Num 11; high := Num 10; low := Num 12; close := Num 11;
  volume := Num 100
|}.

(** The frame of that bar, as built from literals: instants without a zone,
    whole volumes. *)
Definition scenario_frame : DataFrame :=
  mkDataFrame required_cols [scenario_bar] false Int64.

Definition frame_without_rows : DataFrame :=
  mkDataFrame required_cols [] false Int64.

Definition frame_without_volume : DataFrame :=
  mkDataFrame ["timestamp"; "open"; "high"; "low"; "close"]%string [scenario_bar]
              false Int64.

Definition relational_lines_of_scenario : list message :=
  [MsgHighLtLow 1; MsgHighLtOpen 1; MsgHighLtClose 1;
   MsgLowGtOpen 1; MsgLowGtClose 1].

(** The five relational lines with the statistics of the scenario frame. *)
Definition scenario_report : DataValidationReport.t :=
  add_statistics scenario_frame
    (DataValidationReport.mk false relational_lines_of_scenario [] ∅).

(** [sample_config] with a negative retry delay. *)
Definition negative_delay_config : Config :=
  mkConfig 3 (-2) 8 false 300 3600 50 true false
           true false false false false 120 (-60)
           true 3 60.

(** An entry stored at instant 0 whose frame did not pass validation. *)
Definition cached_entry : CacheEntry.t :=
  CacheEntry.mk 0%nat ("1d", "1m")%string 0 0 false.

Definition fetcher_with_entry : Fetcher :=
  mkFetcher "NQ=F" (Some cached_entry) CacheStatistics.init None 0 0 (Some 0%Q).

(** An answer as yfinance gives it: the index carries a zone and the volume
    is int64. *)
Definition provider_frame : RawFrame :=
  mkRawFrame "Datetime"
    (mkDataFrame ["Open"; "High"; "Low"; "Close"; "Volume"]%string [scenario_bar]
                 true Int64).

(** What [fetch_ohlc] makes of that answer. *)
Definition served_frame : DataFrame :=
  mkDataFrame required_cols [scenario_bar] true Int64.

Definition serving_env : Env :=
  mkEnv (fun _ _ _ _ => mkResponse 1 (Returns provider_frame))
        (fun _ => 0%Q) (fun _ => 0).

Definition rate_limited_env : Env :=
  mkEnv (fun _ _ _ _ => mkResponse 1 (Raises "HTTP Error 429: Too Many Requests"))
        (fun _ => 0%Q) (fun _ => 0).

Definition failing_env : Env :=
  mkEnv (fun _ _ _ _ => mkResponse 1 (Raises "connection reset"))
        (fun _ => 0%Q) (fun _ => 0).

Definition tripped_breaker : CircuitBreaker.t :=
  CircuitBreaker.record_failures [1; 2; 3]%Q (CircuitBreaker.init 3 60).

Definition tripped_fetcher : Fetcher :=
  mkFetcher "NQ=F" None CacheStatistics.init (Some tripped_breaker) 0 0 None.

Definition world_with_frame : World := mkWorld 40 [scenario_frame] 0 0.

(** ** The validator *)

(** The age of the latest bar at the wall-clock instant [utcnow], in
    seconds. *)
Definition age_seconds (utcnow : Z) (df : DataFrame) : Q :=
  (inject_Z (utcnow - timestamp_max (List.map timestamp (rows df)))
   / nanoseconds)%Q.

(** The freshness check raises on this frame: it is enabled and the instants
    carry a zone. *)
Definition freshness_raises (cfg : Config) (df : DataFrame) : bool :=
  VALIDATE_DATA_FRESHNESS cfg && tz_aware df.

Section ValidatorVocabulary.

Import DataValidationReport.

Variable cfg : Config.

(** Every required label is among the columns. *)
Definition has_required_columns (df : DataFrame) : bool :=
  forallb (has_column df) required_cols.

(** The five lines of the relational check. *)
Definition is_relational (m : message) : bool :=
  match m with
  | MsgHighLtLow _ | MsgHighLtOpen _ | MsgHighLtClose _
  | MsgLowGtOpen _ | MsgLowGtClose _ => true
  | _ => false
  end.

(** The checks that follow the relational one, in the order of the code, as
    they act on a report when the freshness check does not raise. *)
Definition later_checks (utcnow : Z) (df : DataFrame) (report : t) : t :=
  when (VALIDATE_DATA_FRESHNESS cfg) (check_age cfg (age_seconds utcnow df))
    (when (VALIDATE_NO_DUPLICATES cfg) (check_duplicates df)
       (when (VALIDATE_VOLUME_POSITIVE cfg) (check_volume df)
          (when (VALIDATE_NO_NAN_VALUES cfg) (check_nan_values df) report))).

(** A step that can only append error lines that are not relational, and
    that leaves an invalid report invalid. *)
Definition appends_other (step : t -> t) : Prop :=
  forall r, exists extra,
    errors (step r) = errors r ++ extra
    /\ existsb is_relational extra = false
    /\ (is_valid r = false -> is_valid (step r) = false).

End ValidatorVocabulary.

(** ** The circuit breaker *)

(** A breaker (threshold 3, reset interval 60) that three failures, the last
    at instant 10, have opened. *)
Definition open_breaker : CircuitBreaker.t :=
  CircuitBreaker.mk 3 60 3 (Some 10%Q) true.

(** The state [can_attempt] leaves when it grants the probe. *)
Definition probe_granted (b : CircuitBreaker.t) : CircuitBreaker.t :=
  CircuitBreaker.mk (CircuitBreaker.threshold b) (CircuitBreaker.reset_interval b)
                    0 (CircuitBreaker.last_failure_time b) false.

(** The probe is due: the breaker is open, it has a truthy instant of last
    failure, and the reset interval has elapsed since. *)
Definition probe_due (now : Q) (b : CircuitBreaker.t) : bool :=
  CircuitBreaker.is_open b
  && match CircuitBreaker.last_failure_time b with
     | Some last =>
         truthy last && Qleb (CircuitBreaker.reset_interval b) (now - last)
     | None => false
     end.

(** ** The cache *)

Section CacheVocabulary.

Variable cfg : Config.

(** The instance after a run of calls of a method at the instants of
    [times]. *)
Definition after_calls {A} (method : Q -> Fetcher -> A * Fetcher)
    (times : list Q) (self : Fetcher) : Fetcher :=
  fold_left (fun self now => snd (method now self)) times self.

(** The entry is usable at [now]: younger than the TTL, and validated when
    the policy asks for it. *)
Definition usable (now : Q) (entry : CacheEntry.t) : Prop :=
  (now - CacheEntry.creation_time entry < YFINANCE_CACHE_TTL cfg)%Q
  /\ (YFINANCE_CACHE_VALIDATION cfg = false
      \/ CacheEntry.validation_passed entry = true).

(** The answer of [_should_use_cache] as one boolean. *)
Definition should_hit (now : Q) (self : Fetcher) : bool :=
  YFINANCE_CACHE_ENABLED cfg
  && match cache self with
     | Some entry =>
         Qltb (now - CacheEntry.creation_time entry) (YFINANCE_CACHE_TTL cfg)
         && (negb (YFINANCE_CACHE_VALIDATION cfg)
             || CacheEntry.validation_passed entry)
     | None => false
     end.

End CacheVocabulary.

(** ** Runs of the method bodies *)

Definition outcome_of {A} (x : outcome A * Fetcher * World) : outcome A := fst (fst x).
Definition self_of {A} (x : outcome A * Fetcher * World) : Fetcher := snd (fst x).
Definition world_of {A} (x : outcome A * Fetcher * World) : World := snd x.

(** A computation that makes no object, leaves the cache entry alone and does
    not call the provider. *)
Definition quiet {A} (m : M A) : Prop :=
  forall self w,
    heap (world_of (m self w)) = heap w
    /\ cache (self_of (m self w)) = cache self
    /\ provider_calls (world_of (m self w)) = provider_calls w.

(** A computation that raises nothing. *)
Definition safe {A} (m : M A) : Prop :=
  forall self w, exists a, outcome_of (m self w) = Ok a.

(** Every result of the computation satisfies [P]. *)
Definition yields {A} (P : A -> Prop) (m : M A) : Prop :=
  forall self w,
    match outcome_of (m self w) with
    | Ok a => P a
    | Raise _ => True
    end.

Section FetchVocabulary.

Variable cfg : Config.
Variable env : Env.

(** What a run that hands back a newly fetched frame has done: the frame is
    a new object, the provider was called, and with caching enabled the
    entry is a second new object with the same content. *)
Definition stored (self : Fetcher) (w : World) (l : loc)
    (report : DataValidationReport.t) (self' : Fetcher) (w' : World) : Prop :=
  exists df,
    l = length (heap w)
    /\ (provider_calls w < provider_calls w')%nat
    /\ if YFINANCE_CACHE_ENABLED cfg
       then heap w' = heap w ++ [df; df]
            /\ exists entry,
                 cache self' = Some entry
                 /\ CacheEntry.data entry = S (length (heap w))
                 /\ CacheEntry.validation_passed entry
                    = DataValidationReport.is_valid report
       else heap w' = heap w ++ [df] /\ cache self' = cache self.

(** What a run that serves the cached frame has done: no provider call, and
    a new object with the content of the entry's own frame; the report has
    nothing but the cached flag. *)
Definition served (self : Fetcher) (w : World) (l : loc)
    (report : DataValidationReport.t) (self' : Fetcher) (w' : World) : Prop :=
  provider_calls w' = provider_calls w
  /\ YFINANCE_CACHE_ENABLED cfg = true
  /\ exists entry,
       cache self = Some entry
       /\ cache self'
          = Some (CacheEntry.set_hit_count (CacheEntry.hit_count entry + 1) entry)
       /\ l = length (heap w)
       /\ heap w' = heap w ++ [heap w !!! CacheEntry.data entry]
       /\ report
          = DataValidationReport.mk (CacheEntry.validation_passed entry) [] [] ∅.

(** One pass of the retry loop: the [try] body under its handler. *)
Definition one_attempt (period interval : string) (validate : bool)
    (attempt : Z) (is_rate_limited : bool)
    : M (flow (option loc * DataValidationReport.t)) :=
  try_except (attempt_body cfg env period interval validate attempt is_rate_limited)
             (handler cfg env attempt is_rate_limited).

End FetchVocabulary.

(** The frame of the cache entry is an object of the heap. *)
Definition cache_in_heap (self : Fetcher) (w : World) : Prop :=
  match cache self with
  | Some entry => (CacheEntry.data entry < length (heap w))%nat
  | None => True
  end.

(** The caller rewrites the frame it holds at [l]; the clock may have moved. *)
Definition mutate (l : loc) (df : DataFrame) (now : Q) (w : World) : World :=
  mkWorld now (<[l := df]> (heap w)) (provider_calls w) (jitter_draws w).

Definition first_fetch :=
  fetch_ohlc sample_config serving_env "1d" "1m" true true
             (Fetcher_init sample_config "NQ=F") (mkWorld 0 [] 0 0).

Definition second_fetch :=
  fetch_ohlc sample_config serving_env "1d" "1m" true true
             (self_of first_fetch)
             (mutate 0%nat frame_without_rows 10 (world_of first_fetch)).

(** Three runs of [fetch_ohlc] against a provider that always fails, each
    starting where the one before ended. *)
Definition fetch_after {A} (x : outcome A * Fetcher * World) :=
  fetch_ohlc sample_config failing_env "1d" "1m" true true
             (self_of x) (world_of x).

Definition three_failed_fetches :=
  fetch_after
    (fetch_after
       (fetch_ohlc sample_config failing_env "1d" "1m" true true
                   (Fetcher_init sample_config "NQ=F") (mkWorld 0 [] 0 0))).

(** ** Histories of a circuit breaker *)

(** A call of one of the three methods, with the instant the clock shows. *)
Inductive breaker_op :=
| OpSuccess                      (* record_success() *)
| OpFailure (now : Q)            (* record_failure() *)
| OpCanAttempt (now : Q).        (* can_attempt() *)

Definition apply_op (b : CircuitBreaker.t) (op : breaker_op) : CircuitBreaker.t :=
  match op with
  | OpSuccess => CircuitBreaker.record_success b
  | OpFailure now => CircuitBreaker.record_failure now b
  | OpCanAttempt now => snd (CircuitBreaker.can_attempt now b)
  end.

(** The breaker after the calls of [ops], in order. *)
Definition run_ops (ops : list breaker_op) (b : CircuitBreaker.t) : CircuitBreaker.t :=
  fold_left apply_op ops b.

(** The instants of the [record_failure] calls of a history, in order. *)
Definition failures_of (ops : list breaker_op) : list Q :=
  flat_map (fun op => match op with OpFailure now => [now] | _ => [] end) ops.

(** A history, from [b] on, of [record_failure] calls and of [can_attempt]
    calls between them, with no [record_success] and no [can_attempt] that
    is granted as a probe. *)
Fixpoint unbroken (ops : list breaker_op) (b : CircuitBreaker.t) : Prop :=
  match ops with
  | [] => True
  | op :: rest =>
      match op with
      | OpSuccess => False
      | OpFailure _ => True
      | OpCanAttempt now => probe_due now b = false
      end
      /\ unbroken rest (apply_op b op)
  end.

(** Three failures open the breaker, a probe is granted at 70, and a fourth
    failure follows at 71. *)
Definition failures_around_probe : list breaker_op :=
  [OpFailure 1; OpFailure 2; OpFailure 3; OpCanAttempt 70; OpFailure 71].

(** Failures and the attempts of the runs they end, in turn. *)
Definition failures_between_attempts : list breaker_op :=
  [OpCanAttempt 0; OpFailure 1; OpCanAttempt 1; OpFailure 2;
   OpCanAttempt 2; OpFailure 3].

(** What holds of a breaker however it was used. *)
Definition breaker_consistent (b : CircuitBreaker.t) : Prop :=
  0 <= CircuitBreaker.failure_count b
  /\ (CircuitBreaker.is_open b = true
      <-> CircuitBreaker.threshold b <= CircuitBreaker.failure_count b)
  /\ (CircuitBreaker.is_open b = true ->
      exists last, CircuitBreaker.last_failure_time b = Some last).

(** ** What the checks of the validator look for *)

(** [sample_config] with every check of the validator enabled. *)
Definition strict_config : Config := {|
  YFINANCE_RETRY_ATTEMPTS := 3;
  YFINANCE_RETRY_DELAY := 2;
  YFINANCE_RETRY_MAX_DELAY := 8;
  YFINANCE_RETRY_JITTER_ENABLED := false;
  YFINANCE_RATE_LIMIT_BACKOFF := 300;
  YFINANCE_RATE_LIMIT_MAX_BACKOFF := 3600;
  YFINANCE_CACHE_TTL := 50;
  YFINANCE_CACHE_ENABLED := true;
  YFINANCE_CACHE_VALIDATION := true;
  VALIDATE_OHLC_RELATIONSHIPS := true;
  VALIDATE_DATA_FRESHNESS := true;
  VALIDATE_NO_DUPLICATES := true;
  VALIDATE_NO_NAN_VALUES := true;
  VALIDATE_VOLUME_POSITIVE := true;
  DATA_FRESHNESS_MAX_AGE_SECONDS := 120;
  DATA_FRESHNESS_MIN_AGE_SECONDS := -60;
  CIRCUIT_BREAKER_ENABLED := true;
  CIRCUIT_BREAKER_THRESHOLD := 3;
  CIRCUIT_BREAKER_RESET_INTERVAL := 60
|}.

(** Two consistent bars, one and two minutes after the epoch. *)
Definition clean_frame : DataFrame :=
  mkDataFrame required_cols
    [mkBar (60 * 10 ^ 9) (Num 10) (Num 12) (Num 9) (Num 11) (Num 5);
     mkBar (120 * 10 ^ 9) (Num 11) (Num 13) (Num 11) (Num 12) (Num 0)]
    false Int64.

(** Three minutes after the epoch, and an hour after it. *)
Definition three_minutes : Z := 180 * 10 ^ 9.
Definition one_hour : Z := 3600 * 10 ^ 9.

(** A report says it is valid exactly when it has no error line. *)
Definition report_coherent (r : DataValidationReport.t) : Prop :=
  DataValidationReport.is_valid r = true <-> DataValidationReport.errors r = [].

(** A step on the report that only appends lines, the same ones whatever the
    report it starts from, and that touches [is_valid] only by adding
    errors. *)
Definition appends_lines
    (step : DataValidationReport.t -> DataValidationReport.t) : Prop :=
  forall r,
    DataValidationReport.errors (step r)
    = DataValidationReport.errors r
      ++ DataValidationReport.errors (step DataValidationReport.init)
    /\ DataValidationReport.warnings (step r)
       = DataValidationReport.warnings r
         ++ DataValidationReport.warnings (step DataValidationReport.init)
    /\ (report_coherent r -> report_coherent (step r)).

(** The line of a count: none when the count is zero. *)
Definition line_if (n : nat) (msg : nat -> message) : list message :=
  if (0 <? n)%nat then [msg n] else [].

(** The bar violates none of the five relations. *)
Definition bar_relations_hold (b : Bar) : bool :=
  negb (flt (high b) (low b))
  && negb (flt (high b) (open b))
  && negb (flt (high b) (close b))
  && negb (fgt (low b) (open b))
  && negb (fgt (low b) (close b)).

(** No value of the bar is NaN and no price is infinite. *)
Definition bar_values_present (b : Bar) : bool :=
  negb (isna (open b)) && negb (isna (high b)) && negb (isna (low b))
  && negb (isna (close b)) && negb (isna (volume b))
  && negb (isinf (open b)) && negb (isinf (high b)) && negb (isinf (low b))
  && negb (isinf (close b)).

Definition bar_volume_not_negative (b : Bar) : bool :=
  negb (flt (volume b) (Num 0)).

(** The order of the instants of two bars. *)
Definition not_later (a b : Bar) : Prop := timestamp a <= timestamp b.

(** ** More on the runs of fetch_ohlc *)

(** A computation that leaves the instrument and the cache statistics as they
    are. *)
Definition steady {A} (m : M A) : Prop :=
  forall self w,
    instrument (self_of (m self w)) = instrument self
    /\ cache_stats (self_of (m self w)) = cache_stats self.

(** What [reset_index], the lower-casing, the timestamp column, the selection
    and the sort make of a frame of the provider. *)
Definition normalised (frame : RawFrame) : DataFrame :=
  mkDataFrame required_cols (sort_values (rows (raw frame)))
              (tz_aware (raw frame)) (volume_dtype (raw frame)).

(** The frame has a date column and every price column, in whatever case. *)
Definition well_shaped (frame : RawFrame) : bool :=
  let df := lower_columns (reset_index frame) in
  (has_column df "datetime" || has_column df "date")
  && forallb (has_column (assign_timestamp df)) required_cols.

Section FetchedVocabulary.

Variable cfg : Config.
Variable env : Env.

(** What a run that hands back a newly fetched frame at [l] has done, in
    full: some call of this run was answered with a frame that is not empty
    and well shaped; the frame at [l] is its normal form and the report is the
    validator's report on it; the breaker, if there is one, is closed with no
    failure counted; the instant of the last fetch is the clock at the end;
    and with caching enabled the entry is new, for the period and interval
    asked, never hit, and flagged as the report says. *)
Definition fetched (period interval : string) (self : Fetcher) (w : World)
    (l : loc) (report : DataValidationReport.t)
    (self' : Fetcher) (w' : World) : Prop :=
  (exists n frame,
     (provider_calls w <= n < provider_calls w')%nat
     /\ result (provider env n (instrument self) period interval) = Returns frame
     /\ df_empty (raw frame) = false
     /\ well_shaped frame = true
     /\ heap w' !!! l = normalised frame
     /\ _validate_ohlc_data cfg (utcnow env (clock w')) (normalised frame)
        = Ok report)
  /\ (forall b, circuit_breaker self' = Some b ->
        CircuitBreaker.failure_count b = 0 /\ CircuitBreaker.is_open b = false)
  /\ last_fetch_time self' = Some (clock w')
  /\ (YFINANCE_CACHE_ENABLED cfg = true ->
      exists entry,
        cache self' = Some entry
        /\ heap w' !!! CacheEntry.data entry = heap w' !!! l
        /\ CacheEntry.metadata entry = (period, interval)
        /\ CacheEntry.creation_time entry = clock w'
        /\ CacheEntry.hit_count entry = 0
        /\ CacheEntry.validation_passed entry
           = DataValidationReport.is_valid report).

End FetchedVocabulary.

(** A fetcher in the middle of a rate-limit cool-down, with a fresh entry. *)
Definition cooling_fetcher : Fetcher :=
  mkFetcher "NQ=F" (Some cached_entry) CacheStatistics.init None 0 100 (Some 0%Q).

Section ProviderVocabulary.

Variable cfg : Config.

(** The run gets past the two gates: the breaker, if any, lets the attempt
    through (it is closed, or open and granted its probe), and no cool-down
    is on. *)
Definition passes_gates (self : Fetcher) (w : World) : Prop :=
  match circuit_breaker self with
  | Some b => fst (CircuitBreaker.can_attempt (clock w) b) = true
  | None => True
  end
  /\ (rate_limit_until self <= clock w)%Q.

(** The instance as the breaker gate leaves it: [can_attempt] has run. *)
Definition after_breaker_gate (self : Fetcher) (w : World) : Fetcher :=
  match circuit_breaker self with
  | Some b =>
      set_circuit_breaker
        (Some (snd (CircuitBreaker.can_attempt (clock w) b))) self
  | None => self
  end.

(** The run is not stopped at a gate and not served from the cache: it gets
    past the gates and the cache, if it is asked, does not hit. It goes on to
    the retry loop. *)
Definition goes_to_provider (use_cache : bool) (self : Fetcher) (w : World) : Prop :=
  passes_gates self w
  /\ (use_cache = true -> should_hit cfg (clock w) self = false).

(** The instance as the cache check leaves it when it misses. *)
Definition after_cache_check (use_cache : bool) (self : Fetcher) (w : World) : Fetcher :=
  if use_cache then snd (_should_use_cache cfg (clock w) self) else self.

End ProviderVocabulary.


(** What the breaker is told at the end of a run: the success, or the failure
    at the instant the run ends. *)
Definition breaker_outcome (data : option loc) (now : Q) (b : CircuitBreaker.t)
    : CircuitBreaker.t :=
  match data with
  | Some _ => CircuitBreaker.record_success b
  | None => CircuitBreaker.record_failure now b
  end.

(** [row] is a bar of the provider's answer, and no bar of the answer is
    later. *)
Definition newest_of (frame : RawFrame) (row : Bar) : Prop :=
  In row (rows (raw frame))
  /\ forall r, In r (rows (raw frame)) -> timestamp r <= timestamp row.

(** The answer of the provider is an exception whose text the handler takes
    for a rate limit. *)
Definition rate_limit_reported (r : Response) : bool :=
  match result r with
  | Raises msg => contains "429" msg || contains "rate" (lower msg)
  | Returns _ => false
  end.

(** After [reset_index] and the lower-casing the frame has a column
    [datetime] or [date]. *)
Definition has_date_column (frame : RawFrame) : bool :=
  let df := lower_columns (reset_index frame) in
  has_column df "datetime" || has_column df "date".

(** A frame of one bar under a column index that is not a date. *)
Definition shapeless_frame : RawFrame :=
  mkRawFrame "Index"
    (mkDataFrame ["Open"; "High"; "Low"; "Close"; "Volume"]%string [scenario_bar]
                 true Int64).

Definition shapeless_env : Env :=
  mkEnv (fun _ _ _ _ => mkResponse 1 (Returns shapeless_frame))
        (fun _ => 0%Q) (fun _ => 0).

(** The provider reports a rate limit at the first call and a reset
    connection at every later one. *)
Definition limited_once_env : Env :=
  mkEnv (fun n _ _ _ =>
           mkResponse 1 (Raises (match n with
                                 | O => "HTTP Error 429: Too Many Requests"
                                 | S _ => "connection reset"
                                 end)))
        (fun _ => 0%Q) (fun _ => 0).

(** * Properties *)

(** ** Comparisons of rationals *)

Lemma Qleb_le (x y : Q) : Qleb x y = true <-> (x <= y)%Q.
Proof. apply Qle_bool_iff. Qed.

Lemma Qltb_lt (x y : Q) : Qltb x y = true <-> (x < y)%Q.
Proof.
  unfold Qltb. rewrite negb_true_iff, <- not_true_iff_false, Qle_bool_iff.
  split; [apply Qnot_le_lt | apply Qlt_not_le].
Qed.

Lemma Qltb_ge (x y : Q) : Qltb x y = false <-> (y <= x)%Q.
Proof.
  unfold Qltb. rewrite negb_false_iff. apply Qle_bool_iff.
Qed.

Lemma Qleb_gt (x y : Q) : Qleb x y = false <-> (y < x)%Q.
Proof.
  unfold Qleb. rewrite <- not_true_iff_false, Qle_bool_iff.
  split; [apply Qnot_le_lt | apply Qlt_not_le].
Qed.

(** ** The validator *)

Section ValidatorFacts.

Import DataValidationReport.

Variable cfg : Config.

Lemma filter_missing_nil (df : DataFrame) :
  has_required_columns df = true ->
  List.filter (fun col => negb (has_column df col)) required_cols = [].
Proof.
  unfold has_required_columns. generalize required_cols.
  induction l as [|c l IH]; simpl; [reflexivity|].
  rewrite andb_true_iff. intros [Hc Hl]. rewrite Hc. simpl. auto.
Qed.

Lemma validate_unfold (utcnow : Z) (df : DataFrame) :
  df_empty df = false ->
  has_required_columns df = true ->
  _validate_ohlc_data cfg utcnow df
  = if freshness_raises cfg df then Raise TypeError
    else Ok (add_statistics df
               (later_checks cfg utcnow df
                  (when (VALIDATE_OHLC_RELATIONSHIPS cfg)
                        (check_relationships df) init))).
Proof.
  intros He Hc.
  unfold _validate_ohlc_data, freshness_raises, later_checks, check_freshness,
    age_seconds.
  rewrite He, (filter_missing_nil df Hc).
  destruct (VALIDATE_DATA_FRESHNESS cfg); simpl; [| reflexivity].
  destruct (tz_aware df); reflexivity.
Qed.

(** The report of a run of the validator that gets past the structural
    checks and returns. *)
Lemma validate_returns (utcnow : Z) (df : DataFrame) (report : t) :
  df_empty df = false ->
  has_required_columns df = true ->
  _validate_ohlc_data cfg utcnow df = Ok report ->
  freshness_raises cfg df = false
  /\ report
     = add_statistics df
         (later_checks cfg utcnow df
            (when (VALIDATE_OHLC_RELATIONSHIPS cfg) (check_relationships df)
                  init)).
Proof.
  intros He Hc. rewrite (validate_unfold utcnow df He Hc).
  destruct (freshness_raises cfg df); [discriminate|].
  intros [= <-]. split; reflexivity.
Qed.

(** The two structural failures: the report is returned at once. *)
Lemma validate_structural (utcnow : Z) (df : DataFrame) :
  (df_empty df = true ->
   _validate_ohlc_data cfg utcnow df = Ok (mk false [MsgEmpty] [] ∅))
  /\ (df_empty df = false ->
      has_required_columns df = false ->
      _validate_ohlc_data cfg utcnow df
      = Ok (mk false
               [MsgMissingColumns
                  (List.filter (fun col => negb (has_column df col))
                               required_cols)] [] ∅)).
Proof.
  unfold _validate_ohlc_data. split.
  - intros ->. reflexivity.
  - intros -> Hmissing.
    destruct (List.filter (fun col => negb (has_column df col)) required_cols)
      as [|col missing] eqn:Hfilter; [| reflexivity].
    exfalso. unfold has_required_columns in Hmissing.
    apply not_true_iff_false in Hmissing. apply Hmissing.
    apply forallb_forall. intros col Hin.
    destruct (has_column df col) eqn:Hcol; [reflexivity|].
    assert (Hf : In col (List.filter (fun col => negb (has_column df col))
                                     required_cols)).
    { apply filter_In. split; [exact Hin | rewrite Hcol; reflexivity]. }
    rewrite Hfilter in Hf. destruct Hf.
Qed.

Lemma appends_other_id : appends_other (fun r => r).
Proof.
  intros r. exists []. rewrite app_nil_r. auto.
Qed.

Lemma appends_other_compose (f g : t -> t) :
  appends_other f -> appends_other g -> appends_other (fun r => g (f r)).
Proof.
  intros Hf Hg r.
  destruct (Hf r) as (e1 & E1 & N1 & V1).
  destruct (Hg (f r)) as (e2 & E2 & N2 & V2).
  exists (e1 ++ e2). rewrite E2, E1, <- app_assoc, existsb_app, N1, N2. auto.
Qed.

Lemma appends_other_when (flag : bool) (f : t -> t) :
  appends_other f -> appends_other (when flag f).
Proof.
  destruct flag; [trivial | intros _; apply appends_other_id].
Qed.

Lemma appends_other_error (n : nat) (msg : nat -> message) :
  is_relational (msg n) = false ->
  appends_other (error_if_positive n msg).
Proof.
  intros Hm r. unfold error_if_positive.
  destruct (0 <? n)%nat.
  - exists [msg n]. simpl. rewrite Hm. auto.
  - exists []. rewrite app_nil_r. auto.
Qed.

Lemma appends_other_later (utcnow : Z) (df : DataFrame) :
  appends_other (later_checks cfg utcnow df).
Proof.
  unfold later_checks.
  apply (appends_other_compose
           (fun r => when _ (check_duplicates df)
                       (when _ (check_volume df)
                          (when _ (check_nan_values df) r)))
           (when _ (check_age cfg (age_seconds utcnow df)))).
  - apply (appends_other_compose
             (fun r => when _ (check_volume df) (when _ (check_nan_values df) r))
             (when _ (check_duplicates df))).
    + apply (appends_other_compose (when _ (check_nan_values df))
                                   (when _ (check_volume df))).
      * apply appends_other_when. unfold check_nan_values.
        apply (appends_other_compose (error_if_positive _ _)
                                     (error_if_positive _ _));
          apply appends_other_error; reflexivity.
      * apply appends_other_when, appends_other_error. reflexivity.
    + apply appends_other_when, appends_other_error. reflexivity.
  - apply appends_other_when. intros r. unfold check_age.
    destruct (Qltb _ _); destruct (Qltb _ _); simpl;
      first [ exists [] ; rewrite app_nil_r; simpl; solve [auto]
            | eexists [_]; simpl; solve [auto] ].
Qed.

(** The statistics block overwrites three keys and touches nothing else. *)
Lemma add_statistics_fields (df : DataFrame) (r : t) :
  is_valid (add_statistics df r) = is_valid r
  /\ errors (add_statistics df r) = errors r
  /\ warnings (add_statistics df r) = warnings r.
Proof. repeat split. Qed.

End ValidatorFacts.

Lemma required_columns_not_empty (df : DataFrame) :
  has_required_columns df = true -> rows df <> [] -> df_empty df = false.
Proof.
  unfold has_required_columns, has_column, df_empty.
  destruct (columns df); [discriminate|].
  destruct (rows df); [congruence | reflexivity].
Qed.

(** C1 (as the code has it). For the single bar
    {open=11, high=10, low=12, close=11}, whatever its instant and volume, the
    validator with the relational check enabled returns an invalid report
    whose error lines start with the five relational lines, one per violated
    relation and each with count 1, the first being the High < Low line; no
    later line is a relational one. The bar is a literal: its instant has no
    zone. *)
Theorem validate_scenario_bar_relational
    (cfg : Config) (utcnow ts : Z) (vol : float64) (cols : list string)
    (volumes : dtype) :
  let df := mkDataFrame cols [mkBar ts (Num 11) (Num 10) (Num 12) (Num 11) vol]
                        false volumes in
  VALIDATE_OHLC_RELATIONSHIPS cfg = true ->
  has_required_columns df = true ->
  exists report,
    _validate_ohlc_data cfg utcnow df = Ok report
    /\ DataValidationReport.is_valid report = false
    /\ exists rest,
         DataValidationReport.errors report = relational_lines_of_scenario ++ rest
         /\ existsb is_relational rest = false.
Proof.
  intros df Hflag Hcols.
  rewrite validate_unfold;
    [| apply required_columns_not_empty; [assumption | discriminate] | assumption].
  unfold freshness_raises. simpl tz_aware. rewrite andb_false_r.
  eexists. split; [reflexivity|].
  rewrite Hflag.
  destruct (add_statistics_fields df
              (later_checks cfg utcnow df
                 (when true (check_relationships df) DataValidationReport.init)))
    as (-> & -> & _).
  destruct (appends_other_later cfg utcnow df
              (when true (check_relationships df) DataValidationReport.init))
    as (rest & E & N & V).
  split.
  - apply V. reflexivity.
  - exists rest. split; [exact E | exact N].
Qed.

Lemma validate_scenario_bar_relational_witness :
  VALIDATE_OHLC_RELATIONSHIPS sample_config = true
  /\ has_required_columns scenario_frame = true
  /\ exists report,
       _validate_ohlc_data sample_config 0 scenario_frame = Ok report
       /\ DataValidationReport.is_valid report = false
       /\ exists rest,
            DataValidationReport.errors report
            = relational_lines_of_scenario ++ rest
            /\ existsb is_relational rest = false.
Proof.
  split; [reflexivity|]. split; [reflexivity|].
  apply (validate_scenario_bar_relational sample_config 0 0 (Num 100)
           required_cols Int64);
    reflexivity.
Defined.

(** C1 as stated fails: on the scenario bar, with only the relational check
    enabled, the report has the five relational lines; it does not consist of
    the single High < Low line. *)
Lemma validate_scenario_bar_not_single_error :
  exists report,
    _validate_ohlc_data sample_config 0 scenario_frame = Ok report
    /\ DataValidationReport.errors report = relational_lines_of_scenario
    /\ ~ (DataValidationReport.is_valid report = false
          /\ DataValidationReport.errors report = [MsgHighLtLow 1]).
Proof.
  eexists. split; [reflexivity|]. split; [reflexivity|].
  intros [_ H]. vm_compute in H. discriminate H.
Qed.

(** C3 (as the code has it). The validator returns a report for every frame
    but one that has rows and every required column, carries a zone on its
    instants and meets the freshness check enabled: for that one it raises
    TypeError. For every frame that has at least one row and every required
    column, the report it returns carries the statistics: the row count, the
    minimum and maximum of open and close, and the total volume (of an int64
    column the 64-bit sum, which wraps around); whether the report is valid
    plays no part. For every frame without rows or columns, and for every
    frame that lacks a required column, the report is invalid with the one
    structural line and has no statistics. *)
Theorem validate_stats_populated (cfg : Config) (utcnow : Z) (df : DataFrame) :
  let result := _validate_ohlc_data cfg utcnow df in
  let structure_ok := negb (df_empty df) && has_required_columns df in
  (result = Raise TypeError
   <-> structure_ok = true /\ VALIDATE_DATA_FRESHNESS cfg = true
       /\ tz_aware df = true)
  /\ (forall e, result = Raise e -> e = TypeError)
  /\ (forall report,
        result = Ok report ->
        structure_ok = true ->
        DataValidationReport.stats report !! "row_count"%string
          = Some (StatInt (Z.of_nat (length (rows df))))
        /\ (exists d : gmap string float64,
              DataValidationReport.stats report !! "price_range"%string
                = Some (StatDict d)
              /\ d !! "open_min"%string
                 = Some (series_min (List.map open (rows df)))
              /\ d !! "open_max"%string
                 = Some (series_max (List.map open (rows df)))
              /\ d !! "close_min"%string
                 = Some (series_min (List.map close (rows df)))
              /\ d !! "close_max"%string
                 = Some (series_max (List.map close (rows df))))
        /\ DataValidationReport.stats report !! "volume_total"%string
           = Some (match volume_dtype df with
                   | Int64 => StatInt (int64_sum (List.map volume (rows df)))
                   | Float64 =>
                       StatFloat (series_sum (List.map volume (rows df)))
                   end))
  /\ (df_empty df = true ->
      result = Ok (DataValidationReport.mk false [MsgEmpty] [] ∅))
  /\ (df_empty df = false ->
      has_required_columns df = false ->
      result
      = Ok (DataValidationReport.mk false
              [MsgMissingColumns
                 (List.filter (fun col => negb (has_column df col))
                              required_cols)] [] ∅)).
Proof.
  intros result structure_ok. subst result structure_ok.
  destruct (validate_structural cfg utcnow df) as (Hempty & Hmissing).
  assert (Hraise : forall e, _validate_ohlc_data cfg utcnow df = Raise e ->
                     e = TypeError
                     /\ negb (df_empty df) && has_required_columns df = true
                     /\ VALIDATE_DATA_FRESHNESS cfg = true
                     /\ tz_aware df = true).
  { intros e.
    destruct (df_empty df) eqn:He; [rewrite (Hempty eq_refl); discriminate|].
    destruct (has_required_columns df) eqn:Hc;
      [| rewrite (Hmissing eq_refl eq_refl); discriminate].
    rewrite (validate_unfold cfg utcnow df He Hc). unfold freshness_raises.
    destruct (VALIDATE_DATA_FRESHNESS cfg); simpl; [| discriminate].
    destruct (tz_aware df); [| discriminate].
    intros [= <-]. repeat split. }
  split; [| split; [| split; [| split]]].
  - split.
    + intros H. apply Hraise in H. tauto.
    + intros (Hs & Hf & Hz). apply andb_true_iff in Hs. destruct Hs as [He Hc].
      apply negb_true_iff in He.
      rewrite (validate_unfold cfg utcnow df He Hc). unfold freshness_raises.
      rewrite Hf, Hz. reflexivity.
  - intros e H. apply Hraise in H. tauto.
  - intros report Hok Hs. apply andb_true_iff in Hs. destruct Hs as [He Hc].
    apply negb_true_iff in He.
    destruct (validate_returns cfg utcnow df report He Hc Hok) as (_ & ->).
    unfold add_statistics, DataValidationReport.add_stat, volume_total. simpl.
    split; [| split].
    + rewrite !lookup_insert_ne by discriminate. apply lookup_insert_eq.
    + eexists. split.
      * rewrite lookup_insert_ne by discriminate. apply lookup_insert_eq.
      * repeat split;
          rewrite ?lookup_insert_ne by discriminate; apply lookup_insert_eq.
    + apply lookup_insert_eq.
  - exact Hempty.
  - exact Hmissing.
Qed.

Lemma validate_stats_populated_witness :
  exists report,
    _validate_ohlc_data sample_config 0 scenario_frame = Ok report
    /\ DataValidationReport.is_valid report = false
    /\ DataValidationReport.stats report !! "row_count"%string
       = Some (StatInt 1)
    /\ DataValidationReport.stats report !! "volume_total"%string
       = Some (StatInt 100).
Proof.
  eexists. split; [reflexivity|]. split; [reflexivity|].
  destruct (validate_stats_populated sample_config 0 scenario_frame)
    as (_ & _ & Hstats & _).
  destruct (Hstats _ eq_refl eq_refl) as (Hrows & _ & Hvolume).
  split; [exact Hrows | exact Hvolume].
Defined.

(** C3 as stated fails: for a frame without rows, and for one without the
    volume column, the report is returned at the structural check and its
    statistics are empty. *)
Lemma validate_structural_error_no_stats :
  (exists report,
     _validate_ohlc_data sample_config 0 frame_without_rows = Ok report
     /\ DataValidationReport.stats report !! "row_count"%string = None)
  /\ (exists report,
        _validate_ohlc_data sample_config 0 frame_without_volume = Ok report
        /\ DataValidationReport.stats report !! "row_count"%string = None).
Proof.
  split; eexists; (split; [reflexivity|]); vm_compute; reflexivity.
Qed.

(** The 64-bit sum of two whole volumes of 2^62 is negative. *)
Lemma int64_sum_wraps :
  int64_sum [Num (inject_Z (2 ^ 62)); Num (inject_Z (2 ^ 62))] = - 2 ^ 63.
Proof. reflexivity. Qed.

(** ** The circuit breaker *)

Module CircuitBreakerFacts.

Import CircuitBreaker.

(** C2 as stated fails: [can_attempt] on an open breaker whose reset
    interval has elapsed closes it and clears the failure count. *)
Lemma can_attempt_mutates :
  can_attempt 70 open_breaker = (true, mk 3 60 0 (Some 10%Q) false)
  /\ snd (can_attempt 70 open_breaker) <> open_breaker.
Proof. split; [reflexivity | vm_compute; discriminate]. Qed.

Lemma can_attempt_cases (now : Q) (b : t) :
  can_attempt now b
  = if probe_due now b then (true, probe_granted b) else (negb (is_open b), b).
Proof.
  unfold can_attempt, probe_due, probe_granted.
  destruct (is_open b); simpl; [| reflexivity].
  destruct (last_failure_time b) as [last|]; [| reflexivity].
  destruct (truthy last); simpl; [| reflexivity].
  destruct (Qleb _ _); reflexivity.
Qed.

(** C2 (as the code has it). [can_attempt] never changes the threshold, the
    reset interval or the instant of last failure. It leaves the whole
    breaker as it is, except when the breaker is open and the reset interval
    has elapsed since a last failure: then it answers true, sets the failure
    count to 0 and closes the breaker. Of the other two methods,
    [record_success] keeps the instant of last failure too; only
    [record_failure] writes it. *)
Theorem can_attempt_frame (now : Q) (b : t) :
  can_attempt now b
  = (if probe_due now b then (true, probe_granted b) else (negb (is_open b), b))
  /\ threshold (snd (can_attempt now b)) = threshold b
  /\ reset_interval (snd (can_attempt now b)) = reset_interval b
  /\ last_failure_time (snd (can_attempt now b)) = last_failure_time b
  /\ last_failure_time (record_success b) = last_failure_time b
  /\ last_failure_time (record_failure now b) = Some now.
Proof.
  rewrite can_attempt_cases.
  destruct (probe_due now b); simpl; repeat split; reflexivity.
Qed.

(** A granted probe clears the count: one failure after it leaves the
    breaker closed, although no [record_success] came in between. *)
Lemma failure_after_probe_stays_closed :
  let b1 := snd (can_attempt 70 open_breaker) in
  let b2 := record_failure 71 b1 in
  failure_count b2 = 1 /\ is_open b2 = false
  /\ fst (can_attempt 72 b2) = true.
Proof. cbv zeta. repeat split. Qed.

(** *** Consecutive failures *)

Lemma record_failures_fields (times : list Q) (b : t) :
  threshold (record_failures times b) = threshold b
  /\ reset_interval (record_failures times b) = reset_interval b
  /\ failure_count (record_failures times b)
     = failure_count b + Z.of_nat (length times).
Proof.
  revert b. induction times as [|now times IH]; intros b.
  - simpl. repeat split. lia.
  - cbn [record_failures fold_left]. fold (record_failures times (record_failure now b)).
    destruct (IH (record_failure now b)) as (-> & -> & ->).
    simpl. repeat split. lia.
Qed.

Lemma record_failures_snoc (times : list Q) (last : Q) (b : t) :
  record_failures (times ++ [last]) b
  = record_failure last (record_failures times b).
Proof.
  unfold record_failures. rewrite fold_left_app. reflexivity.
Qed.

(** Once the count has reached the threshold the breaker is open and
    remembers the instant of the last failure. *)
Lemma record_failures_open (times : list Q) (last : Q) (b : t) :
  0 <= failure_count b ->
  threshold b <= Z.of_nat (length (times ++ [last])) ->
  is_open (record_failures (times ++ [last]) b) = true
  /\ last_failure_time (record_failures (times ++ [last]) b) = Some last.
Proof.
  intros Hcount Hlen. rewrite record_failures_snoc.
  destruct (record_failures_fields times b) as (Ht & _ & Hc).
  unfold record_failure. simpl. rewrite Ht, Hc.
  rewrite length_app in Hlen. simpl in Hlen.
  split; [| reflexivity].
  destruct (Z.leb_spec (threshold b) (failure_count b + Z.of_nat (length times) + 1));
    [reflexivity | lia].
Qed.

(** An open breaker refuses while the reset interval has not elapsed, and
    stays as it is. *)
Lemma can_attempt_blocked (now last : Q) (b : t) :
  is_open b = true ->
  last_failure_time b = Some last ->
  (now - last < reset_interval b)%Q ->
  can_attempt now b = (false, b).
Proof.
  intros Ho Hl Hlt. unfold can_attempt. rewrite Ho, Hl. simpl.
  destruct (truthy last); [| reflexivity].
  apply Qleb_gt in Hlt. rewrite Hlt. reflexivity.
Qed.

Lemma can_attempts_blocked (checks : list Q) (last : Q) (b : t) :
  is_open b = true ->
  last_failure_time b = Some last ->
  Forall (fun now => (now - last < reset_interval b)%Q) checks ->
  can_attempts checks b = (repeat false (length checks), b).
Proof.
  intros Ho Hl. induction 1 as [|now checks Hnow _ IH]; [reflexivity|].
  cbn [can_attempts]. rewrite (can_attempt_blocked now last b Ho Hl Hnow), IH.
  reflexivity.
Qed.

End CircuitBreakerFacts.

(** ** The validity cache *)

Section CacheFacts.

Variable cfg : Config.

Lemma is_cache_valid_fresh (now : Q) (self : Fetcher) (entry : CacheEntry.t) :
  cache self = Some entry ->
  (now - CacheEntry.creation_time entry < YFINANCE_CACHE_TTL cfg)%Q ->
  _is_cache_valid cfg now self = (true, self).
Proof.
  intros Hc Hage. unfold _is_cache_valid. rewrite Hc.
  apply Qltb_lt in Hage. rewrite Hage. reflexivity.
Qed.

Lemma is_cache_valid_expired (now : Q) (self : Fetcher) (entry : CacheEntry.t) :
  cache self = Some entry ->
  (YFINANCE_CACHE_TTL cfg <= now - CacheEntry.creation_time entry)%Q ->
  _is_cache_valid cfg now self
  = (false,
     set_cache_stats
       (CacheStatistics.incr_invalidations (cache_stats self)) self).
Proof.
  intros Hc Hage. unfold _is_cache_valid. rewrite Hc.
  apply Qltb_ge in Hage. rewrite Hage. reflexivity.
Qed.

Lemma is_cache_valid_cache (now : Q) (self : Fetcher) :
  cache (snd (_is_cache_valid cfg now self)) = cache self.
Proof.
  unfold _is_cache_valid. destruct (cache self) as [entry|] eqn:Hc;
    [destruct (Qltb _ _) |]; exact Hc.
Qed.

Lemma is_cache_valid_true (now : Q) (self : Fetcher) :
  fst (_is_cache_valid cfg now self) = true ->
  snd (_is_cache_valid cfg now self) = self
  /\ exists entry,
       cache self = Some entry
       /\ (now - CacheEntry.creation_time entry < YFINANCE_CACHE_TTL cfg)%Q.
Proof.
  unfold _is_cache_valid. destruct (cache self) as [entry|]; [| discriminate].
  destruct (Qltb _ _) eqn:E; simpl; [| discriminate].
  intros _. split; [reflexivity|]. exists entry. split; [reflexivity|].
  apply Qltb_lt, E.
Qed.

Lemma is_cache_valid_counts (now : Q) (self : Fetcher) :
  CacheStatistics.hits (cache_stats (snd (_is_cache_valid cfg now self)))
    = CacheStatistics.hits (cache_stats self)
  /\ CacheStatistics.misses (cache_stats (snd (_is_cache_valid cfg now self)))
     = CacheStatistics.misses (cache_stats self).
Proof.
  unfold _is_cache_valid. destruct (cache self) as [entry|]; [| split; reflexivity].
  destruct (Qltb _ _); split; reflexivity.
Qed.

Lemma should_use_cache_answer (now : Q) (self : Fetcher) :
  fst (_should_use_cache cfg now self) = should_hit cfg now self.
Proof.
  unfold _should_use_cache, should_hit, _is_cache_valid.
  destruct (YFINANCE_CACHE_ENABLED cfg); simpl; [| reflexivity].
  destruct (cache self) as [entry|] eqn:Hc; simpl; [| reflexivity].
  destruct (Qltb _ _); simpl; [| reflexivity].
  rewrite Hc.
  destruct (YFINANCE_CACHE_VALIDATION cfg),
           (CacheEntry.validation_passed entry); reflexivity.
Qed.

Lemma should_use_cache_hit (now : Q) (self : Fetcher) :
  should_hit cfg now self = true ->
  _should_use_cache cfg now self = (true, count_hit self).
Proof.
  unfold _should_use_cache, should_hit, _is_cache_valid.
  destruct (YFINANCE_CACHE_ENABLED cfg); simpl; [| discriminate].
  destruct (cache self) as [entry|] eqn:Hc; simpl; [| discriminate].
  destruct (Qltb _ _); simpl; [| discriminate].
  rewrite Hc.
  destruct (YFINANCE_CACHE_VALIDATION cfg),
           (CacheEntry.validation_passed entry); simpl;
    first [discriminate | reflexivity].
Qed.

Lemma should_use_cache_miss (now : Q) (self : Fetcher) :
  should_hit cfg now self = false ->
  fst (_should_use_cache cfg now self) = false
  /\ cache (snd (_should_use_cache cfg now self)) = cache self
  /\ CacheStatistics.hits (cache_stats (snd (_should_use_cache cfg now self)))
     = CacheStatistics.hits (cache_stats self)
  /\ CacheStatistics.misses (cache_stats (snd (_should_use_cache cfg now self)))
     = CacheStatistics.misses (cache_stats self) + 1.
Proof.
  unfold _should_use_cache, should_hit, _is_cache_valid.
  destruct (YFINANCE_CACHE_ENABLED cfg); simpl; [| auto].
  destruct (cache self) as [entry|] eqn:Hc; simpl; [| auto].
  destruct (Qltb _ _); simpl; [| auto].
  rewrite Hc.
  destruct (YFINANCE_CACHE_VALIDATION cfg),
           (CacheEntry.validation_passed entry); simpl;
    first [discriminate | auto].
Qed.

Lemma should_hit_usable (now : Q) (self : Fetcher) :
  should_hit cfg now self = true
  <-> YFINANCE_CACHE_ENABLED cfg = true
      /\ exists entry, cache self = Some entry /\ usable cfg now entry.
Proof.
  unfold should_hit, usable. rewrite andb_true_iff.
  destruct (cache self) as [entry|].
  - rewrite andb_true_iff, orb_true_iff, negb_true_iff, Qltb_lt.
    split.
    + intros (He & Ha & Hv). split; [exact He|]. exists entry. auto.
    + intros (He & e & [= <-] & Ha & Hv). auto.
  - split; [intros [_ H]; discriminate H | intros (_ & e & H & _); discriminate H].
Qed.

End CacheFacts.

(** [_should_use_cache] answers true exactly when caching is enabled and
    there is an entry whose monotonic age is below the TTL and which passed
    validation unless the policy does not ask for it. On a hit the hits
    counter and the hit count of the entry grow by one and the misses stay;
    on every other path the misses grow by one, the hits stay and the entry
    is not touched. *)
Lemma should_use_cache_counts (cfg : Config) (now : Q) (self : Fetcher) :
  let hit := fst (_should_use_cache cfg now self) in
  let self' := snd (_should_use_cache cfg now self) in
  (hit = true
   <-> YFINANCE_CACHE_ENABLED cfg = true
       /\ exists entry,
            cache self = Some entry
            /\ (now - CacheEntry.creation_time entry < YFINANCE_CACHE_TTL cfg)%Q
            /\ (YFINANCE_CACHE_VALIDATION cfg = false
                \/ CacheEntry.validation_passed entry = true))
  /\ (hit = true ->
      CacheStatistics.hits (cache_stats self')
        = CacheStatistics.hits (cache_stats self) + 1
      /\ CacheStatistics.misses (cache_stats self')
         = CacheStatistics.misses (cache_stats self)
      /\ exists entry,
           cache self = Some entry
           /\ cache self'
              = Some (CacheEntry.set_hit_count (CacheEntry.hit_count entry + 1)
                                               entry))
  /\ (hit = false ->
      CacheStatistics.misses (cache_stats self')
        = CacheStatistics.misses (cache_stats self) + 1
      /\ CacheStatistics.hits (cache_stats self')
         = CacheStatistics.hits (cache_stats self)
      /\ cache self' = cache self).
Proof.
  intros hit self'. subst hit self'.
  rewrite should_use_cache_answer.
  split; [apply should_hit_usable | split].
  - intros Hhit. rewrite (should_use_cache_hit cfg now self Hhit). simpl.
    apply should_hit_usable in Hhit. destruct Hhit as (_ & entry & Hc & _).
    unfold count_hit. simpl. rewrite Hc. simpl.
    repeat split. exists entry. split; reflexivity.
  - intros Hmiss.
    destruct (should_use_cache_miss cfg now self Hmiss) as (_ & Hc & Hh & Hm).
    auto.
Qed.

Section ExpiredChecks.

Variable cfg : Config.

Lemma after_calls_cons {A} (method : Q -> Fetcher -> A * Fetcher)
    (now : Q) (times : list Q) (self : Fetcher) :
  after_calls method (now :: times) self
  = after_calls method times (snd (method now self)).
Proof. reflexivity. Qed.

Lemma should_use_cache_expired (now : Q) (self : Fetcher) (entry : CacheEntry.t) :
  YFINANCE_CACHE_ENABLED cfg = true ->
  cache self = Some entry ->
  (YFINANCE_CACHE_TTL cfg <= now - CacheEntry.creation_time entry)%Q ->
  _should_use_cache cfg now self
  = (false,
     count_miss
       (set_cache_stats
          (CacheStatistics.incr_invalidations (cache_stats self)) self)).
Proof.
  intros He Hc Hage. unfold _should_use_cache.
  rewrite He, (is_cache_valid_expired cfg now self entry Hc Hage).
  reflexivity.
Qed.

Lemma after_expired_is_valid (times : list Q) (entry : CacheEntry.t) :
  Forall (fun now =>
            (YFINANCE_CACHE_TTL cfg <= now - CacheEntry.creation_time entry)%Q)
         times ->
  forall self, cache self = Some entry ->
  cache (after_calls (_is_cache_valid cfg) times self) = Some entry
  /\ CacheStatistics.invalidations
       (cache_stats (after_calls (_is_cache_valid cfg) times self))
     = CacheStatistics.invalidations (cache_stats self)
       + Z.of_nat (length times).
Proof.
  induction 1 as [|now times Hnow _ IH]; intros self Hc.
  - simpl. split; [exact Hc | lia].
  - rewrite after_calls_cons,
      (is_cache_valid_expired cfg now self entry Hc Hnow).
    cbn [snd].
    destruct (IH (set_cache_stats
                    (CacheStatistics.incr_invalidations (cache_stats self)) self))
      as (-> & ->); [exact Hc|].
    split; [reflexivity|]. cbn [length]. simpl. lia.
Qed.

Lemma after_expired_should_use (times : list Q) (entry : CacheEntry.t) :
  YFINANCE_CACHE_ENABLED cfg = true ->
  Forall (fun now =>
            (YFINANCE_CACHE_TTL cfg <= now - CacheEntry.creation_time entry)%Q)
         times ->
  forall self, cache self = Some entry ->
  let self' := after_calls (_should_use_cache cfg) times self in
  cache self' = Some entry
  /\ CacheStatistics.invalidations (cache_stats self')
     = CacheStatistics.invalidations (cache_stats self) + Z.of_nat (length times)
  /\ CacheStatistics.misses (cache_stats self')
     = CacheStatistics.misses (cache_stats self) + Z.of_nat (length times)
  /\ CacheStatistics.hits (cache_stats self')
     = CacheStatistics.hits (cache_stats self).
Proof.
  intros He. induction 1 as [|now times Hnow _ IH]; intros self Hc.
  - simpl. repeat split; first [exact Hc | lia].
  - rewrite after_calls_cons,
      (should_use_cache_expired now self entry He Hc Hnow).
    cbn [snd].
    destruct (IH (count_miss
                    (set_cache_stats
                       (CacheStatistics.incr_invalidations (cache_stats self))
                       self)))
      as (-> & -> & -> & ->); [exact Hc|].
    cbn [length]. simpl. repeat split; lia.
Qed.

End ExpiredChecks.

(** C9. Every check of an entry whose TTL has expired counts: a run of
    [_is_cache_valid] calls at instants past the expiry adds one invalidation
    per call, the entry staying in place; the same run of [_should_use_cache]
    calls (caching enabled) adds one invalidation and one miss per call. *)
Theorem expired_checks_each_count
    (cfg : Config) (self : Fetcher) (entry : CacheEntry.t) (times : list Q) :
  cache self = Some entry ->
  Forall (fun now =>
            (YFINANCE_CACHE_TTL cfg <= now - CacheEntry.creation_time entry)%Q)
         times ->
  (Forall (fun now => fst (_is_cache_valid cfg now self) = false) times
   /\ cache (after_calls (_is_cache_valid cfg) times self) = Some entry
   /\ CacheStatistics.invalidations
        (cache_stats (after_calls (_is_cache_valid cfg) times self))
      = CacheStatistics.invalidations (cache_stats self) + Z.of_nat (length times))
  /\ (YFINANCE_CACHE_ENABLED cfg = true ->
      CacheStatistics.invalidations
        (cache_stats (after_calls (_should_use_cache cfg) times self))
      = CacheStatistics.invalidations (cache_stats self) + Z.of_nat (length times)
      /\ CacheStatistics.misses
           (cache_stats (after_calls (_should_use_cache cfg) times self))
         = CacheStatistics.misses (cache_stats self) + Z.of_nat (length times)
      /\ CacheStatistics.hits
           (cache_stats (after_calls (_should_use_cache cfg) times self))
         = CacheStatistics.hits (cache_stats self)).
Proof.
  intros Hc Hexp. split; [split|].
  - eapply Forall_impl; [exact Hexp|]. intros now Hnow. simpl in Hnow.
    rewrite (is_cache_valid_expired cfg now self entry Hc Hnow). reflexivity.
  - apply (after_expired_is_valid cfg times entry Hexp self Hc).
  - intros He.
    destruct (after_expired_should_use cfg times entry He Hexp self Hc)
      as (_ & Hi & Hm & Hh).
    auto.
Qed.

Lemma expired_checks_each_count_witness :
  CacheStatistics.invalidations
    (cache_stats (after_calls (_is_cache_valid sample_config) [51; 52; 60]%Q
                              fetcher_with_entry)) = 3
  /\ CacheStatistics.misses
       (cache_stats (after_calls (_should_use_cache sample_config) [51; 52; 60]%Q
                                 fetcher_with_entry)) = 3.
Proof.
  destruct (expired_checks_each_count sample_config fetcher_with_entry
              cached_entry [51; 52; 60]%Q) as ((_ & _ & Hi) & Hm).
  - reflexivity.
  - repeat constructor; vm_compute; discriminate.
  - split; [exact Hi|]. apply Hm. reflexivity.
Defined.

(** ** The backoff policy *)

Section BackoffFacts.

Variable cfg : Config.

Lemma two_power_mono (n m : Z) : n <= m -> (2 ^ (n - 1) <= 2 ^ (m - 1))%Q.
Proof.
  intros Hnm. apply Qpower_le_compat_l; [lia | discriminate].
Qed.

Lemma scaled_power_mono (base : Q) (n m : Z) :
  (0 <= base)%Q -> n <= m ->
  (base * 2 ^ (n - 1) <= base * 2 ^ (m - 1))%Q.
Proof.
  intros Hb Hnm. rewrite !(Qmult_comm base).
  apply Qmult_le_compat_r; [apply two_power_mono, Hnm | exact Hb].
Qed.

(** Without jitter the delay is the capped exponential, for both classes
    of failure. *)
Lemma backoff_without_jitter (j : Q) (attempt : Z) (is_rate_limit : bool) :
  YFINANCE_RETRY_JITTER_ENABLED cfg = false ->
  _calculate_backoff_delay cfg j attempt is_rate_limit
  = if is_rate_limit
    then Qmin (YFINANCE_RATE_LIMIT_BACKOFF cfg * 2 ^ (attempt - 1))
              (YFINANCE_RATE_LIMIT_MAX_BACKOFF cfg)
    else Qmin (YFINANCE_RETRY_DELAY cfg * 2 ^ (attempt - 1))
              (YFINANCE_RETRY_MAX_DELAY cfg).
Proof.
  intros Hj. unfold _calculate_backoff_delay. rewrite Hj.
  destruct is_rate_limit; reflexivity.
Qed.

(** The delay is never negative when the configured delays are not and the
    jitter is drawn from [0, 1]. *)
Lemma backoff_nonnegative (j : Q) (attempt : Z) (is_rate_limit : bool) :
  (0 <= YFINANCE_RETRY_DELAY cfg)%Q ->
  (0 <= YFINANCE_RETRY_MAX_DELAY cfg)%Q ->
  (0 <= YFINANCE_RATE_LIMIT_BACKOFF cfg)%Q ->
  (0 <= YFINANCE_RATE_LIMIT_MAX_BACKOFF cfg)%Q ->
  (0 <= j)%Q ->
  (0 <= _calculate_backoff_delay cfg j attempt is_rate_limit)%Q.
Proof.
  intros Hd Hm Hr Hrm Hj. unfold _calculate_backoff_delay.
  assert (Hp : (0 <= 2 ^ (attempt - 1))%Q)
    by (apply Qlt_le_weak, Qpower_0_lt; reflexivity).
  assert (Hmin : (0 <= Qmin
                        (if is_rate_limit
                         then YFINANCE_RATE_LIMIT_BACKOFF cfg * 2 ^ (attempt - 1)
                         else YFINANCE_RETRY_DELAY cfg * 2 ^ (attempt - 1))
                        (if is_rate_limit
                         then YFINANCE_RATE_LIMIT_MAX_BACKOFF cfg
                         else YFINANCE_RETRY_MAX_DELAY cfg))%Q).
  { apply Q.min_glb; destruct is_rate_limit;
      first [assumption | apply Qmult_le_0_compat; assumption]. }
  destruct (YFINANCE_RETRY_JITTER_ENABLED cfg); [| exact Hmin].
  replace 0%Q with (0 + 0)%Q by reflexivity.
  apply Qplus_le_compat; assumption.
Qed.

End BackoffFacts.

(** C5. With jitter disabled the delay of an ordinary retry is
    min(baseDelay * 2^(attempt-1), maxDelay) for every attempt; it does not
    decrease as the attempt grows (the base delay being a duration, hence not
    negative); it is maxDelay as soon as baseDelay * 2^(attempt-1) reaches
    maxDelay; with baseDelay = 2 and maxDelay = 8 the attempts 1, 2, 3 wait
    2, 4, 8. *)
Theorem backoff_delay_no_jitter (cfg : Config) (j : Q) :
  YFINANCE_RETRY_JITTER_ENABLED cfg = false ->
  (0 <= YFINANCE_RETRY_DELAY cfg)%Q ->
  let delay := fun attempt => _calculate_backoff_delay cfg j attempt false in
  (forall attempt,
     delay attempt
     = Qmin (YFINANCE_RETRY_DELAY cfg * 2 ^ (attempt - 1))
            (YFINANCE_RETRY_MAX_DELAY cfg))
  /\ (forall a1 a2, a1 <= a2 -> (delay a1 <= delay a2)%Q)
  /\ (forall attempt,
        (YFINANCE_RETRY_MAX_DELAY cfg
         <= YFINANCE_RETRY_DELAY cfg * 2 ^ (attempt - 1))%Q ->
        (delay attempt == YFINANCE_RETRY_MAX_DELAY cfg)%Q)
  /\ (YFINANCE_RETRY_DELAY cfg = 2%Q -> YFINANCE_RETRY_MAX_DELAY cfg = 8%Q ->
      delay 1 = 2%Q /\ delay 2 = 4%Q /\ delay 3 = 8%Q).
Proof.
  intros Hj Hbase delay. subst delay. cbv beta.
  split; [| split; [| split]].
  - intros attempt. apply (backoff_without_jitter cfg j attempt false Hj).
  - intros a1 a2 Hle.
    rewrite !(backoff_without_jitter cfg j _ false Hj).
    apply Q.min_le_compat_r, scaled_power_mono; assumption.
  - intros attempt Hcap.
    rewrite (backoff_without_jitter cfg j _ false Hj).
    apply Q.min_r, Hcap.
  - intros Hd Hm.
    rewrite !(backoff_without_jitter cfg j _ false Hj), Hd, Hm.
    repeat split; reflexivity.
Qed.

Lemma backoff_delay_no_jitter_witness :
  _calculate_backoff_delay sample_config 0 1 false = 2%Q
  /\ _calculate_backoff_delay sample_config 0 2 false = 4%Q
  /\ _calculate_backoff_delay sample_config 0 3 false = 8%Q
  /\ (_calculate_backoff_delay sample_config 0 4 false == 8)%Q.
Proof.
  destruct (backoff_delay_no_jitter sample_config 0) as (_ & _ & Hcap & Hvalues);
    [reflexivity | discriminate |].
  destruct Hvalues as (H1 & H2 & H3); [reflexivity | reflexivity |].
  split; [exact H1 | split; [exact H2 | split; [exact H3 |]]].
  apply Hcap. vm_compute. discriminate.
Defined.

(** ** Reasoning about the method bodies *)

Lemma quiet_ret {A} (a : A) : quiet (ret a).
Proof. intros self w. repeat split. Qed.

Lemma quiet_raise {A} (e : exn) : quiet (@raise A e).
Proof. intros self w. repeat split. Qed.

Lemma quiet_bind {A B} (m : M A) (k : A -> M B) :
  quiet m -> (forall a, quiet (k a)) -> quiet (bind m k).
Proof.
  intros Hm Hk self w. unfold bind.
  destruct (Hm self w) as (H1 & H2 & H3).
  destruct (m self w) as [[[a|e] self1] w1]; unfold world_of, self_of in *;
    simpl in *.
  - destruct (Hk a self1 w1) as (K1 & K2 & K3).
    unfold world_of, self_of in *. repeat split; congruence.
  - auto.
Qed.

Lemma quiet_try_except {A} (body : M A) (handler : exn -> M A) :
  quiet body -> (forall e, quiet (handler e)) -> quiet (try_except body handler).
Proof.
  intros Hm Hk self w. unfold try_except.
  destruct (Hm self w) as (H1 & H2 & H3).
  destruct (body self w) as [[[a|e] self1] w1]; unfold world_of, self_of in *;
    simpl in *.
  - auto.
  - destruct (Hk e self1 w1) as (K1 & K2 & K3).
    unfold world_of, self_of in *. repeat split; congruence.
Qed.

Lemma quiet_if {A} (b : bool) (m1 m2 : M A) :
  quiet m1 -> quiet m2 -> quiet (if b then m1 else m2).
Proof. destruct b; auto. Qed.

Lemma quiet_monotonic : quiet monotonic.
Proof. intros self w. repeat split. Qed.

Lemma quiet_get_self : quiet get_self.
Proof. intros self w. repeat split. Qed.

Lemma quiet_sleep (d : Q) : quiet (sleep d).
Proof. unfold sleep. destruct (Qltb d 0); intros self w; repeat split. Qed.

Lemma quiet_modify_self (f : Fetcher -> Fetcher) :
  (forall self, cache (f self) = cache self) -> quiet (modify_self f).
Proof. intros Hf self w. repeat split. apply Hf. Qed.

Lemma quiet_timed {A} (method : Q -> Fetcher -> A * Fetcher) :
  (forall now self, cache (snd (method now self)) = cache self) ->
  quiet (timed method).
Proof.
  intros Hf self w. unfold timed. specialize (Hf (clock w) self).
  destruct (method (clock w) self) as [a self1]. repeat split. exact Hf.
Qed.

Lemma safe_ret {A} (a : A) : safe (ret a).
Proof. intros self w. exists a. reflexivity. Qed.

Lemma safe_bind {A B} (m : M A) (k : A -> M B) :
  safe m -> (forall a, safe (k a)) -> safe (bind m k).
Proof.
  intros Hm Hk self w. unfold bind.
  destruct (Hm self w) as (a & Ha).
  destruct (m self w) as [[r self1] w1]. unfold outcome_of in Ha.
  simpl in Ha. subst r. apply Hk.
Qed.

Lemma safe_if {A} (b : bool) (m1 m2 : M A) :
  safe m1 -> safe m2 -> safe (if b then m1 else m2).
Proof. destruct b; auto. Qed.

Lemma safe_monotonic : safe monotonic.
Proof. intros self w. eexists. reflexivity. Qed.

Lemma safe_get_self : safe get_self.
Proof. intros self w. eexists. reflexivity. Qed.

Lemma safe_modify_self (f : Fetcher -> Fetcher) : safe (modify_self f).
Proof. intros self w. eexists. reflexivity. Qed.

Lemma safe_timed {A} (method : Q -> Fetcher -> A * Fetcher) : safe (timed method).
Proof.
  intros self w. unfold timed. destruct (method (clock w) self). eexists. reflexivity.
Qed.

Lemma safe_alloc (df : DataFrame) : safe (alloc df).
Proof. intros self w. eexists. reflexivity. Qed.

Lemma safe_sleep (d : Q) : (0 <= d)%Q -> safe (sleep d).
Proof.
  intros Hd self w. unfold sleep. apply Qltb_ge in Hd. rewrite Hd.
  eexists. reflexivity.
Qed.

(** A handler that raises nothing makes the whole [try] safe. *)
Lemma safe_try_except {A} (body : M A) (handler : exn -> M A) :
  (forall e, safe (handler e)) -> safe (try_except body handler).
Proof.
  intros Hk self w. unfold try_except.
  destruct (body self w) as [[[a|e] self1] w1].
  - exists a. reflexivity.
  - apply Hk.
Qed.

Create HintDb quiet.
#[export] Hint Resolve quiet_ret quiet_raise quiet_monotonic quiet_get_self
  quiet_sleep : quiet.
#[export] Hint Extern 2 (quiet (bind _ _)) => apply quiet_bind; [| intros ?] : quiet.
#[export] Hint Extern 2 (quiet (if _ then _ else _)) => apply quiet_if : quiet.
#[export] Hint Extern 2 (quiet (modify_self _)) =>
  apply quiet_modify_self; intros []; reflexivity : quiet.

Create HintDb safe.
#[export] Hint Resolve safe_ret safe_monotonic safe_get_self safe_modify_self
  safe_timed safe_alloc : safe.
#[export] Hint Extern 2 (safe (bind _ _)) => apply safe_bind; [| intros ?] : safe.
#[export] Hint Extern 2 (safe (if _ then _ else _)) => apply safe_if : safe.

(** ** fetch_ohlc *)

Section FetchFacts.

Variable cfg : Config.
Variable env : Env.

Lemma quiet_breaker_record_failure : quiet breaker_record_failure.
Proof.
  unfold breaker_record_failure. apply quiet_bind; [auto with quiet|].
  intros now. apply quiet_modify_self. intros self.
  destruct (circuit_breaker self); reflexivity.
Qed.

Lemma quiet_backoff_delay (attempt : Z) (is_rate_limit : bool) :
  quiet (backoff_delay cfg env attempt is_rate_limit).
Proof.
  unfold backoff_delay.
  destruct (YFINANCE_RETRY_JITTER_ENABLED cfg); [| apply quiet_ret].
  intros self w. repeat split.
Qed.

Lemma quiet_handler (attempt : Z) (is_rate_limited : bool) (e : exn) :
  quiet (handler cfg env attempt is_rate_limited e).
Proof.
  pose proof quiet_breaker_record_failure.
  pose proof quiet_backoff_delay.
  unfold handler. auto 12 with quiet.
Qed.

(** The handler never leaves the function: it falls through to the next
    pass of the loop, or raises. *)
Lemma handler_falls_through (attempt : Z) (is_rate_limited : bool) (e : exn)
    (self : Fetcher) (w : World) :
  match outcome_of (handler cfg env attempt is_rate_limited e self w) with
  | Ok (Return _) => False
  | _ => True
  end.
Proof.
  unfold handler, bind, backoff_delay, sleep, breaker_record_failure,
    monotonic, modify_self, modify_world, ret, raise, outcome_of.
  repeat match goal with
         | |- context [if ?b then _ else _] => destruct b; simpl
         end; exact I.
Qed.

Lemma attempt_body_spec (period interval : string) (validate : bool)
    (attempt : Z) (is_rate_limited : bool) (self : Fetcher) (w : World) :
  let x := attempt_body cfg env period interval validate attempt
                        is_rate_limited self w in
  provider_calls (world_of x) = S (provider_calls w)
  /\ match outcome_of x with
     | Ok (Return (Some l, report)) =>
         stored cfg self w l report (self_of x) (world_of x)
     | _ => heap (world_of x) = heap w /\ cache (self_of x) = cache self
     end.
Proof.
  unfold attempt_body, bind, monotonic, history.
  destruct (result (provider env (provider_calls w) (instrument self)
                             period interval)) as [msg | frame];
    [split; [reflexivity | split; reflexivity] |].
  destruct (df_empty (raw frame)).
  - unfold backoff_delay, sleep, breaker_record_failure, bind,
      monotonic, modify_self, modify_world, ret, raise, outcome_of, world_of, self_of.
    repeat match goal with
           | |- context [if ?b then _ else _] => destruct b; simpl
           end; repeat split; try reflexivity.
    all: destruct (circuit_breaker self); reflexivity.
  - destruct (has_column _ "datetime" || has_column _ "date").
    + unfold select_required.
      set (df := assign_timestamp (lower_columns (reset_index frame))).
      destruct (List.filter _ required_cols) as [|col missing];
        [| split; [reflexivity | split; reflexivity]].
      unfold lift, ret. cbv beta iota.
      destruct (_validate_ohlc_data cfg _ _) as [report|e];
        [| split; [reflexivity | split; reflexivity]].
      unfold stored, update_cache, copy, alloc, get_world, bind, monotonic,
        breaker_record_success, modify_self, ret, outcome_of, world_of, self_of.
      destruct (YFINANCE_CACHE_ENABLED cfg); simpl.
      * split; [reflexivity|].
        eexists.
        split; [reflexivity|]. split; [lia|].
        rewrite list_lookup_total_middle by reflexivity.
        rewrite <- app_assoc. split; [reflexivity|].
        destruct (circuit_breaker self);
          (eexists; split; [reflexivity|]; rewrite length_app; simpl;
           split; [lia | reflexivity]).
      * split; [reflexivity|].
        eexists.
        split; [reflexivity|]. split; [lia|]. split; [reflexivity|].
        destruct (circuit_breaker self); reflexivity.
    + unfold breaker_record_failure, bind, monotonic, modify_self, ret,
        outcome_of, world_of, self_of. simpl.
      repeat split. destruct (circuit_breaker self); reflexivity.
Qed.

Lemma one_attempt_spec (period interval : string) (validate : bool)
    (attempt : Z) (is_rate_limited : bool) (self : Fetcher) (w : World) :
  let x := one_attempt cfg env period interval validate attempt is_rate_limited self w in
  provider_calls (world_of x) = S (provider_calls w)
  /\ match outcome_of x with
     | Ok (Return (Some l, report)) =>
         stored cfg self w l report (self_of x) (world_of x)
     | _ => heap (world_of x) = heap w /\ cache (self_of x) = cache self
     end.
Proof.
  unfold one_attempt, try_except.
  pose proof (attempt_body_spec period interval validate attempt
                                is_rate_limited self w) as Hbody.
  destruct (attempt_body cfg env period interval validate attempt
                         is_rate_limited self w) as [[[next|e] self1] w1];
    [exact Hbody|].
  unfold outcome_of, world_of, self_of in Hbody. simpl in Hbody.
  destruct Hbody as (Hcalls & Hheap & Hcache).
  pose proof (quiet_handler attempt is_rate_limited e self1 w1) as (Q1 & Q2 & Q3).
  pose proof (handler_falls_through attempt is_rate_limited e self1 w1) as Hfall.
  destruct (handler cfg env attempt is_rate_limited e self1 w1)
    as [[[[value|rl]|e'] self2] w2];
    unfold outcome_of, world_of, self_of in *; simpl in *;
    [contradiction | |]; repeat split; congruence.
Qed.

Lemma stored_transfer (self0 self : Fetcher) (w0 w : World) (l : loc)
    (report : DataValidationReport.t) (self' : Fetcher) (w' : World) :
  heap w = heap w0 -> cache self = cache self0 ->
  (provider_calls w0 <= provider_calls w)%nat ->
  stored cfg self w l report self' w' -> stored cfg self0 w0 l report self' w'.
Proof.
  intros Hh Hc Hp (df & Hl & Hcalls & Hrest). exists df.
  rewrite <- Hh, <- Hc. split; [exact Hl|]. split; [lia | exact Hrest].
Qed.

Lemma retry_loop_spec (period interval : string) (validate : bool)
    (remaining : nat) :
  forall (attempt : Z) (is_rate_limited : bool) (self : Fetcher) (w : World),
    let x := retry_loop cfg env period interval validate remaining attempt
                        is_rate_limited self w in
    (provider_calls w <= provider_calls (world_of x))%nat
    /\ match outcome_of x with
       | Ok (Some l, report) => stored cfg self w l report (self_of x) (world_of x)
       | _ => heap (world_of x) = heap w /\ cache (self_of x) = cache self
       end.
Proof.
  induction remaining as [|remaining IH]; intros attempt rl self w.
  - simpl. unfold outcome_of, world_of, self_of. simpl. auto.
  - cbn [retry_loop]. fold (one_attempt cfg env period interval validate attempt rl).
    unfold bind.
    pose proof (one_attempt_spec period interval validate attempt rl self w)
      as Hone.
    destruct (one_attempt cfg env period interval validate attempt rl self w)
      as [[[[value|rl']|e] self1] w1];
      unfold outcome_of, world_of, self_of in Hone; simpl in Hone;
      destruct Hone as (Hcalls & Hone).
    + unfold ret, outcome_of, world_of, self_of. simpl.
      split; [lia|]. destruct value as [[l|] report]; exact Hone.
    + destruct Hone as (Hheap & Hcache).
      specialize (IH (attempt + 1) rl' self1 w1). simpl in IH.
      destruct IH as (IHcalls & IH). split; [lia|].
      destruct (outcome_of _) as [[[l|] report]|e].
      * apply (stored_transfer self self1 w w1); [assumption | assumption | lia | exact IH].
      * destruct IH. split; congruence.
      * destruct IH. split; congruence.
    + unfold outcome_of, world_of, self_of. simpl. split; [lia | exact Hone].
Qed.

Lemma breaker_blocks_run (self : Fetcher) (w : World) :
  exists blocked self1,
    breaker_blocks self w = (Ok blocked, self1, w)
    /\ cache self1 = cache self.
Proof.
  unfold breaker_blocks, timed.
  destruct (circuit_breaker self) as [b|].
  - destruct (CircuitBreaker.can_attempt (clock w) b) as [ok b'].
    eexists _, _. split; reflexivity.
  - eexists _, _. split; reflexivity.
Qed.

Lemma count_hit_cache (self : Fetcher) (entry : CacheEntry.t) :
  cache self = Some entry ->
  cache (count_hit self)
  = Some (CacheEntry.set_hit_count (CacheEntry.hit_count entry + 1) entry).
Proof.
  intros Hc. unfold count_hit. simpl. rewrite Hc. reflexivity.
Qed.

(** The run of the cache branch. *)
Lemma read_cache_run (self : Fetcher) (w : World) (entry : CacheEntry.t) :
  cache self = Some entry ->
  read_cache self w
  = (Ok (Some (length (heap w)),
         DataValidationReport.mk (CacheEntry.validation_passed entry) [] [] ∅),
     self,
     mkWorld (clock w) (heap w ++ [heap w !!! CacheEntry.data entry])
             (provider_calls w) (jitter_draws w)).
Proof.
  intros Hc. unfold read_cache, bind, get_self. rewrite Hc.
  reflexivity.
Qed.

Lemma fetch_ohlc_spec (period interval : string) (use_cache validate : bool)
    (self : Fetcher) (w : World) :
  let x := fetch_ohlc cfg env period interval use_cache validate self w in
  (provider_calls w <= provider_calls (world_of x))%nat
  /\ match outcome_of x with
     | Ok (Some l, report) =>
         served cfg self w l report (self_of x) (world_of x)
         \/ stored cfg self w l report (self_of x) (world_of x)
     | _ => heap (world_of x) = heap w /\ cache (self_of x) = cache self
     end.
Proof.
  unfold fetch_ohlc, bind.
  destruct (breaker_blocks_run self w) as (blocked & self1 & -> & Hc1).
  destruct blocked; [simpl; auto|].
  unfold get_self, monotonic.
  destruct (Qltb (clock w) (rate_limit_until self1)); [simpl; auto|].
  assert (Hmiss : forall self2, cache self2 = cache self1 ->
            let x := retry_loop cfg env period interval validate
                       (Z.to_nat (YFINANCE_RETRY_ATTEMPTS cfg)) 1 false self2 w in
            (provider_calls w <= provider_calls (world_of x))%nat
            /\ match outcome_of x with
               | Ok (Some l, report) =>
                   served cfg self w l report (self_of x) (world_of x)
                   \/ stored cfg self w l report (self_of x) (world_of x)
               | _ => heap (world_of x) = heap w /\ cache (self_of x) = cache self
               end).
  { intros self2 Hc2.
    pose proof (retry_loop_spec period interval validate
                  (Z.to_nat (YFINANCE_RETRY_ATTEMPTS cfg)) 1 false self2 w)
      as Hloop.
    simpl in Hloop |- *. destruct Hloop as (Hcalls & Hloop).
    split; [exact Hcalls|].
    destruct (outcome_of _) as [[[l|] report]|e].
    - right. apply (stored_transfer self self2 w w);
        [reflexivity | congruence | lia | exact Hloop].
    - destruct Hloop. split; congruence.
    - destruct Hloop. split; congruence. }
  destruct use_cache; [| apply Hmiss; reflexivity].
  unfold timed.
  destruct (_should_use_cache cfg (clock w) self1) as [hit self2] eqn:Huse.
  pose proof (should_use_cache_answer cfg (clock w) self1) as Hans.
  rewrite Huse in Hans. simpl in Hans.
  destruct hit.
  - symmetry in Hans.
    rewrite (should_use_cache_hit cfg (clock w) self1 Hans) in Huse.
    injection Huse as <-.
    apply should_hit_usable in Hans. destruct Hans as (Hen & entry & Hentry & _).
    rewrite (read_cache_run _ w _ (count_hit_cache self1 entry Hentry)).
    unfold outcome_of, world_of, self_of. simpl. split; [lia|]. left.
    split; [reflexivity|]. split; [exact Hen|].
    exists entry. rewrite <- Hc1. repeat split; try assumption.
    apply count_hit_cache, Hentry.
  - symmetry in Hans.
    destruct (should_use_cache_miss cfg (clock w) self1 Hans) as (_ & Hc2 & _).
    rewrite Huse in Hc2. simpl in Hc2. apply Hmiss, Hc2.
Qed.

(** An open breaker that refuses makes [fetch_ohlc] return at once, with
    the instance and the world as they were. *)
Lemma fetch_blocked (period interval : string) (use_cache validate : bool)
    (self : Fetcher) (w : World) (b : CircuitBreaker.t) :
  circuit_breaker self = Some b ->
  CircuitBreaker.can_attempt (clock w) b = (false, b) ->
  fetch_ohlc cfg env period interval use_cache validate self w
  = (Ok (None, empty_report), self, w).
Proof.
  intros Hb Hno. unfold fetch_ohlc, bind, breaker_blocks, timed.
  rewrite Hb, Hno. simpl. unfold ret. destruct self. simpl in Hb.
  subst. reflexivity.
Qed.

End FetchFacts.

Lemma run_unbroken (ops : list breaker_op) :
  forall b,
    unbroken ops b ->
    run_ops ops b = CircuitBreaker.record_failures (failures_of ops) b.
Proof.
  induction ops as [|op ops IH]; intros b; [reflexivity|].
  intros (Hop & Hrest).
  unfold run_ops. cbn [fold_left]. fold (run_ops ops (apply_op b op)).
  rewrite (IH _ Hrest).
  destruct op as [|now|now]; [destruct Hop | reflexivity |].
  simpl. rewrite CircuitBreakerFacts.can_attempt_cases, Hop. reflexivity.
Qed.

(** C4 (as the code has it). After a history of [record_failure] calls, at
    least as many as the threshold, with between them no [record_success]
    and no [can_attempt] that is granted as a probe (the [can_attempt] calls
    that find the breaker closed, or open before its interval has elapsed,
    may come in any number), every later [can_attempt] asked before the reset
    interval has elapsed since the last of the failures answers false and
    leaves the breaker as it is; and a [fetch_ohlc] asked in that period
    returns the absent result without a provider call, the instance and the
    world being unchanged. *)
Theorem breaker_blocks_after_failures
    (cfg : Config) (env : Env) (b : CircuitBreaker.t)
    (ops : list breaker_op) (failures : list Q) (last : Q) (checks : list Q) :
  0 <= CircuitBreaker.failure_count b ->
  unbroken ops b ->
  failures_of ops = failures ++ [last] ->
  CircuitBreaker.threshold b <= Z.of_nat (length (failures ++ [last])) ->
  Forall (fun now => (now - last < CircuitBreaker.reset_interval b)%Q) checks ->
  let b' := run_ops ops b in
  CircuitBreaker.can_attempts checks b' = (repeat false (length checks), b')
  /\ forall (self : Fetcher) (w : World) (period interval : string)
            (use_cache validate : bool),
       circuit_breaker self = Some b' ->
       (clock w - last < CircuitBreaker.reset_interval b)%Q ->
       fetch_ohlc cfg env period interval use_cache validate self w
       = (Ok (None, empty_report), self, w).
Proof.
  intros Hcount Hunbroken Hfailures Hlen Hchecks b'.
  assert (Hrun : b' = CircuitBreaker.record_failures (failures ++ [last]) b).
  { unfold b'. rewrite (run_unbroken ops b Hunbroken), Hfailures. reflexivity. }
  destruct (CircuitBreakerFacts.record_failures_open failures last b Hcount Hlen)
    as (Hopen & Hlast).
  destruct (CircuitBreakerFacts.record_failures_fields (failures ++ [last]) b)
    as (_ & Hreset & _).
  rewrite <- Hrun in Hopen, Hlast, Hreset.
  split.
  - apply (CircuitBreakerFacts.can_attempts_blocked checks last b' Hopen Hlast).
    rewrite Hreset. exact Hchecks.
  - intros self w period interval use_cache validate Hb Hnow.
    apply (fetch_blocked cfg env period interval use_cache validate self w b' Hb).
    apply (CircuitBreakerFacts.can_attempt_blocked (clock w) last b' Hopen Hlast).
    rewrite Hreset. exact Hnow.
Qed.

Lemma breaker_blocks_after_failures_witness :
  run_ops failures_between_attempts (CircuitBreaker.init 3 60) = tripped_breaker
  /\ CircuitBreaker.can_attempts [4; 62]%Q tripped_breaker
     = ([false; false], tripped_breaker)
  /\ fetch_ohlc sample_config serving_env "1d" "1m" true true
                tripped_fetcher (mkWorld 10 [] 0 0)
     = (Ok (None, empty_report), tripped_fetcher, mkWorld 10 [] 0 0).
Proof.
  destruct (breaker_blocks_after_failures sample_config serving_env
              (CircuitBreaker.init 3 60) failures_between_attempts
              [1; 2]%Q 3%Q [4; 62]%Q)
    as (Hchecks & Hfetch).
  - simpl. lia.
  - repeat split.
  - reflexivity.
  - simpl. lia.
  - repeat constructor.
  - split; [reflexivity|]. split; [exact Hchecks|].
    apply Hfetch; reflexivity.
Defined.

(** C4 as stated fails: four [record_failure] calls with no [record_success]
    between them, but with a probe granted after the third; one second after
    the last failure, with a reset interval of 60, [can_attempt] answers
    true, and a [fetch_ohlc] goes to the provider. *)
Lemma failures_around_probe_do_not_block :
  let b := run_ops failures_around_probe (CircuitBreaker.init 3 60) in
  let self := mkFetcher "NQ=F" None CacheStatistics.init (Some b) 0 0 None in
  failures_of failures_around_probe = [1; 2; 3; 71]%Q
  /\ CircuitBreaker.threshold b = 3
  /\ (72 - 71 < CircuitBreaker.reset_interval b)%Q
  /\ CircuitBreaker.can_attempt 72 b = (true, b)
  /\ provider_calls
       (world_of (fetch_ohlc sample_config failing_env "1d" "1m" true true
                             self (mkWorld 72 [] 0 0)))
     = 3%nat.
Proof.
  cbv zeta. split; [reflexivity|]. split; [reflexivity|].
  split; [reflexivity|]. split; reflexivity.
Qed.

(** Scenario 1 of the specification, end to end: with threshold 3 and three
    attempts per run, three runs against a failing provider make nine calls
    and leave the breaker open; the fourth run returns the absent result and
    the number of provider calls stays nine. *)
Lemma fourth_fetch_is_blocked :
  provider_calls (world_of three_failed_fetches) = 9%nat
  /\ option_map CircuitBreaker.is_open
       (circuit_breaker (self_of three_failed_fetches)) = Some true
  /\ outcome_of (fetch_after three_failed_fetches) = Ok (None, empty_report)
  /\ provider_calls (world_of (fetch_after three_failed_fetches)) = 9%nat.
Proof. repeat split. Qed.

(** C10. Whenever [fetch_ohlc] hands back data without calling the provider,
    that is on every cache hit, the report has the validation flag of the
    cached entry as [is_valid] and empty errors, warnings and statistics;
    and there is such a hit whose report is invalid with no error line. *)
Theorem cache_hit_report :
  (forall (cfg : Config) (env : Env) (period interval : string)
          (use_cache validate : bool) (self : Fetcher) (w : World)
          (l : loc) (report : DataValidationReport.t),
     let x := fetch_ohlc cfg env period interval use_cache validate self w in
     outcome_of x = Ok (Some l, report) ->
     provider_calls (world_of x) = provider_calls w ->
     exists entry,
       cache self = Some entry
       /\ report
          = DataValidationReport.mk (CacheEntry.validation_passed entry) [] [] ∅)
  /\ (exists (l : loc) (report : DataValidationReport.t),
        let x := fetch_ohlc sample_config rate_limited_env "1d" "1m" true true
                            fetcher_with_entry world_with_frame in
        outcome_of x = Ok (Some l, report)
        /\ provider_calls (world_of x) = provider_calls world_with_frame
        /\ DataValidationReport.is_valid report = false
        /\ DataValidationReport.errors report = []).
Proof.
  split.
  - intros cfg env period interval use_cache validate self w l report x Hout Hcalls.
    pose proof (fetch_ohlc_spec cfg env period interval use_cache validate self w)
      as (_ & Hspec).
    fold x in Hspec. rewrite Hout in Hspec.
    destruct Hspec as [(_ & _ & entry & Hc & _ & _ & _ & Hr) | (df & _ & Hlt & _)].
    + exists entry. split; assumption.
    + fold x in Hcalls. lia.
  - eexists _, _. cbv zeta. repeat split.
Qed.

Lemma cache_hit_report_witness :
  exists entry,
    cache fetcher_with_entry = Some entry
    /\ DataValidationReport.mk false [] [] ∅
       = DataValidationReport.mk (CacheEntry.validation_passed entry) [] [] ∅.
Proof.
  destruct cache_hit_report as (Hall & _).
  apply (Hall sample_config rate_limited_env "1d"%string "1m"%string true true
              fetcher_with_entry world_with_frame 1%nat); reflexivity.
Defined.

(** ** The cache keeps its own copy *)

Lemma served_lookup (cfg : Config) (self : Fetcher) (w : World) (l : loc)
    (report : DataValidationReport.t) (self' : Fetcher) (w' : World) :
  served cfg self w l report self' w' ->
  exists entry,
    cache self = Some entry
    /\ l = length (heap w)
    /\ heap w' !!! l = heap w !!! CacheEntry.data entry
    /\ heap w' = heap w ++ [heap w !!! CacheEntry.data entry]
    /\ exists entry', cache self' = Some entry'
                      /\ CacheEntry.data entry' = CacheEntry.data entry.
Proof.
  intros (_ & _ & entry & Hc & Hc' & Hl & Hheap & _).
  exists entry. split; [exact Hc|]. split; [exact Hl|].
  split; [| split; [exact Hheap | eexists; split; [exact Hc' | reflexivity]]].
  rewrite Hheap, Hl. apply list_lookup_total_middle. reflexivity.
Qed.

(** [cache_in_heap] holds of a new instance and is kept by every run of
    [fetch_ohlc] and by every change the caller makes to a frame. *)
Lemma init_cache_in_heap (cfg : Config) (name : string) (w : World) :
  cache_in_heap (Fetcher_init cfg name) w.
Proof. exact I. Qed.

Lemma mutate_keeps_cache_in_heap (self : Fetcher) (w : World)
    (l : loc) (df : DataFrame) (now : Q) :
  cache_in_heap self w -> cache_in_heap self (mutate l df now w).
Proof.
  unfold cache_in_heap, mutate. simpl.
  destruct (cache self); [rewrite length_insert|]; auto.
Qed.

Lemma fetch_keeps_cache_in_heap (cfg : Config) (env : Env)
    (period interval : string) (use_cache validate : bool)
    (self : Fetcher) (w : World) :
  cache_in_heap self w ->
  let x := fetch_ohlc cfg env period interval use_cache validate self w in
  cache_in_heap (self_of x) (world_of x).
Proof.
  intros Hwf x.
  pose proof (fetch_ohlc_spec cfg env period interval use_cache validate self w)
    as (_ & Hspec).
  fold x in Hspec. unfold cache_in_heap in *.
  destruct (outcome_of x) as [[[l|] report]|e].
  - destruct Hspec as [Hserved | (df & _ & _ & Hstored)].
    + apply served_lookup in Hserved.
      destruct Hserved as (entry & Hc & _ & _ & Hheap & entry' & -> & ->).
      rewrite Hc in Hwf. rewrite Hheap, length_app. simpl. lia.
    + destruct (YFINANCE_CACHE_ENABLED cfg).
      * destruct Hstored as (-> & entry & -> & -> & _).
        rewrite length_app. simpl. lia.
      * destruct Hstored as (-> & ->).
        destruct (cache self); [rewrite length_app; simpl; lia | exact I].
  - destruct Hspec as (-> & ->). exact Hwf.
  - destruct Hspec as (-> & ->). exact Hwf.
Qed.

(** C8. Take any run of [fetch_ohlc] that hands back a frame, whether served
    from the cache or newly fetched and stored. Let the caller then overwrite
    that frame. A later run that is served from the cache hands back another
    object, whose content is what the first frame held before the caller
    changed it; the entry's own frame is a third object, which the caller
    never received. *)
Theorem cache_copy_is_private
    (cfg : Config) (env : Env) (period interval : string)
    (use_cache validate : bool) (self : Fetcher) (w : World)
    (l : loc) (report : DataValidationReport.t)
    (changed : DataFrame) (later : Q)
    (period2 interval2 : string) (use_cache2 validate2 : bool)
    (l2 : loc) (report2 : DataValidationReport.t) :
  cache_in_heap self w ->
  let x := fetch_ohlc cfg env period interval use_cache validate self w in
  outcome_of x = Ok (Some l, report) ->
  let w2 := mutate l changed later (world_of x) in
  let y := fetch_ohlc cfg env period2 interval2 use_cache2 validate2 (self_of x) w2 in
  outcome_of y = Ok (Some l2, report2) ->
  provider_calls (world_of y) = provider_calls w2 ->
  l2 <> l
  /\ heap (world_of y) !!! l2 = heap (world_of x) !!! l
  /\ exists entry,
       cache (self_of x) = Some entry
       /\ CacheEntry.data entry <> l
       /\ heap (world_of x) !!! CacheEntry.data entry = heap (world_of x) !!! l
       /\ heap w2 !!! CacheEntry.data entry = heap (world_of x) !!! l.
Proof.
  intros Hwf x Hx w2 y Hy Hcalls.
  pose proof (fetch_ohlc_spec cfg env period interval use_cache validate self w)
    as (_ & Hfirst).
  pose proof (fetch_ohlc_spec cfg env period2 interval2 use_cache2 validate2
                              (self_of x) w2) as (_ & Hsecond).
  fold x in Hfirst. fold y in Hsecond. rewrite Hx in Hfirst. rewrite Hy in Hsecond.
  destruct Hsecond as [Hserved2 | (df2 & _ & Hlt & _)]; [| lia].
  pose proof Hserved2 as (_ & Henabled & _).
  apply served_lookup in Hserved2.
  destruct Hserved2 as (entry2 & Hc2 & Hl2 & Hlook2 & _).
  assert (Hlen2 : length (heap w2) = length (heap (world_of x)))
    by (unfold w2, mutate; simpl; apply length_insert).
  destruct Hfirst as [Hserved | (df & Hl & _ & Hstored)].
  - apply served_lookup in Hserved.
    destruct Hserved as (entry & Hc & Hl & Hlook & Hheap & entry' & Hc' & Hdata).
    unfold cache_in_heap in Hwf. rewrite Hc in Hwf.
    rewrite Hc' in Hc2. injection Hc2 as <-.
    assert (Hne : CacheEntry.data entry' <> l) by lia.
    assert (Hown : heap (world_of x) !!! CacheEntry.data entry'
                   = heap (world_of x) !!! l).
    { rewrite Hlook, Hheap, Hdata. apply lookup_total_app_l. exact Hwf. }
    assert (Hkept : heap w2 !!! CacheEntry.data entry' = heap (world_of x) !!! l).
    { unfold w2, mutate. simpl.
      rewrite list_lookup_total_insert_ne by congruence. exact Hown. }
    split; [| split].
    + rewrite Hl2, Hlen2, Hheap, length_app. simpl. lia.
    + rewrite Hlook2. exact Hkept.
    + exists entry'. auto.
  - rewrite Henabled in Hstored.
    destruct Hstored as (Hheap & entry & Hc & Hdata & _).
    rewrite Hc in Hc2. injection Hc2 as <-.
    assert (Hne : CacheEntry.data entry <> l) by lia.
    assert (Hl' : heap (world_of x) !!! l = df).
    { rewrite Hheap, Hl. apply list_lookup_total_middle. reflexivity. }
    assert (Hown : heap (world_of x) !!! CacheEntry.data entry = df).
    { rewrite Hheap, Hdata.
      change (heap w ++ [df; df]) with (heap w ++ [df] ++ [df]).
      rewrite app_assoc. apply list_lookup_total_middle.
      rewrite length_app. simpl. lia. }
    assert (Hkept : heap w2 !!! CacheEntry.data entry = df).
    { unfold w2, mutate. simpl.
      rewrite list_lookup_total_insert_ne by congruence. exact Hown. }
    split; [| split].
    + rewrite Hl2, Hlen2, Hheap, length_app. simpl. lia.
    + rewrite Hlook2, Hl'. exact Hkept.
    + exists entry. rewrite Hl'. auto.
Qed.

Lemma cache_copy_is_private_witness :
  heap (world_of first_fetch) !!! 0%nat = served_frame
  /\ heap (mutate 0%nat frame_without_rows 10 (world_of first_fetch)) !!! 0%nat
     = frame_without_rows
  /\ heap (world_of second_fetch) !!! 2%nat = served_frame.
Proof.
  destruct (cache_copy_is_private sample_config serving_env "1d" "1m" true true
              (Fetcher_init sample_config "NQ=F") (mkWorld 0 [] 0 0)
              0%nat scenario_report
              frame_without_rows 10
              "1d" "1m" true true
              2%nat (DataValidationReport.mk false [] [] ∅))
    as (_ & Hsame & _).
  - exact I.
  - reflexivity.
  - reflexivity.
  - reflexivity.
  - split; [reflexivity|]. split; [reflexivity|].
    exact Hsame.
Defined.

(** ** No exception leaves fetch_ohlc *)

Lemma safe_bind_yields {A B} (P : A -> Prop) (m : M A) (k : A -> M B) :
  safe m -> yields P m -> (forall a, P a -> safe (k a)) -> safe (bind m k).
Proof.
  intros Hm HP Hk self w. unfold bind.
  destruct (Hm self w) as (a & Ha). specialize (HP self w).
  destruct (m self w) as [[r self1] w1]. unfold outcome_of in Ha, HP.
  simpl in Ha, HP. subst r. apply Hk, HP.
Qed.

Section Safety.

Variable cfg : Config.
Variable env : Env.

Hypothesis retry_delay_nonneg : (0 <= YFINANCE_RETRY_DELAY cfg)%Q.
Hypothesis retry_max_nonneg : (0 <= YFINANCE_RETRY_MAX_DELAY cfg)%Q.
Hypothesis rate_limit_nonneg : (0 <= YFINANCE_RATE_LIMIT_BACKOFF cfg)%Q.
Hypothesis rate_limit_max_nonneg : (0 <= YFINANCE_RATE_LIMIT_MAX_BACKOFF cfg)%Q.
Hypothesis jitter_nonneg : forall n, (0 <= jitter env n)%Q.

Lemma safe_backoff_delay (attempt : Z) (is_rate_limit : bool) :
  safe (backoff_delay cfg env attempt is_rate_limit).
Proof.
  unfold backoff_delay.
  destruct (YFINANCE_RETRY_JITTER_ENABLED cfg); [| apply safe_ret].
  intros self w. eexists. reflexivity.
Qed.

Lemma backoff_delay_yields (attempt : Z) (is_rate_limit : bool) :
  yields (fun d => (0 <= d)%Q) (backoff_delay cfg env attempt is_rate_limit).
Proof.
  unfold backoff_delay.
  destruct (YFINANCE_RETRY_JITTER_ENABLED cfg); intros self w;
    unfold outcome_of; simpl;
    apply backoff_nonnegative; first [assumption | apply jitter_nonneg | apply Qle_refl].
Qed.

Lemma safe_breaker_record_failure : safe breaker_record_failure.
Proof. unfold breaker_record_failure. auto with safe. Qed.

Lemma safe_handler (attempt : Z) (is_rate_limited : bool) (e : exn) :
  safe (handler cfg env attempt is_rate_limited e).
Proof.
  pose proof safe_breaker_record_failure.
  pose proof safe_backoff_delay.
  unfold handler.
  apply safe_if.
  - apply (safe_bind_yields (fun d => (0 <= d)%Q));
      [auto | apply backoff_delay_yields |].
    intros delay Hdelay. apply safe_bind; [apply safe_sleep, Hdelay|].
    intros _. apply safe_ret.
  - auto 10 with safe.
Qed.

Lemma safe_retry_loop (period interval : string) (validate : bool)
    (remaining : nat) :
  forall (attempt : Z) (is_rate_limited : bool),
    safe (retry_loop cfg env period interval validate remaining attempt
                     is_rate_limited).
Proof.
  induction remaining as [|remaining IH]; intros attempt rl.
  - apply safe_ret.
  - cbn [retry_loop]. apply safe_bind.
    + apply safe_try_except. intros e. apply safe_handler.
    + intros [value | rl']; [apply safe_ret | apply IH].
Qed.

Lemma safe_fetch_ohlc (period interval : string) (use_cache validate : bool) :
  safe (fetch_ohlc cfg env period interval use_cache validate).
Proof.
  intros self w. unfold fetch_ohlc, bind.
  destruct (breaker_blocks_run self w) as (blocked & self1 & -> & _).
  destruct blocked; [eexists; reflexivity|].
  unfold get_self, monotonic.
  destruct (Qltb (clock w) (rate_limit_until self1)); [eexists; reflexivity|].
  destruct use_cache; [| apply safe_retry_loop].
  unfold timed.
  destruct (_should_use_cache cfg (clock w) self1) as [hit self2] eqn:Huse.
  destruct hit; [| apply safe_retry_loop].
  pose proof (should_use_cache_answer cfg (clock w) self1) as Hans.
  rewrite Huse in Hans. simpl in Hans. symmetry in Hans.
  rewrite (should_use_cache_hit cfg (clock w) self1 Hans) in Huse.
  injection Huse as <-.
  apply should_hit_usable in Hans. destruct Hans as (_ & entry & Hentry & _).
  rewrite (read_cache_run _ w _ (count_hit_cache self1 entry Hentry)).
  eexists. reflexivity.
Qed.

End Safety.

(** C7. Whatever the arguments, the instance, the heap and the clock, and
    whatever the provider answers at each call (an exception of any message,
    rate limits among them, an empty frame, a frame without a date column or
    without a price column, a well-formed frame), [fetch_ohlc] raises nothing
    and returns the pair of an optional frame and a report. The configured
    delays are durations (not negative) and the jitter is drawn from
    [0, 1]. *)
Theorem fetch_never_raises
    (cfg : Config) (env : Env) (period interval : string)
    (use_cache validate : bool) (self : Fetcher) (w : World) :
  (0 <= YFINANCE_RETRY_DELAY cfg)%Q ->
  (0 <= YFINANCE_RETRY_MAX_DELAY cfg)%Q ->
  (0 <= YFINANCE_RATE_LIMIT_BACKOFF cfg)%Q ->
  (0 <= YFINANCE_RATE_LIMIT_MAX_BACKOFF cfg)%Q ->
  (forall n, (0 <= jitter env n)%Q) ->
  exists (data : option loc) (report : DataValidationReport.t),
    outcome_of (fetch_ohlc cfg env period interval use_cache validate self w)
    = Ok (data, report).
Proof.
  intros H1 H2 H3 H4 Hj.
  destruct (safe_fetch_ohlc cfg env H1 H2 H3 H4 Hj period interval
                            use_cache validate self w) as ([data report] & H).
  exists data, report. exact H.
Qed.

Lemma fetch_never_raises_witness :
  exists (data : option loc) (report : DataValidationReport.t),
    outcome_of (fetch_ohlc sample_config rate_limited_env "1d" "1m" true true
                           (Fetcher_init sample_config "NQ=F") (mkWorld 0 [] 0 0))
    = Ok (data, report).
Proof.
  apply (fetch_never_raises sample_config rate_limited_env "1d" "1m" true true
           (Fetcher_init sample_config "NQ=F") (mkWorld 0 [] 0 0)).
  - vm_compute. discriminate.
  - vm_compute. discriminate.
  - vm_compute. discriminate.
  - vm_compute. discriminate.
  - intros n. vm_compute. discriminate.
Defined.

(** The run of the witness in full: three provider calls, all refused as
    rate-limited; the result is absent with the empty report, and the
    cool-down ends [_calculate_backoff_delay(3, True)] after the last
    attempt. *)
Lemma rate_limited_run :
  let x := fetch_ohlc sample_config rate_limited_env "1d" "1m" true true
                      (Fetcher_init sample_config "NQ=F") (mkWorld 0 [] 0 0) in
  outcome_of x = Ok (None, empty_report)
  /\ provider_calls (world_of x) = 3%nat
  /\ (clock (world_of x) == 1 + 300 + 1 + 600 + 1)%Q
  /\ (rate_limit_until (self_of x)
      == clock (world_of x) + _calculate_backoff_delay sample_config 0 3 true)%Q.
Proof. cbv zeta. repeat split. Qed.

(** The hypothesis on the delays is needed: with a negative retry delay the
    [time.sleep] of the handler raises ValueError, which nothing catches. *)
Lemma negative_delay_escapes :
  outcome_of (fetch_ohlc negative_delay_config failing_env "1d" "1m" true true
                (mkFetcher "NQ=F" None CacheStatistics.init None 0 0 None)
                (mkWorld 0 [] 0 0))
  = Raise ValueError.
Proof. reflexivity. Qed.


(** ** More on the circuit breaker *)

Module BreakerRuns.

Import CircuitBreaker.

Lemma consistent_init (threshold : Z) (reset_interval : Q) :
  0 < threshold -> breaker_consistent (init threshold reset_interval).
Proof.
  intros Hpos. unfold breaker_consistent. simpl.
  split; [lia|]. split; [split; [discriminate | lia] | discriminate].
Qed.

Lemma consistent_step (b : t) (op : breaker_op) :
  0 < threshold b ->
  breaker_consistent b ->
  breaker_consistent (apply_op b op) /\ threshold (apply_op b op) = threshold b.
Proof.
  intros Hpos (Hcount & Hopen & Hlast).
  destruct op as [| now | now]; simpl.
  - split; [| reflexivity]. unfold breaker_consistent. simpl.
    split; [lia|]. split; [split; [discriminate | lia] | discriminate].
  - split; [| reflexivity]. unfold breaker_consistent. simpl.
    split; [lia|]. split.
    + destruct (Z.leb_spec (threshold b) (failure_count b + 1)) as [Hle | Hlt].
      * split; [intros _; exact Hle | reflexivity].
      * rewrite Hopen. lia.
    + intros _. exists now. reflexivity.
  - rewrite CircuitBreakerFacts.can_attempt_cases.
    destruct (probe_due now b); simpl.
    + split; [| reflexivity]. unfold breaker_consistent. simpl.
      split; [lia|]. split; [split; [discriminate | lia] | discriminate].
    + split; [| reflexivity]. unfold breaker_consistent. auto.
Qed.

Lemma consistent_run (ops : list breaker_op) :
  forall b, 0 < threshold b -> breaker_consistent b ->
  breaker_consistent (run_ops ops b) /\ threshold (run_ops ops b) = threshold b.
Proof.
  induction ops as [|op ops IH]; intros b Hpos Hb; [split; [exact Hb | reflexivity]|].
  destruct (consistent_step b op Hpos Hb) as (Hstep & Hthr).
  cbn [run_ops fold_left]. fold (run_ops ops (apply_op b op)).
  destruct (IH (apply_op b op)) as (Hrun & Hthr'); [lia | exact Hstep |].
  split; [exact Hrun | lia].
Qed.

(** X1. With a positive threshold, whatever sequence of record_success,
    record_failure and can_attempt calls a new breaker goes through, and at
    whatever instants: the failure count is never negative, the breaker is
    open exactly when the count has reached the threshold, and an open
    breaker always has an instant of last failure. *)
Theorem breaker_open_iff_threshold_reached
    (threshold : Z) (reset_interval : Q) (ops : list breaker_op) :
  0 < threshold ->
  let b := run_ops ops (init threshold reset_interval) in
  0 <= failure_count b
  /\ (is_open b = true <-> threshold <= failure_count b)
  /\ (is_open b = true -> exists last, last_failure_time b = Some last).
Proof.
  intros Hpos b.
  destruct (consistent_run ops (init threshold reset_interval) Hpos
                           (consistent_init threshold reset_interval Hpos))
    as ((Hcount & Hopen & Hlast) & Hthr).
  fold b in Hcount, Hopen, Hlast, Hthr. simpl in Hthr. rewrite Hthr in Hopen.
  auto.
Qed.

Lemma breaker_open_iff_threshold_reached_witness :
  let b := run_ops [OpFailure 1; OpCanAttempt 2; OpFailure 3; OpFailure 4;
                    OpCanAttempt 70; OpFailure 71]%Q (init 3 60) in
  0 <= failure_count b
  /\ (is_open b = true <-> 3 <= failure_count b)
  /\ (is_open b = true -> exists last, last_failure_time b = Some last).
Proof.
  apply (breaker_open_iff_threshold_reached 3 60). lia.
Defined.

Lemma record_failures_closed (times : list Q) :
  forall b,
    is_open b = false ->
    failure_count b + Z.of_nat (length times) < threshold b ->
    is_open (record_failures times b) = false.
Proof.
  induction times as [|now times IH]; intros b Hclosed Hlt; [exact Hclosed|].
  cbn [record_failures fold_left]. fold (record_failures times (record_failure now b)).
  cbn [length] in Hlt.
  apply IH.
  - simpl. rewrite Hclosed.
    destruct (Z.leb_spec (threshold b) (failure_count b + 1)); [lia | reflexivity].
  - simpl. lia.
Qed.

(** X2. Fewer failures than the threshold since the last success never block
    an attempt: after record_success, and then any run of record_failure calls
    shorter than the threshold, can_attempt answers true at every instant and
    changes nothing. *)
Theorem below_threshold_never_blocks (b : t) (times : list Q) (now : Q) :
  Z.of_nat (length times) < threshold b ->
  let b' := record_failures times (record_success b) in
  can_attempt now b' = (true, b').
Proof.
  intros Hlt b'.
  assert (Hclosed : is_open b' = false)
    by (apply record_failures_closed; [reflexivity | simpl; lia]).
  unfold can_attempt. rewrite Hclosed. reflexivity.
Qed.

Lemma below_threshold_never_blocks_witness :
  can_attempt 5 (record_failures [1; 2]%Q (record_success open_breaker))
  = (true, record_failures [1; 2]%Q (record_success open_breaker)).
Proof.
  apply (below_threshold_never_blocks open_breaker [1; 2]%Q 5). simpl. lia.
Defined.

Lemma can_attempts_closed (times : list Q) (b : t) :
  is_open b = false ->
  can_attempts times b = (repeat true (length times), b).
Proof.
  intros Hclosed. induction times as [|now times IH]; [reflexivity|].
  cbn [can_attempts]. unfold can_attempt at 1. rewrite Hclosed. simpl.
  rewrite IH. reflexivity.
Qed.

(** X3. The probe. When the breaker is open and the reset interval has
    elapsed since a last failure at a non-zero instant, can_attempt answers
    true and leaves the breaker closed with a failure count of 0; from then on
    every can_attempt answers true, at whatever instant, until failures are
    recorded again. *)
Theorem probe_closes_breaker (b : t) (last now : Q) (later : list Q) :
  is_open b = true ->
  last_failure_time b = Some last ->
  ~ (last == 0)%Q ->
  (reset_interval b <= now - last)%Q ->
  let b' := snd (can_attempt now b) in
  fst (can_attempt now b) = true
  /\ is_open b' = false
  /\ failure_count b' = 0
  /\ can_attempts later b' = (repeat true (length later), b').
Proof.
  intros Hopen Hlast Hnz Helapsed b'. subst b'.
  rewrite CircuitBreakerFacts.can_attempt_cases.
  assert (Hdue : probe_due now b = true).
  { unfold probe_due. rewrite Hopen, Hlast. simpl.
    apply andb_true_iff. split.
    - unfold truthy. apply negb_true_iff, not_true_iff_false.
      intros H. apply Qeq_bool_iff in H. contradiction.
    - apply Qleb_le, Helapsed. }
  rewrite Hdue. simpl. repeat split.
  apply can_attempts_closed. reflexivity.
Qed.

Lemma probe_closes_breaker_witness :
  fst (can_attempt 70 open_breaker) = true
  /\ is_open (snd (can_attempt 70 open_breaker)) = false
  /\ failure_count (snd (can_attempt 70 open_breaker)) = 0
  /\ can_attempts [71; 0; 500]%Q (snd (can_attempt 70 open_breaker))
     = (repeat true 3, snd (can_attempt 70 open_breaker)).
Proof.
  apply (probe_closes_breaker open_breaker 10 70 [71; 0; 500]%Q).
  - reflexivity.
  - reflexivity.
  - vm_compute. discriminate.
  - vm_compute. discriminate.
Defined.



End BreakerRuns.

(** ** More on the backoff policy *)

(** X5. For both classes of failure and whether jitter is enabled or not,
    with the jitter drawn from [0, 1]: the delay is at least the capped
    exponential min(base * 2^(attempt-1), max) and at most one second more,
    hence never more than max + 1; with jitter disabled it is the capped
    exponential itself. *)
Theorem backoff_within_jitter
    (cfg : Config) (j : Q) (attempt : Z) (is_rate_limit : bool) :
  (0 <= j)%Q -> (j <= 1)%Q ->
  let base := if is_rate_limit then YFINANCE_RATE_LIMIT_BACKOFF cfg
              else YFINANCE_RETRY_DELAY cfg in
  let max_delay := if is_rate_limit then YFINANCE_RATE_LIMIT_MAX_BACKOFF cfg
                   else YFINANCE_RETRY_MAX_DELAY cfg in
  let capped := Qmin (base * 2 ^ (attempt - 1)) max_delay in
  let delay := _calculate_backoff_delay cfg j attempt is_rate_limit in
  (capped <= delay)%Q
  /\ (delay <= capped + 1)%Q
  /\ (delay <= max_delay + 1)%Q
  /\ (YFINANCE_RETRY_JITTER_ENABLED cfg = false -> delay = capped).
Proof.
  intros Hj0 Hj1 base max_delay capped delay.
  assert (Hcap : (capped <= max_delay)%Q) by apply Q.le_min_r.
  assert (Hdelay : delay = if YFINANCE_RETRY_JITTER_ENABLED cfg
                           then (capped + j)%Q else capped).
  { unfold delay, _calculate_backoff_delay, capped, base, max_delay.
    destruct is_rate_limit; reflexivity. }
  rewrite Hdelay.
  destruct (YFINANCE_RETRY_JITTER_ENABLED cfg).
  - repeat split; first [lra | discriminate].
  - repeat split; lra.
Qed.

Lemma backoff_within_jitter_witness :
  (8 <= _calculate_backoff_delay sample_config (1 # 2) 5 false)%Q
  /\ (_calculate_backoff_delay sample_config (1 # 2) 5 false <= 8 + 1)%Q.
Proof.
  destruct (backoff_within_jitter sample_config (1 # 2) 5 false)
    as (Hlow & _ & Hhigh & _).
  - vm_compute. discriminate.
  - vm_compute. discriminate.
  - split; [| exact Hhigh].
    eapply Qle_trans; [| exact Hlow]. vm_compute. discriminate.
Defined.

(** ** The cache statistics *)

Lemma hit_rate_value (hits misses invalidations evictions : Z) (total : positive) :
  hits + misses = Zpos total ->
  CacheStatistics.hit_rate
    (CacheStatistics.mk hits misses invalidations evictions)
  = (inject_Z hits / inject_Z (Zpos total) * 100)%Q.
Proof.
  intros Htotal. unfold CacheStatistics.hit_rate. simpl. rewrite Htotal.
  reflexivity.
Qed.

(** X6. The hit rate is a percentage: for counters that are not negative it
    lies between 0 and 100; it is 0 when there was no read at all (no
    division by zero), and 100 when there were reads and none missed. *)
Theorem hit_rate_is_percentage (s : CacheStatistics.t) :
  0 <= CacheStatistics.hits s ->
  0 <= CacheStatistics.misses s ->
  (0 <= CacheStatistics.hit_rate s)%Q
  /\ (CacheStatistics.hit_rate s <= 100)%Q
  /\ (CacheStatistics.hits s + CacheStatistics.misses s = 0 ->
      CacheStatistics.hit_rate s = 0%Q)
  /\ (CacheStatistics.misses s = 0 -> 0 < CacheStatistics.hits s ->
      (CacheStatistics.hit_rate s == 100)%Q).
Proof.
  destruct s as [hits misses invalidations evictions]. simpl.
  intros Hh Hm.
  destruct (hits + misses) as [|total|total] eqn:Htotal; try lia.
  - unfold CacheStatistics.hit_rate. simpl. rewrite Htotal. simpl.
    repeat split; try discriminate; lia.
  - rewrite (hit_rate_value hits misses invalidations evictions total Htotal).
    unfold Qle, Qeq, Qdiv, Qmult, Qinv, inject_Z. simpl.
    repeat split; lia.
Qed.

Lemma hit_rate_is_percentage_witness :
  (0 <= CacheStatistics.hit_rate (CacheStatistics.mk 3 1 0 0))%Q
  /\ (CacheStatistics.hit_rate (CacheStatistics.mk 3 1 0 0) <= 100)%Q
  /\ (CacheStatistics.hit_rate (CacheStatistics.mk 3 1 0 0) == 75)%Q.
Proof.
  destruct (hit_rate_is_percentage (CacheStatistics.mk 3 1 0 0))
    as (Hlow & Hhigh & _); [simpl; lia | simpl; lia |].
  split; [exact Hlow|]. split; [exact Hhigh | reflexivity].
Defined.

(** ** More on the validator *)

Section ValidatorLines.

Import DataValidationReport.

Variable cfg : Config.

Lemma coherent_init : report_coherent init.
Proof. split; reflexivity. Qed.

Lemma appends_lines_id : appends_lines (fun r => r).
Proof.
  intros r. simpl. rewrite !app_nil_r.
  split; [reflexivity|]. split; [reflexivity|]. auto.
Qed.

Lemma appends_lines_add_error (e : message) : appends_lines (add_error e).
Proof.
  intros r. simpl. rewrite app_nil_r.
  split; [reflexivity|]. split; [reflexivity|].
  intros _. split; [discriminate|].
  intros Hnil. simpl in Hnil. destruct (errors r); discriminate Hnil.
Qed.

Lemma appends_lines_add_warning (e : message) : appends_lines (add_warning e).
Proof.
  intros r. simpl. rewrite !app_nil_r.
  split; [reflexivity|]. split; [reflexivity|].
  unfold report_coherent. simpl. auto.
Qed.

Lemma appends_lines_compose (f g : t -> t) :
  appends_lines f -> appends_lines g -> appends_lines (fun r => g (f r)).
Proof.
  intros Hf Hg r.
  destruct (Hf r) as (E1 & W1 & C1).
  destruct (Hg (f r)) as (E2 & W2 & C2).
  destruct (Hg (f init)) as (E3 & W3 & _).
  rewrite E2, W2, E1, W1, E3, W3, <- !app_assoc. auto.
Qed.

Lemma appends_lines_if (b : bool) (f g : t -> t) :
  appends_lines f -> appends_lines g ->
  appends_lines (fun r => if b then f r else g r).
Proof. destruct b; auto. Qed.

Lemma appends_lines_when (flag : bool) (f : t -> t) :
  appends_lines f -> appends_lines (when flag f).
Proof.
  destruct flag; [trivial | intros _; apply appends_lines_id].
Qed.

Lemma appends_lines_error_if (n : nat) (msg : nat -> message) :
  appends_lines (error_if_positive n msg).
Proof.
  unfold error_if_positive. intros r.
  destruct (0 <? n)%nat; [apply appends_lines_add_error | apply appends_lines_id].
Qed.

Lemma appends_lines_relationships (df : DataFrame) :
  appends_lines (check_relationships df).
Proof.
  unfold check_relationships.
  repeat (apply (appends_lines_compose _ (error_if_positive _ _));
          [| apply appends_lines_error_if]).
  apply appends_lines_id.
Qed.

Lemma appends_lines_nan_values (df : DataFrame) :
  appends_lines (check_nan_values df).
Proof.
  unfold check_nan_values.
  apply (appends_lines_compose (error_if_positive _ _) (error_if_positive _ _));
    apply appends_lines_error_if.
Qed.

Lemma appends_lines_freshness (utcnow : Z) (df : DataFrame) :
  appends_lines (check_age cfg (age_seconds utcnow df)).
Proof.
  unfold check_age.
  apply (appends_lines_compose
           (fun r => if Qltb _ _ then add_warning _ r else r)
           (fun r => if Qltb _ _ then add_error _ r else r)).
  - apply appends_lines_if; [apply appends_lines_add_warning | apply appends_lines_id].
  - apply appends_lines_if; [apply appends_lines_add_error | apply appends_lines_id].
Qed.

Lemma appends_lines_statistics (df : DataFrame) :
  appends_lines (add_statistics df).
Proof.
  intros r. simpl. rewrite !app_nil_r.
  split; [reflexivity|]. split; [reflexivity|].
  unfold report_coherent. simpl. auto.
Qed.

(** All the checks after the structural ones, followed by the statistics, as
    one step. *)
Lemma appends_lines_all (utcnow : Z) (df : DataFrame) :
  appends_lines
    (fun r =>
       add_statistics df
         (when (VALIDATE_DATA_FRESHNESS cfg) (check_age cfg (age_seconds utcnow df))
            (when (VALIDATE_NO_DUPLICATES cfg) (check_duplicates df)
               (when (VALIDATE_VOLUME_POSITIVE cfg) (check_volume df)
                  (when (VALIDATE_NO_NAN_VALUES cfg) (check_nan_values df)
                     (when (VALIDATE_OHLC_RELATIONSHIPS cfg)
                           (check_relationships df) r)))))).
Proof.
  apply (appends_lines_compose _ (add_statistics df));
    [| apply appends_lines_statistics].
  apply (appends_lines_compose _ (when _ (check_age cfg (age_seconds utcnow df))));
    [| apply appends_lines_when, appends_lines_freshness].
  apply (appends_lines_compose _ (when _ (check_duplicates df)));
    [| apply appends_lines_when, appends_lines_error_if].
  apply (appends_lines_compose _ (when _ (check_volume df)));
    [| apply appends_lines_when, appends_lines_error_if].
  apply (appends_lines_compose _ (when _ (check_nan_values df)));
    [| apply appends_lines_when, appends_lines_nan_values].
  apply appends_lines_when, appends_lines_relationships.
Qed.

Lemma validate_coherent (utcnow : Z) (df : DataFrame) (report : t) :
  _validate_ohlc_data cfg utcnow df = Ok report ->
  report_coherent report.
Proof.
  destruct (validate_structural cfg utcnow df) as (Hempty & Hmissing).
  destruct (df_empty df) eqn:He.
  { rewrite (Hempty eq_refl). intros [= <-]. split; discriminate. }
  destruct (has_required_columns df) eqn:Hc.
  - intros Hret.
    destruct (validate_returns cfg utcnow df report He Hc Hret) as (_ & ->).
    apply (appends_lines_all utcnow df init), coherent_init.
  - rewrite (Hmissing eq_refl eq_refl). intros [= <-]. split; discriminate.
Qed.

End ValidatorLines.

(** X7. Every report the validator returns, for any frame (empty and
    incomplete ones included) and any configuration, says it is valid exactly
    when it has no error line; warnings play no part. *)
Theorem validate_valid_iff_no_errors
    (cfg : Config) (utcnow : Z) (df : DataFrame)
    (report : DataValidationReport.t) :
  _validate_ohlc_data cfg utcnow df = Ok report ->
  DataValidationReport.is_valid report = true
  <-> DataValidationReport.errors report = [].
Proof.
  intros Hret.
  destruct (validate_coherent cfg utcnow df report Hret) as [Hvalid Hnone].
  split; [exact Hvalid | exact Hnone].
Qed.

Lemma validate_valid_iff_no_errors_witness :
  _validate_ohlc_data strict_config three_minutes clean_frame
  = Ok (add_statistics clean_frame DataValidationReport.init)
  /\ (DataValidationReport.is_valid
        (add_statistics clean_frame DataValidationReport.init) = true
      <-> DataValidationReport.errors
            (add_statistics clean_frame DataValidationReport.init) = []).
Proof.
  split; [reflexivity|].
  apply (validate_valid_iff_no_errors strict_config three_minutes clean_frame).
  reflexivity.
Defined.

Section ValidatorChecks.

Import DataValidationReport.

Variable cfg : Config.

Lemma errors_error_if (n : nat) (msg : nat -> message) :
  errors (error_if_positive n msg init) = line_if n msg.
Proof.
  unfold error_if_positive, line_if. destruct (0 <? n)%nat; reflexivity.
Qed.

Lemma In_line_if (m : message) (n : nat) (msg : nat -> message) :
  In m (line_if n msg) <-> (0 < n)%nat /\ m = msg n.
Proof.
  unfold line_if. destruct (Nat.ltb_spec 0 n); simpl.
  - split; [intros [<- | []]; auto | intros [_ ->]; auto].
  - split; [intros [] | intros [Hpos _]; lia].
Qed.

Lemma line_if_nil (n : nat) (msg : nat -> message) :
  line_if n msg = [] <-> n = 0%nat.
Proof.
  unfold line_if. destruct (Nat.ltb_spec 0 n); split;
    first [discriminate | lia | reflexivity].
Qed.

Lemma count_where_zero (p : Bar -> bool) (df : DataFrame) :
  count_where p df = 0%nat <-> forallb (fun b => negb (p b)) (rows df) = true.
Proof.
  unfold count_where. induction (rows df) as [|b bars IH]; simpl.
  - split; reflexivity.
  - destruct (p b); simpl; [split; discriminate | exact IH].
Qed.

Lemma forallb_andb (p q : Bar -> bool) (bars : list Bar) :
  forallb (fun b => p b && q b) bars = forallb p bars && forallb q bars.
Proof.
  induction bars as [|b bars IH]; [reflexivity|]. simpl. rewrite IH.
  destruct (p b), (q b), (forallb p bars); reflexivity.
Qed.

(** The error lines of the relational check, from an empty report. *)
Lemma errors_relationships (df : DataFrame) :
  errors (check_relationships df init)
  = line_if (count_where (fun b => flt (high b) (low b)) df) MsgHighLtLow
    ++ line_if (count_where (fun b => flt (high b) (open b)) df) MsgHighLtOpen
    ++ line_if (count_where (fun b => flt (high b) (close b)) df) MsgHighLtClose
    ++ line_if (count_where (fun b => fgt (low b) (open b)) df) MsgLowGtOpen
    ++ line_if (count_where (fun b => fgt (low b) (close b)) df) MsgLowGtClose.
Proof.
  unfold check_relationships. cbv zeta.
  repeat match goal with
         | |- context [errors (error_if_positive ?n ?msg ?r)] =>
             lazymatch r with
             | init => rewrite (errors_error_if n msg)
             | _ => rewrite (proj1 (appends_lines_error_if n msg r))
             end
         end.
  rewrite <- !app_assoc. reflexivity.
Qed.

Lemma relationships_none (df : DataFrame) :
  errors (check_relationships df init) = []
  <-> forallb bar_relations_hold (rows df) = true.
Proof.
  rewrite errors_relationships, !app_nil, !line_if_nil, !count_where_zero.
  unfold bar_relations_hold. rewrite !forallb_andb, !andb_true_iff.
  tauto.
Qed.

Lemma errors_nan_values (df : DataFrame) :
  errors (check_nan_values df init)
  = line_if (counts_sum (nan_counts df)) (fun n => MsgNaN n (nan_counts df))
    ++ line_if (counts_sum (inf_mask df)) MsgInf.
Proof.
  unfold check_nan_values. cbv zeta.
  rewrite (proj1 (appends_lines_error_if _ _ _)), !errors_error_if.
  reflexivity.
Qed.

Lemma nan_values_none (df : DataFrame) :
  errors (check_nan_values df init) = []
  <-> forallb bar_values_present (rows df) = true.
Proof.
  rewrite errors_nan_values, app_nil, !line_if_nil.
  unfold bar_values_present. rewrite !forallb_andb, !andb_true_iff.
  rewrite <- !count_where_zero.
  unfold counts_sum, nan_counts, inf_mask. simpl. lia.
Qed.

Lemma volume_none (df : DataFrame) :
  errors (check_volume df init) = []
  <-> forallb bar_volume_not_negative (rows df) = true.
Proof.
  unfold check_volume. cbv zeta.
  rewrite errors_error_if, line_if_nil, count_where_zero. reflexivity.
Qed.

Lemma existsb_eqb_elem (t : Z) (seen : list Z) :
  existsb (Z.eqb t) seen = true <-> t ∈ seen.
Proof.
  rewrite existsb_exists. split.
  - intros (u & Hin & Heq). apply Z.eqb_eq in Heq. subst u.
    apply list_elem_of_In, Hin.
  - intros Hin. exists t. split; [apply list_elem_of_In, Hin | apply Z.eqb_refl].
Qed.

Lemma duplicated_count_zero (ts : list Z) :
  forall seen,
    duplicated_count seen ts = 0%nat
    <-> NoDup ts /\ (forall t, t ∈ ts -> t ∉ seen).
Proof.
  induction ts as [|t ts IH]; intros seen.
  - simpl. split; [intros _ | reflexivity].
    split; [constructor | intros t Hin; inversion Hin].
  - cbn [duplicated_count]. rewrite NoDup_cons.
    destruct (existsb (Z.eqb t) seen) eqn:Hseen.
    + apply existsb_eqb_elem in Hseen. split; [discriminate|].
      intros (_ & Hfresh). exfalso. apply (Hfresh t); [left | exact Hseen].
    + apply not_true_iff_false in Hseen. rewrite existsb_eqb_elem in Hseen.
      simpl. rewrite (IH (t :: seen)). split.
      * intros (Hnodup & Hfresh). split; [split; [| exact Hnodup] |].
        -- intros Hin. apply (Hfresh t Hin). left.
        -- intros u Hu Hus. apply elem_of_cons in Hu as [-> | Hu]; [auto|].
           apply (Hfresh u Hu). right. exact Hus.
      * intros ((Hnotin & Hnodup) & Hfresh). split; [exact Hnodup|].
        intros u Hu Hus. apply elem_of_cons in Hus as [-> | Hus]; [auto|].
        apply (Hfresh u); [right; exact Hu | exact Hus].
Qed.

Lemma duplicates_none (df : DataFrame) :
  errors (check_duplicates df init) = []
  <-> NoDup (List.map timestamp (rows df)).
Proof.
  unfold check_duplicates. cbv zeta.
  rewrite errors_error_if, line_if_nil, duplicated_count_zero.
  split; [intros [H _]; exact H | intros H; split; [exact H|]].
  intros t _ Hin. inversion Hin.
Qed.

Lemma lines_freshness (utcnow : Z) (df : DataFrame) :
  errors (check_age cfg (age_seconds utcnow df) init)
  = (if Qltb (age_seconds utcnow df) (DATA_FRESHNESS_MIN_AGE_SECONDS cfg)
     then [MsgFuture (age_seconds utcnow df)] else [])
  /\ warnings (check_age cfg (age_seconds utcnow df) init)
     = (if Qltb (DATA_FRESHNESS_MAX_AGE_SECONDS cfg) (age_seconds utcnow df)
        then [MsgStale (age_seconds utcnow df)] else []).
Proof.
  unfold check_age, age_seconds. cbv zeta.
  destruct (Qltb (DATA_FRESHNESS_MAX_AGE_SECONDS cfg) _);
    destruct (Qltb _ (DATA_FRESHNESS_MIN_AGE_SECONDS cfg)); split; reflexivity.
Qed.

Lemma errors_when (flag : bool) (f : t -> t) :
  errors (when flag f init) = if flag then errors (f init) else [].
Proof. destruct flag; reflexivity. Qed.

Lemma warnings_error_if (n : nat) (msg : nat -> message) (r : t) :
  warnings (error_if_positive n msg r) = warnings r.
Proof. unfold error_if_positive. destruct (0 <? n)%nat; reflexivity. Qed.

(** The lines of a report on a frame that passes the structural checks: the
    errors of the five checks, in order, and the warnings of the freshness
    check. *)
Lemma validate_lines (utcnow : Z) (df : DataFrame) (report : t) :
  df_empty df = false ->
  has_required_columns df = true ->
  _validate_ohlc_data cfg utcnow df = Ok report ->
  errors report
  = (if VALIDATE_OHLC_RELATIONSHIPS cfg
     then errors (check_relationships df init) else [])
    ++ (if VALIDATE_NO_NAN_VALUES cfg then errors (check_nan_values df init) else [])
    ++ (if VALIDATE_VOLUME_POSITIVE cfg then errors (check_volume df init) else [])
    ++ (if VALIDATE_NO_DUPLICATES cfg then errors (check_duplicates df init) else [])
    ++ (if VALIDATE_DATA_FRESHNESS cfg
        then errors (check_age cfg (age_seconds utcnow df) init) else [])
  /\ warnings report
     = if VALIDATE_DATA_FRESHNESS cfg
       then warnings (check_age cfg (age_seconds utcnow df) init) else [].
Proof.
  intros He Hc Hret.
  destruct (validate_returns cfg utcnow df report He Hc Hret) as (_ & ->).
  unfold later_checks.
  pose proof (appends_lines_when (VALIDATE_DATA_FRESHNESS cfg) _
                (appends_lines_freshness cfg utcnow df)) as Hfresh.
  pose proof (appends_lines_when (VALIDATE_NO_DUPLICATES cfg) _
                (appends_lines_error_if
                   (duplicated_count [] (List.map timestamp (rows df)))
                   MsgDuplicateTimestamps)) as Hdup.
  pose proof (appends_lines_when (VALIDATE_VOLUME_POSITIVE cfg) _
                (appends_lines_error_if
                   (count_where (fun b => flt (volume b) (Num 0)) df)
                   MsgNegativeVolume)) as Hvol.
  pose proof (appends_lines_when (VALIDATE_NO_NAN_VALUES cfg) _
                (appends_lines_nan_values df)) as Hnan.
  fold (check_duplicates df) in Hdup. fold (check_volume df) in Hvol.
  split.
  - destruct (add_statistics_fields df
                (when (VALIDATE_DATA_FRESHNESS cfg) (check_age cfg (age_seconds utcnow df))
                   (when (VALIDATE_NO_DUPLICATES cfg) (check_duplicates df)
                      (when (VALIDATE_VOLUME_POSITIVE cfg) (check_volume df)
                         (when (VALIDATE_NO_NAN_VALUES cfg) (check_nan_values df)
                            (when (VALIDATE_OHLC_RELATIONSHIPS cfg)
                                  (check_relationships df) init))))))
      as (_ & -> & _).
    rewrite (proj1 (Hfresh _)), (proj1 (Hdup _)), (proj1 (Hvol _)),
      (proj1 (Hnan _)), !errors_when, <- !app_assoc.
    reflexivity.
  - destruct (add_statistics_fields df
                (when (VALIDATE_DATA_FRESHNESS cfg) (check_age cfg (age_seconds utcnow df))
                   (when (VALIDATE_NO_DUPLICATES cfg) (check_duplicates df)
                      (when (VALIDATE_VOLUME_POSITIVE cfg) (check_volume df)
                         (when (VALIDATE_NO_NAN_VALUES cfg) (check_nan_values df)
                            (when (VALIDATE_OHLC_RELATIONSHIPS cfg)
                                  (check_relationships df) init))))))
      as (_ & _ & ->).
    rewrite (proj1 (proj2 (Hfresh _))), (proj1 (proj2 (Hdup _))),
      (proj1 (proj2 (Hvol _))), (proj1 (proj2 (Hnan _))).
    assert (Hnone : forall flag f,
               (forall r, warnings (f r) = warnings r) ->
               warnings (when flag f init) = [])
      by (intros [] f Hf; [apply Hf | reflexivity]).
    rewrite (Hnone _ (check_relationships df)), (Hnone _ (check_nan_values df)),
      (Hnone _ (check_volume df)), (Hnone _ (check_duplicates df)).
    + destruct (VALIDATE_DATA_FRESHNESS cfg); reflexivity.
    + intros r. apply warnings_error_if.
    + intros r. apply warnings_error_if.
    + intros r. unfold check_nan_values. cbv zeta. rewrite !warnings_error_if.
      reflexivity.
    + intros r. unfold check_relationships. cbv zeta. rewrite !warnings_error_if.
      reflexivity.
Qed.

End ValidatorChecks.

Lemma later_lines_not_relational (cfg : Config) (utcnow : Z) (df : DataFrame)
    (m : message) :
  is_relational m = true ->
  ~ In m ((if VALIDATE_NO_NAN_VALUES cfg
           then DataValidationReport.errors
                  (check_nan_values df DataValidationReport.init) else [])
          ++ (if VALIDATE_VOLUME_POSITIVE cfg
              then DataValidationReport.errors
                     (check_volume df DataValidationReport.init) else [])
          ++ (if VALIDATE_NO_DUPLICATES cfg
              then DataValidationReport.errors
                     (check_duplicates df DataValidationReport.init) else [])
          ++ (if VALIDATE_DATA_FRESHNESS cfg
              then DataValidationReport.errors
                     (check_age cfg (age_seconds utcnow df) DataValidationReport.init)
              else [])).
Proof.
  intros Hrel Hin.
  rewrite !in_app_iff in Hin.
  destruct Hin as [Hin | [Hin | [Hin | Hin]]].
  - destruct (VALIDATE_NO_NAN_VALUES cfg); [| exact Hin].
    rewrite errors_nan_values, in_app_iff, !In_line_if in Hin.
    destruct Hin as [[_ ->] | [_ ->]]; discriminate Hrel.
  - destruct (VALIDATE_VOLUME_POSITIVE cfg); [| exact Hin].
    unfold check_volume in Hin. cbv zeta in Hin.
    rewrite errors_error_if, In_line_if in Hin.
    destruct Hin as [_ ->]. discriminate Hrel.
  - destruct (VALIDATE_NO_DUPLICATES cfg); [| exact Hin].
    unfold check_duplicates in Hin. cbv zeta in Hin.
    rewrite errors_error_if, In_line_if in Hin.
    destruct Hin as [_ ->]. discriminate Hrel.
  - destruct (VALIDATE_DATA_FRESHNESS cfg); [| exact Hin].
    rewrite (proj1 (lines_freshness cfg utcnow df)) in Hin.
    destruct (Qltb _ _); [| exact Hin].
    destruct Hin as [<- | []]. discriminate Hrel.
Qed.

Ltac pick_disjunct :=
  first [ solve [split; [assumption | reflexivity]]
        | solve [left; split; [assumption | reflexivity]]
        | right; pick_disjunct ].

Ltac relational_case :=
  split;
  [ intros [Hon Hin];
    repeat (destruct Hin as [[Hpos Heq] | Hin];
            [try discriminate Heq; injection Heq as ->; solve [auto] |]);
    destruct Hin as [Hpos Heq]; try discriminate Heq;
    injection Heq as ->; solve [auto]
  | intros [[Hon Hpos] ->]; split; [exact Hon | pick_disjunct] ].

(** X8. One error line per violated relation, with the number of bars that
    violate it. For a frame that passes the structural checks and every
    report the validator returns on it, the line of a relation (High < Low,
    High < Open, High < Close, Low > Open, Low > Close) with count [n] is in
    the report exactly when the relational check is enabled, [n] is not zero
    and [n] is the number of bars violating that relation; the other checks
    never add or remove such a line. *)
Theorem relational_line_iff_violations
    (cfg : Config) (utcnow : Z) (df : DataFrame) (n : nat)
    (report : DataValidationReport.t) :
  df_empty df = false ->
  has_required_columns df = true ->
  _validate_ohlc_data cfg utcnow df = Ok report ->
  let errs := DataValidationReport.errors report in
  let on := VALIDATE_OHLC_RELATIONSHIPS cfg = true /\ (0 < n)%nat in
  (In (MsgHighLtLow n) errs
   <-> on /\ n = count_where (fun b => flt (high b) (low b)) df)
  /\ (In (MsgHighLtOpen n) errs
      <-> on /\ n = count_where (fun b => flt (high b) (open b)) df)
  /\ (In (MsgHighLtClose n) errs
      <-> on /\ n = count_where (fun b => flt (high b) (close b)) df)
  /\ (In (MsgLowGtOpen n) errs
      <-> on /\ n = count_where (fun b => fgt (low b) (open b)) df)
  /\ (In (MsgLowGtClose n) errs
      <-> on /\ n = count_where (fun b => fgt (low b) (close b)) df).
Proof.
  intros He Hc Hret errs on. subst errs on.
  rewrite (proj1 (validate_lines cfg utcnow df report He Hc Hret)).
  assert (Hsplit : forall m, is_relational m = true ->
            (In m ((if VALIDATE_OHLC_RELATIONSHIPS cfg
                    then DataValidationReport.errors
                           (check_relationships df DataValidationReport.init)
                    else [])
                   ++ (if VALIDATE_NO_NAN_VALUES cfg
                       then DataValidationReport.errors
                              (check_nan_values df DataValidationReport.init)
                       else [])
                   ++ (if VALIDATE_VOLUME_POSITIVE cfg
                       then DataValidationReport.errors
                              (check_volume df DataValidationReport.init) else [])
                   ++ (if VALIDATE_NO_DUPLICATES cfg
                       then DataValidationReport.errors
                              (check_duplicates df DataValidationReport.init)
                       else [])
                   ++ (if VALIDATE_DATA_FRESHNESS cfg
                       then DataValidationReport.errors
                              (check_age cfg (age_seconds utcnow df)
                                               DataValidationReport.init)
                       else []))
             <-> VALIDATE_OHLC_RELATIONSHIPS cfg = true
                 /\ In m (DataValidationReport.errors
                            (check_relationships df DataValidationReport.init)))).
  { intros m Hm. rewrite in_app_iff. split.
    - intros [Hin | Hin].
      + destruct (VALIDATE_OHLC_RELATIONSHIPS cfg); [auto | destruct Hin].
      + exfalso. exact (later_lines_not_relational cfg utcnow df m Hm Hin).
    - intros [-> Hin]. left. exact Hin. }
  rewrite !Hsplit by reflexivity.
  rewrite errors_relationships, !in_app_iff, !In_line_if.
  split; [| split; [| split; [| split]]]; relational_case.
Qed.

Lemma relational_line_iff_violations_witness :
  _validate_ohlc_data sample_config 0 scenario_frame = Ok scenario_report
  /\ (In (MsgHighLtLow 1) (DataValidationReport.errors scenario_report)
      <-> (VALIDATE_OHLC_RELATIONSHIPS sample_config = true /\ (0 < 1)%nat)
          /\ 1%nat = count_where (fun b => flt (high b) (low b)) scenario_frame).
Proof.
  split; [reflexivity|].
  destruct (relational_line_iff_violations sample_config 0 scenario_frame 1
              scenario_report)
    as (H & _); [reflexivity | reflexivity | reflexivity | exact H].
Defined.

Lemma freshness_none (cfg : Config) (utcnow : Z) (df : DataFrame) :
  DataValidationReport.errors
    (check_age cfg (age_seconds utcnow df) DataValidationReport.init) = []
  <-> (DATA_FRESHNESS_MIN_AGE_SECONDS cfg <= age_seconds utcnow df)%Q.
Proof.
  rewrite (proj1 (lines_freshness cfg utcnow df)).
  destruct (Qltb _ _) eqn:Hlt.
  - apply Qltb_lt in Hlt. split; [discriminate | intros Hle; lra].
  - apply Qltb_ge in Hlt. split; [intros _; exact Hlt | reflexivity].
Qed.

Lemma guarded_nil (flag : bool) (lines : list message) :
  (if flag then lines else []) = [] <-> (flag = true -> lines = []).
Proof.
  destruct flag; split; auto. discriminate.
Qed.

(** X9. What a valid report guarantees, and what it takes. For a frame that
    passes the structural checks the validator raises TypeError exactly when
    the freshness check is enabled and the instants carry a time zone, the
    naive [utcnow()] then meeting an aware timestamp in the subtraction;
    otherwise it returns a report, and that report is valid exactly when
    every enabled check finds nothing: no bar violates one of the five
    relations; no value is NaN and no price infinite; no volume is negative;
    no two bars have the same timestamp; the latest bar is not younger than
    the minimum age. A check that is disabled guarantees nothing, and
    staleness does not enter. *)
Theorem valid_iff_checks_pass (cfg : Config) (utcnow : Z) (df : DataFrame) :
  df_empty df = false ->
  has_required_columns df = true ->
  match _validate_ohlc_data cfg utcnow df with
  | Raise e =>
      e = TypeError
      /\ VALIDATE_DATA_FRESHNESS cfg = true /\ tz_aware df = true
  | Ok report =>
      (VALIDATE_DATA_FRESHNESS cfg = true -> tz_aware df = false)
      /\ (DataValidationReport.is_valid report = true
          <-> (VALIDATE_OHLC_RELATIONSHIPS cfg = true ->
               forallb bar_relations_hold (rows df) = true)
              /\ (VALIDATE_NO_NAN_VALUES cfg = true ->
                  forallb bar_values_present (rows df) = true)
              /\ (VALIDATE_VOLUME_POSITIVE cfg = true ->
                  forallb bar_volume_not_negative (rows df) = true)
              /\ (VALIDATE_NO_DUPLICATES cfg = true ->
                  NoDup (List.map timestamp (rows df)))
              /\ (VALIDATE_DATA_FRESHNESS cfg = true ->
                  (DATA_FRESHNESS_MIN_AGE_SECONDS cfg
                   <= age_seconds utcnow df)%Q))
  end.
Proof.
  intros He Hc.
  pose proof (validate_unfold cfg utcnow df He Hc) as Hunfold.
  destruct (_validate_ohlc_data cfg utcnow df) as [report|e] eqn:Hret.
  - split.
    + unfold freshness_raises in Hunfold. intros Hfresh.
      rewrite Hfresh in Hunfold. simpl in Hunfold.
      destruct (tz_aware df); [discriminate | reflexivity].
    + destruct (validate_coherent cfg utcnow df report Hret) as [Hvalid Hnone].
      rewrite <- relationships_none, <- nan_values_none, <- volume_none,
        <- duplicates_none, <- (freshness_none cfg utcnow df), <- !guarded_nil.
      rewrite <- !app_nil,
        <- (proj1 (validate_lines cfg utcnow df report He Hc Hret)).
      split; [exact Hvalid | exact Hnone].
  - unfold freshness_raises in Hunfold.
    destruct (VALIDATE_DATA_FRESHNESS cfg); simpl in Hunfold; [| discriminate].
    destruct (tz_aware df); [| discriminate].
    injection Hunfold as ->. repeat split.
Qed.

Lemma valid_iff_checks_pass_witness :
  _validate_ohlc_data strict_config three_minutes clean_frame
  = Ok (add_statistics clean_frame DataValidationReport.init)
  /\ (VALIDATE_OHLC_RELATIONSHIPS strict_config = true ->
      forallb bar_relations_hold (rows clean_frame) = true)
  /\ (VALIDATE_DATA_FRESHNESS strict_config = true ->
      (DATA_FRESHNESS_MIN_AGE_SECONDS strict_config
       <= age_seconds three_minutes clean_frame)%Q).
Proof.
  pose proof (valid_iff_checks_pass strict_config three_minutes clean_frame
                eq_refl eq_refl) as H.
  split; [reflexivity|].
  simpl in H. destruct H as (_ & H).
  destruct (proj1 H eq_refl) as (Hrel & _ & _ & _ & Hfresh).
  split; [exact Hrel | exact Hfresh].
Defined.

(** X10. A stale frame is still valid: the only warning a report of the
    validator ever carries is the stale line, carried exactly when the
    freshness check is enabled and the latest bar is older than the maximum
    age; a report has at most that one warning. A report with the freshness
    check enabled is a report on instants without a zone: on the others the
    check raises before it warns. *)
Theorem warnings_only_stale
    (cfg : Config) (utcnow : Z) (df : DataFrame)
    (report : DataValidationReport.t) :
  df_empty df = false ->
  has_required_columns df = true ->
  _validate_ohlc_data cfg utcnow df = Ok report ->
  (VALIDATE_DATA_FRESHNESS cfg = true -> tz_aware df = false)
  /\ DataValidationReport.warnings report
     = if VALIDATE_DATA_FRESHNESS cfg
          && Qltb (DATA_FRESHNESS_MAX_AGE_SECONDS cfg) (age_seconds utcnow df)
       then [MsgStale (age_seconds utcnow df)]
       else [].
Proof.
  intros He Hc Hret. split.
  - destruct (validate_returns cfg utcnow df report He Hc Hret) as (Hno & _).
    unfold freshness_raises in Hno. intros Hfresh. rewrite Hfresh in Hno.
    exact Hno.
  - rewrite (proj2 (validate_lines cfg utcnow df report He Hc Hret)).
    destruct (VALIDATE_DATA_FRESHNESS cfg); [| reflexivity].
    rewrite (proj2 (lines_freshness cfg utcnow df)). reflexivity.
Qed.

Lemma warnings_only_stale_witness :
  exists report,
    _validate_ohlc_data strict_config one_hour clean_frame = Ok report
    /\ DataValidationReport.warnings report
       = [MsgStale (age_seconds one_hour clean_frame)]
    /\ DataValidationReport.is_valid report = true.
Proof.
  eexists. split; [reflexivity|].
  split; [| reflexivity].
  destruct (warnings_only_stale strict_config one_hour clean_frame _
              eq_refl eq_refl eq_refl) as (_ & H).
  exact H.
Defined.

(** ** Duplicate timestamps *)

Lemma duplicated_count_distinct (ts : list Z) :
  forall seen,
    (duplicated_count seen ts + size (list_to_set (seen ++ ts) : gset Z)
     = length ts + size (list_to_set seen : gset Z))%nat.
Proof.
  induction ts as [|t ts IH]; intros seen.
  - simpl. rewrite app_nil_r. reflexivity.
  - cbn [duplicated_count length].
    specialize (IH (t :: seen)).
    assert (Hset : (list_to_set (seen ++ t :: ts) : gset Z)
                   = list_to_set ((t :: seen) ++ ts)).
    { apply set_eq. intros u. rewrite !elem_of_list_to_set. simpl.
      rewrite !elem_of_app, !elem_of_cons, elem_of_app. tauto. }
    rewrite Hset.
    destruct (existsb (Z.eqb t) seen) eqn:Hseen.
    + apply existsb_eqb_elem in Hseen.
      assert (Hsame : (list_to_set (t :: seen) : gset Z) = list_to_set seen).
      { apply set_eq. intros u. rewrite !elem_of_list_to_set, elem_of_cons.
        split; [intros [-> | H]; assumption | auto]. }
      rewrite Hsame in IH. lia.
    + apply not_true_iff_false in Hseen. rewrite existsb_eqb_elem in Hseen.
      assert (Hmore : size (list_to_set (t :: seen) : gset Z)
                      = S (size (list_to_set seen : gset Z))).
      { simpl. rewrite size_union, size_singleton; [reflexivity|].
        apply disjoint_singleton_l. rewrite elem_of_list_to_set. exact Hseen. }
      rewrite Hmore in IH. lia.
Qed.

(** X11. The count of the duplicate check is the number of rows minus the
    number of distinct timestamps: every occurrence of a timestamp after its
    first is counted once, wherever it stands in the frame. *)
Theorem duplicates_are_rows_minus_distinct (ts : list Z) :
  (duplicated_count [] ts + size (list_to_set ts : gset Z) = length ts)%nat.
Proof.
  pose proof (duplicated_count_distinct ts []) as H.
  change ([] ++ ts) with ts in H.
  assert (Hnone : size (list_to_set [] : gset Z) = 0%nat) by apply size_empty.
  rewrite Hnone in H. lia.
Qed.

(** ** Sorting by timestamp *)

Lemma insert_by_timestamp_perm (b : Bar) (sorted : list Bar) :
  insert_by_timestamp b sorted ≡ₚ b :: sorted.
Proof.
  induction sorted as [|c rest IH]; [reflexivity|]. simpl.
  destruct (timestamp b <? timestamp c); [reflexivity|].
  rewrite IH. apply Permutation_swap.
Qed.

Lemma insert_by_timestamp_sorted (b : Bar) (sorted : list Bar) :
  Sorted not_later sorted -> Sorted not_later (insert_by_timestamp b sorted).
Proof.
  induction sorted as [|c rest IH]; intros Hsorted.
  - repeat constructor.
  - simpl. destruct (Z.ltb_spec (timestamp b) (timestamp c)) as [Hlt | Hge].
    + constructor; [exact Hsorted|]. constructor. unfold not_later. lia.
    + inversion Hsorted as [|? ? Hrest Hhd]. subst.
      constructor; [apply IH, Hrest|].
      destruct rest as [|d rest']; simpl.
      * constructor. exact Hge.
      * destruct (timestamp b <? timestamp d); constructor;
          [exact Hge | inversion Hhd; assumption].
Qed.

Lemma sort_values_perm (bars : list Bar) : sort_values bars ≡ₚ bars.
Proof.
  induction bars as [|b bars IH]; [reflexivity|].
  unfold sort_values. simpl. fold (sort_values bars).
  rewrite insert_by_timestamp_perm, IH. reflexivity.
Qed.

Lemma sort_values_sorted (bars : list Bar) : Sorted not_later (sort_values bars).
Proof.
  induction bars as [|b bars IH]; [constructor|].
  unfold sort_values. simpl. fold (sort_values bars).
  apply insert_by_timestamp_sorted, IH.
Qed.

(** X12. Sorting neither drops nor invents a row and leaves the bars in
    ascending order of timestamp: the result of [sort_values] is a
    permutation of its input, of the same length, and each bar is not later
    than the next. *)
Theorem sort_values_sorted_permutation (bars : list Bar) :
  sort_values bars ≡ₚ bars
  /\ length (sort_values bars) = length bars
  /\ Sorted not_later (sort_values bars).
Proof.
  split; [apply sort_values_perm|].
  split; [rewrite sort_values_perm; reflexivity | apply sort_values_sorted].
Qed.

(** ** More on fetch_ohlc *)

Lemma steady_ret {A} (a : A) : steady (ret a).
Proof. intros self w. split; reflexivity. Qed.

Lemma steady_raise {A} (e : exn) : steady (@raise A e).
Proof. intros self w. split; reflexivity. Qed.

Lemma steady_bind {A B} (m : M A) (k : A -> M B) :
  steady m -> (forall a, steady (k a)) -> steady (bind m k).
Proof.
  intros Hm Hk self w. unfold bind.
  destruct (Hm self w) as (H1 & H2).
  destruct (m self w) as [[[a|e] self1] w1]; unfold self_of in *; simpl in *.
  - destruct (Hk a self1 w1) as (K1 & K2). unfold self_of in *.
    split; congruence.
  - auto.
Qed.

Lemma steady_try_except {A} (body : M A) (handler : exn -> M A) :
  steady body -> (forall e, steady (handler e)) -> steady (try_except body handler).
Proof.
  intros Hm Hk self w. unfold try_except.
  destruct (Hm self w) as (H1 & H2).
  destruct (body self w) as [[[a|e] self1] w1]; unfold self_of in *; simpl in *.
  - auto.
  - destruct (Hk e self1 w1) as (K1 & K2). unfold self_of in *.
    split; congruence.
Qed.

Lemma steady_if {A} (b : bool) (m1 m2 : M A) :
  steady m1 -> steady m2 -> steady (if b then m1 else m2).
Proof. destruct b; auto. Qed.

Lemma steady_pure {A} (f : Fetcher -> World -> outcome A * World) :
  steady (fun self w => (fst (f self w), self, snd (f self w))).
Proof. intros self w. split; reflexivity. Qed.

Lemma steady_monotonic : steady monotonic.
Proof. intros self w. split; reflexivity. Qed.

Lemma steady_get_world : steady get_world.
Proof. intros self w. split; reflexivity. Qed.

Lemma steady_get_self : steady get_self.
Proof. intros self w. split; reflexivity. Qed.

Lemma steady_alloc (df : DataFrame) : steady (alloc df).
Proof. intros self w. split; reflexivity. Qed.

Lemma steady_sleep (d : Q) : steady (sleep d).
Proof. unfold sleep. destruct (Qltb d 0); intros self w; split; reflexivity. Qed.

Lemma steady_modify_self (f : Fetcher -> Fetcher) :
  (forall self, instrument (f self) = instrument self
                /\ cache_stats (f self) = cache_stats self) ->
  steady (modify_self f).
Proof. intros Hf self w. apply Hf. Qed.

Lemma steady_timed {A} (method : Q -> Fetcher -> A * Fetcher) :
  (forall now self, instrument (snd (method now self)) = instrument self
                    /\ cache_stats (snd (method now self)) = cache_stats self) ->
  steady (timed method).
Proof.
  intros Hf self w. unfold timed. specialize (Hf (clock w) self).
  destruct (method (clock w) self) as [a self1]. exact Hf.
Qed.

Create HintDb steady.
#[export] Hint Resolve steady_ret steady_raise steady_monotonic steady_get_world
  steady_get_self steady_alloc steady_sleep : steady.
#[export] Hint Extern 2 (steady (bind _ _)) => apply steady_bind; [| intros ?] : steady.
#[export] Hint Extern 2 (steady (if _ then _ else _)) => apply steady_if : steady.
#[export] Hint Extern 2 (steady (modify_self _)) =>
  apply steady_modify_self; intros []; split; reflexivity : steady.

Section FetchSteady.

Variable cfg : Config.
Variable env : Env.

Lemma steady_breaker_record_failure : steady breaker_record_failure.
Proof.
  unfold breaker_record_failure. apply steady_bind; [auto with steady|].
  intros now. apply steady_modify_self. intros self.
  destruct (circuit_breaker self); split; reflexivity.
Qed.

Lemma steady_breaker_record_success : steady breaker_record_success.
Proof.
  unfold breaker_record_success. apply steady_modify_self. intros self.
  destruct (circuit_breaker self); split; reflexivity.
Qed.

Lemma steady_breaker_blocks : steady breaker_blocks.
Proof.
  unfold breaker_blocks. apply steady_timed. intros now self.
  destruct (circuit_breaker self) as [b|]; [| split; reflexivity].
  destruct (CircuitBreaker.can_attempt now b). split; reflexivity.
Qed.

Lemma steady_backoff_delay (attempt : Z) (is_rate_limit : bool) :
  steady (backoff_delay cfg env attempt is_rate_limit).
Proof.
  unfold backoff_delay.
  destruct (YFINANCE_RETRY_JITTER_ENABLED cfg); [| apply steady_ret].
  intros self w. split; reflexivity.
Qed.

Lemma steady_history (period interval : string) :
  steady (history env period interval).
Proof.
  intros self w. unfold history.
  destruct (result _); split; reflexivity.
Qed.

Lemma steady_select_required (df : DataFrame) : steady (select_required df).
Proof.
  unfold select_required. destruct (List.filter _ _); auto with steady.
Qed.

Lemma steady_update_cache (df : loc) (period interval : string) (passed : bool) :
  steady (update_cache df period interval passed).
Proof.
  unfold update_cache, copy. auto 10 with steady.
Qed.

Lemma steady_handler (attempt : Z) (is_rate_limited : bool) (e : exn) :
  steady (handler cfg env attempt is_rate_limited e).
Proof.
  pose proof steady_breaker_record_failure.
  pose proof steady_backoff_delay.
  unfold handler. auto 12 with steady.
Qed.

Lemma steady_attempt_body (period interval : string) (validate : bool)
    (attempt : Z) (is_rate_limited : bool) :
  steady (attempt_body cfg env period interval validate attempt is_rate_limited).
Proof.
  pose proof steady_breaker_record_failure.
  pose proof steady_breaker_record_success.
  pose proof steady_backoff_delay.
  pose proof steady_history.
  pose proof steady_select_required.
  pose proof steady_update_cache.
  unfold attempt_body. auto 20 with steady.
Qed.

Lemma steady_retry_loop (period interval : string) (validate : bool)
    (remaining : nat) :
  forall (attempt : Z) (is_rate_limited : bool),
    steady (retry_loop cfg env period interval validate remaining attempt
                       is_rate_limited).
Proof.
  induction remaining as [|remaining IH]; intros attempt rl.
  - apply steady_ret.
  - cbn [retry_loop]. apply steady_bind.
    + apply steady_try_except;
        [apply steady_attempt_body | intros e; apply steady_handler].
    + intros [value | rl']; [apply steady_ret | apply IH].
Qed.

End FetchSteady.

Section FetchedFacts.

Variable cfg : Config.
Variable env : Env.

Lemma filter_nil_forallb (p : string -> bool) (cols : list string) :
  List.filter (fun col => negb (p col)) cols = [] -> forallb p cols = true.
Proof.
  induction cols as [|c cols IH]; [reflexivity|]. simpl.
  destruct (p c); simpl; [exact IH | discriminate].
Qed.

Lemma attempt_body_fetched (period interval : string) (validate : bool)
    (attempt : Z) (is_rate_limited : bool) (self : Fetcher) (w : World)
    (l : loc) (report : DataValidationReport.t) :
  let x := attempt_body cfg env period interval validate attempt
                        is_rate_limited self w in
  outcome_of x = Ok (Return (Some l, report)) ->
  fetched cfg env period interval self w l report (self_of x) (world_of x).
Proof.
  unfold attempt_body, bind, monotonic, history.
  destruct (result (provider env (provider_calls w) (instrument self)
                             period interval)) as [msg | frame] eqn:Hresult;
    [discriminate|].
  destruct (df_empty (raw frame)) eqn:Hempty.
  { unfold backoff_delay, sleep, breaker_record_failure, bind,
      monotonic, modify_self, modify_world, ret, raise, outcome_of.
    repeat match goal with
           | |- context [if ?b then _ else _] => destruct b; simpl
           end; discriminate. }
  destruct (has_column _ "datetime" || has_column _ "date") eqn:Hdate.
  2: { unfold breaker_record_failure, bind, monotonic, modify_self, ret,
         outcome_of. simpl. discriminate. }
  unfold select_required.
  destruct (List.filter _ required_cols) as [|col missing] eqn:Hmissing;
    [| discriminate].
  apply filter_nil_forallb in Hmissing.
  assert (Hshape : well_shaped frame = true).
  { unfold well_shaped. cbv zeta. rewrite Hdate, Hmissing. reflexivity. }
  unfold lift, ret. cbv beta iota.
  destruct (_validate_ohlc_data cfg _ _) as [report0|e] eqn:Hval;
    [| discriminate].
  unfold fetched, update_cache, copy, alloc, get_world, bind, monotonic,
    breaker_record_success, modify_self, ret, outcome_of, world_of, self_of.
  destruct self as [inst entry0 stats breaker backoff until last].
  simpl in Hresult.
  destruct (YFINANCE_CACHE_ENABLED cfg) eqn:Henabled; destruct breaker as [b0|];
    simpl; intros [= <- <-];
    (split; [| split; [| split]]);
    try (exists (provider_calls w), frame;
         split; [lia|]; split; [exact Hresult|]; split; [exact Hempty|];
         split; [exact Hshape|]; split; [| exact Hval];
         rewrite <- ?app_assoc; apply list_lookup_total_middle; reflexivity);
    try (intros b Hb; first [discriminate Hb | injection Hb as <-; split; reflexivity]);
    try reflexivity;
    try discriminate.
  all: intros _; eexists; split; [reflexivity|]; simpl.
  all: split; [| repeat split; reflexivity].
  all: match goal with
       | |- (?h ++ [?x]) !!! length ?h = _ =>
           transitivity x;
           [ apply list_lookup_total_middle; reflexivity
           | symmetry; apply lookup_total_app_l; rewrite length_app; simpl; lia ]
       end.
Qed.

Lemma fetched_transfer (period interval : string) (self0 self : Fetcher)
    (w0 w : World) (l : loc) (report : DataValidationReport.t)
    (self' : Fetcher) (w' : World) :
  instrument self = instrument self0 ->
  (provider_calls w0 <= provider_calls w)%nat ->
  fetched cfg env period interval self w l report self' w' ->
  fetched cfg env period interval self0 w0 l report self' w'.
Proof.
  intros Hinst Hcalls ((n & frame & Hn & Hrest) & Hothers).
  split; [| exact Hothers].
  exists n, frame. rewrite <- Hinst. split; [lia | exact Hrest].
Qed.

Lemma one_attempt_fetched (period interval : string) (validate : bool)
    (attempt : Z) (is_rate_limited : bool) (self : Fetcher) (w : World)
    (l : loc) (report : DataValidationReport.t) :
  let x := one_attempt cfg env period interval validate attempt
                       is_rate_limited self w in
  outcome_of x = Ok (Return (Some l, report)) ->
  fetched cfg env period interval self w l report (self_of x) (world_of x).
Proof.
  unfold one_attempt, try_except.
  pose proof (attempt_body_fetched period interval validate attempt
                                   is_rate_limited self w l report) as Hbody.
  destruct (attempt_body cfg env period interval validate attempt
                         is_rate_limited self w) as [[[next|e] self1] w1];
    [exact Hbody|].
  pose proof (handler_falls_through cfg env attempt is_rate_limited e self1 w1)
    as Hfall.
  cbv zeta. intros Hout. rewrite Hout in Hfall. contradiction.
Qed.

Lemma retry_loop_fetched (period interval : string) (validate : bool)
    (remaining : nat) :
  forall (attempt : Z) (is_rate_limited : bool) (self : Fetcher) (w : World)
         (l : loc) (report : DataValidationReport.t),
    let x := retry_loop cfg env period interval validate remaining attempt
                        is_rate_limited self w in
    outcome_of x = Ok (Some l, report) ->
    fetched cfg env period interval self w l report (self_of x) (world_of x).
Proof.
  induction remaining as [|remaining IH]; intros attempt rl self w l report.
  - simpl. discriminate.
  - cbn [retry_loop]. fold (one_attempt cfg env period interval validate attempt rl).
    unfold bind.
    pose proof (one_attempt_fetched period interval validate attempt rl self w)
      as Hone.
    pose proof (one_attempt_spec cfg env period interval validate attempt rl self w)
      as (Hcalls & _).
    pose proof (steady_try_except _ _
                  (steady_attempt_body cfg env period interval validate attempt rl)
                  (steady_handler cfg env attempt rl) self w) as (Hinst & _).
    fold (one_attempt cfg env period interval validate attempt rl) in Hinst.
    destruct (one_attempt cfg env period interval validate attempt rl self w)
      as [[[[value|rl']|e] self1] w1];
      unfold outcome_of, world_of, self_of in Hone, Hcalls, Hinst;
      simpl in Hone, Hcalls, Hinst.
    + cbv zeta. unfold ret, outcome_of, world_of, self_of. simpl.
      intros [= ->]. apply Hone. reflexivity.
    + cbv zeta. intros Hout.
      apply (fetched_transfer period interval self self1 w w1);
        [exact Hinst | lia | apply IH, Hout].
    + cbv zeta. discriminate.
Qed.

Lemma should_use_cache_instrument (now : Q) (self : Fetcher) :
  instrument (snd (_should_use_cache cfg now self)) = instrument self.
Proof.
  unfold _should_use_cache, _is_cache_valid, count_miss, count_hit.
  destruct self as [inst [entry|] stats breaker backoff until last]; simpl;
    destruct (YFINANCE_CACHE_ENABLED cfg); simpl; try reflexivity.
  destruct (Qltb _ _); simpl; try reflexivity.
  destruct (YFINANCE_CACHE_VALIDATION cfg && _); reflexivity.
Qed.

(** A run of [fetch_ohlc] that hands back a frame and called the provider. *)
Lemma fetch_ohlc_fetched (period interval : string) (use_cache validate : bool)
    (self : Fetcher) (w : World) (l : loc) (report : DataValidationReport.t) :
  let x := fetch_ohlc cfg env period interval use_cache validate self w in
  outcome_of x = Ok (Some l, report) ->
  provider_calls (world_of x) <> provider_calls w ->
  fetched cfg env period interval self w l report (self_of x) (world_of x).
Proof.
  unfold fetch_ohlc, bind.
  pose proof (steady_breaker_blocks self w) as (Hinst1 & _).
  destruct (breaker_blocks_run self w) as (blocked & self1 & Hrun & _).
  rewrite Hrun in Hinst1 |- *. unfold self_of in Hinst1. simpl in Hinst1.
  destruct blocked; [discriminate|].
  unfold get_self, monotonic.
  destruct (Qltb (clock w) (rate_limit_until self1)); [discriminate|].
  assert (Hloop : forall self2, instrument self2 = instrument self ->
            let x := retry_loop cfg env period interval validate
                       (Z.to_nat (YFINANCE_RETRY_ATTEMPTS cfg)) 1 false self2 w in
            outcome_of x = Ok (Some l, report) ->
            fetched cfg env period interval self w l report
                    (self_of x) (world_of x)).
  { intros self2 Hinst2 x Hout.
    apply (fetched_transfer period interval self self2 w w);
      [exact Hinst2 | lia | apply retry_loop_fetched, Hout]. }
  destruct use_cache; [| intros Hout _; apply Hloop; assumption].
  unfold timed.
  pose proof (should_use_cache_instrument (clock w) self1) as Hinst2.
  destruct (_should_use_cache cfg (clock w) self1) as [hit self2] eqn:Huse.
  simpl in Hinst2.
  destruct hit.
  - pose proof (should_use_cache_answer cfg (clock w) self1) as Hans.
    rewrite Huse in Hans. simpl in Hans. symmetry in Hans.
    rewrite (should_use_cache_hit cfg (clock w) self1 Hans) in Huse.
    injection Huse as <-.
    apply should_hit_usable in Hans. destruct Hans as (_ & entry & Hentry & _).
    rewrite (read_cache_run _ w _ (count_hit_cache self1 entry Hentry)).
    cbv zeta. unfold world_of. simpl. intros _ Hne. contradiction.
  - intros Hout _. apply Hloop; [congruence | exact Hout].
Qed.

End FetchedFacts.

(** X13. What a newly fetched frame is. Whenever [fetch_ohlc] hands back a
    frame and has called the provider, some call of this run was answered
    with a frame, and the frame handed back has exactly the six canonical
    columns and the rows of that answer, none dropped and none added, in
    ascending order of timestamp, with the zone and the volume dtype of the
    answer; the report is the report the validator returned on that very
    frame, whether it is valid or not. *)
Theorem fetched_frame_is_normal_form
    (cfg : Config) (env : Env) (period interval : string)
    (use_cache validate : bool) (self : Fetcher) (w : World)
    (l : loc) (report : DataValidationReport.t) :
  let x := fetch_ohlc cfg env period interval use_cache validate self w in
  outcome_of x = Ok (Some l, report) ->
  provider_calls (world_of x) <> provider_calls w ->
  exists n frame,
    (provider_calls w <= n < provider_calls (world_of x))%nat
    /\ result (provider env n (instrument self) period interval) = Returns frame
    /\ columns (heap (world_of x) !!! l) = required_cols
    /\ rows (heap (world_of x) !!! l) ≡ₚ rows (raw frame)
    /\ Sorted not_later (rows (heap (world_of x) !!! l))
    /\ tz_aware (heap (world_of x) !!! l) = tz_aware (raw frame)
    /\ volume_dtype (heap (world_of x) !!! l) = volume_dtype (raw frame)
    /\ _validate_ohlc_data cfg (utcnow env (clock (world_of x)))
                           (heap (world_of x) !!! l)
       = Ok report.
Proof.
  intros x Hout Hcalls.
  destruct (fetch_ohlc_fetched cfg env period interval use_cache validate
                               self w l report Hout Hcalls)
    as ((n & frame & Hn & Hresult & _ & _ & Hframe & Hreport) & _).
  exists n, frame. fold x in Hframe. rewrite Hframe.
  split; [exact Hn|]. split; [exact Hresult|]. split; [reflexivity|].
  split; [apply sort_values_perm|]. split; [apply sort_values_sorted|].
  split; [reflexivity|]. split; [reflexivity|].
  exact Hreport.
Qed.

Lemma fetched_frame_is_normal_form_witness :
  exists n frame,
    (0 <= n < provider_calls (world_of first_fetch))%nat
    /\ result (provider serving_env n "NQ=F" "1d" "1m") = Returns frame
    /\ columns (heap (world_of first_fetch) !!! 0%nat) = required_cols
    /\ rows (heap (world_of first_fetch) !!! 0%nat) ≡ₚ rows (raw frame)
    /\ Sorted not_later (rows (heap (world_of first_fetch) !!! 0%nat))
    /\ tz_aware (heap (world_of first_fetch) !!! 0%nat) = tz_aware (raw frame)
    /\ volume_dtype (heap (world_of first_fetch) !!! 0%nat)
       = volume_dtype (raw frame)
    /\ _validate_ohlc_data sample_config
         (utcnow serving_env (clock (world_of first_fetch)))
         (heap (world_of first_fetch) !!! 0%nat)
       = Ok scenario_report.
Proof.
  apply (fetched_frame_is_normal_form sample_config serving_env "1d" "1m"
           true true (Fetcher_init sample_config "NQ=F") (mkWorld 0 [] 0 0)).
  - reflexivity.
  - vm_compute. discriminate.
Defined.

(** X14. What a successful fetch leaves behind. Whenever [fetch_ohlc] hands
    back a frame and has called the provider: the breaker, if there is one,
    is closed with no failure counted; the instant of the last fetch is the
    clock at the end of the run; and with caching enabled the entry is
    replaced, whether or not the caller asked to use the cache and whether or
    not the frame is valid: the new entry holds a copy of the frame, belongs
    to the period and interval asked, was created at the end of the run, has
    no hit yet, and its validation flag is [is_valid] of the report. *)
Theorem successful_fetch_state
    (cfg : Config) (env : Env) (period interval : string)
    (use_cache validate : bool) (self : Fetcher) (w : World)
    (l : loc) (report : DataValidationReport.t) :
  let x := fetch_ohlc cfg env period interval use_cache validate self w in
  outcome_of x = Ok (Some l, report) ->
  provider_calls (world_of x) <> provider_calls w ->
  (forall b, circuit_breaker (self_of x) = Some b ->
     CircuitBreaker.failure_count b = 0 /\ CircuitBreaker.is_open b = false)
  /\ last_fetch_time (self_of x) = Some (clock (world_of x))
  /\ (YFINANCE_CACHE_ENABLED cfg = true ->
      exists entry,
        cache (self_of x) = Some entry
        /\ heap (world_of x) !!! CacheEntry.data entry = heap (world_of x) !!! l
        /\ CacheEntry.metadata entry = (period, interval)
        /\ CacheEntry.creation_time entry = clock (world_of x)
        /\ CacheEntry.hit_count entry = 0
        /\ CacheEntry.validation_passed entry
           = DataValidationReport.is_valid report).
Proof.
  intros x Hout Hcalls.
  destruct (fetch_ohlc_fetched cfg env period interval use_cache validate
                               self w l report Hout Hcalls)
    as (_ & Hbreaker & Hlast & Hcache).
  split; [exact Hbreaker|]. split; [exact Hlast | exact Hcache].
Qed.

Lemma successful_fetch_state_witness :
  last_fetch_time (self_of first_fetch) = Some (clock (world_of first_fetch))
  /\ option_map CacheEntry.validation_passed (cache (self_of first_fetch))
     = Some false
  /\ option_map CircuitBreaker.is_open (circuit_breaker (self_of first_fetch))
     = Some false.
Proof.
  destruct (successful_fetch_state sample_config serving_env "1d" "1m"
              true true (Fetcher_init sample_config "NQ=F") (mkWorld 0 [] 0 0)
              0%nat
              scenario_report)
    as (_ & Hlast & _).
  - reflexivity.
  - vm_compute. discriminate.
  - split; [exact Hlast|]. split; reflexivity.
Defined.

Section FetchCounts.

Variable cfg : Config.
Variable env : Env.

Lemma retry_loop_calls (period interval : string) (validate : bool)
    (remaining : nat) :
  forall (attempt : Z) (is_rate_limited : bool) (self : Fetcher) (w : World),
    (provider_calls
       (world_of (retry_loop cfg env period interval validate remaining attempt
                             is_rate_limited self w))
     <= provider_calls w + remaining)%nat.
Proof.
  induction remaining as [|remaining IH]; intros attempt rl self w.
  - simpl. unfold world_of. simpl. lia.
  - cbn [retry_loop]. fold (one_attempt cfg env period interval validate attempt rl).
    unfold bind.
    pose proof (one_attempt_spec cfg env period interval validate attempt rl self w)
      as (Hcalls & _).
    destruct (one_attempt cfg env period interval validate attempt rl self w)
      as [[[[value|rl']|e] self1] w1];
      unfold world_of in Hcalls |- *; simpl in Hcalls |- *; try lia.
    specialize (IH (attempt + 1) rl' self1 w1). unfold world_of in IH. lia.
Qed.

Lemma should_use_cache_stats (now : Q) (self : Fetcher) :
  let s := cache_stats self in
  let s' := cache_stats (snd (_should_use_cache cfg now self)) in
  CacheStatistics.evictions s' = CacheStatistics.evictions s
  /\ CacheStatistics.invalidations s <= CacheStatistics.invalidations s'
     <= CacheStatistics.invalidations s + 1
  /\ (if fst (_should_use_cache cfg now self)
      then CacheStatistics.hits s' = CacheStatistics.hits s + 1
           /\ CacheStatistics.misses s' = CacheStatistics.misses s
           /\ CacheStatistics.invalidations s' = CacheStatistics.invalidations s
      else CacheStatistics.hits s' = CacheStatistics.hits s
           /\ CacheStatistics.misses s' = CacheStatistics.misses s + 1).
Proof.
  unfold _should_use_cache, _is_cache_valid, count_miss, count_hit.
  destruct self as [inst [entry|] stats breaker backoff until last]; simpl;
    destruct (YFINANCE_CACHE_ENABLED cfg); simpl; try (repeat split; lia).
  destruct (Qltb _ _); simpl; try (repeat split; lia).
  destruct (YFINANCE_CACHE_VALIDATION cfg && _); simpl; repeat split; lia.
Qed.

End FetchCounts.

(** X15. The retry budget. A run of [fetch_ohlc] calls the provider at most
    YFINANCE_RETRY_ATTEMPTS times (never, when that number is not positive),
    whatever the provider answers and whatever the state it starts from. *)
Theorem provider_calls_bounded
    (cfg : Config) (env : Env) (period interval : string)
    (use_cache validate : bool) (self : Fetcher) (w : World) :
  let x := fetch_ohlc cfg env period interval use_cache validate self w in
  (provider_calls w <= provider_calls (world_of x)
   <= provider_calls w + Z.to_nat (YFINANCE_RETRY_ATTEMPTS cfg))%nat.
Proof.
  intros x.
  pose proof (fetch_ohlc_spec cfg env period interval use_cache validate self w)
    as (Hlow & _).
  fold x in Hlow. split; [exact Hlow|].
  subst x. unfold fetch_ohlc, bind.
  destruct (breaker_blocks_run self w) as (blocked & self1 & -> & _).
  destruct blocked; [unfold world_of; simpl; lia|].
  unfold get_self, monotonic.
  destruct (Qltb (clock w) (rate_limit_until self1));
    [unfold world_of; simpl; lia|].
  destruct use_cache; [| apply retry_loop_calls].
  unfold timed.
  destruct (_should_use_cache cfg (clock w) self1) as [hit self2] eqn:Huse.
  destruct hit; [| apply retry_loop_calls].
  pose proof (should_use_cache_answer cfg (clock w) self1) as Hans.
  rewrite Huse in Hans. simpl in Hans. symmetry in Hans.
  rewrite (should_use_cache_hit cfg (clock w) self1 Hans) in Huse.
  injection Huse as <-.
  apply should_hit_usable in Hans. destruct Hans as (_ & entry & Hentry & _).
  rewrite (read_cache_run _ w _ (count_hit_cache self1 entry Hentry)).
  unfold world_of. simpl. lia.
Qed.

(** X16. The rate-limit cool-down. While the monotonic clock is before
    [rate_limit_until], [fetch_ohlc] returns the absent result with the empty
    report: the world is untouched (no provider call, no sleep, no new frame)
    and the cache is not even consulted, so a fresh and valid entry is not
    served and the statistics count neither a hit nor a miss. The one thing
    that has run is the can_attempt of the breaker gate, which comes before
    the cool-down test: the instance is as that call leaves it, its breaker
    closed with the count cleared when it was open and due for its probe, and
    the instance wholly unchanged otherwise. *)
Theorem cooldown_short_circuits
    (cfg : Config) (env : Env) (period interval : string)
    (use_cache validate : bool) (self : Fetcher) (w : World) :
  (clock w < rate_limit_until self)%Q ->
  let x := fetch_ohlc cfg env period interval use_cache validate self w in
  outcome_of x = Ok (None, empty_report)
  /\ world_of x = w
  /\ cache (self_of x) = cache self
  /\ cache_stats (self_of x) = cache_stats self
  /\ rate_limit_until (self_of x) = rate_limit_until self
  /\ self_of x
     = match circuit_breaker self with
       | Some b =>
           set_circuit_breaker
             (Some (if probe_due (clock w) b then probe_granted b else b)) self
       | None => self
       end
  /\ (match circuit_breaker self with
      | Some b => probe_due (clock w) b = false
      | None => True
      end -> self_of x = self).
Proof.
  intros Hcool x. subst x. apply Qltb_lt in Hcool.
  unfold fetch_ohlc, bind, breaker_blocks, timed, get_self, monotonic.
  destruct self as [inst entry stats breaker backoff until last].
  simpl in Hcool.
  destruct breaker as [b|]; simpl.
  - rewrite CircuitBreakerFacts.can_attempt_cases.
    destruct (probe_due (clock w) b); simpl.
    + rewrite Hcool. repeat split. discriminate.
    + destruct (negb (CircuitBreaker.is_open b)); simpl;
        [rewrite Hcool|]; repeat split.
  - rewrite Hcool. repeat split.
Qed.

Lemma cooldown_short_circuits_witness :
  outcome_of (fetch_ohlc sample_config serving_env "1d" "1m" true true
                         cooling_fetcher world_with_frame)
  = Ok (None, empty_report)
  /\ fst (_should_use_cache sample_config (clock world_with_frame) cooling_fetcher)
     = true
  /\ self_of (fetch_ohlc sample_config serving_env "1d" "1m" true true
                         cooling_fetcher world_with_frame)
     = cooling_fetcher.
Proof.
  destruct (cooldown_short_circuits sample_config serving_env "1d" "1m" true true
              cooling_fetcher world_with_frame) as (Hout & _ & _ & _ & _ & _ & Hself).
  - vm_compute. reflexivity.
  - split; [exact Hout|]. split; [reflexivity|]. apply Hself. exact I.
Defined.

(** During a cool-down a run still closes a breaker that is due for its
    probe: the count of three is cleared although nothing was attempted. *)
Lemma cooldown_run_closes_breaker :
  let self := mkFetcher "NQ=F" None CacheStatistics.init (Some tripped_breaker)
                        0 100 None in
  let x := fetch_ohlc sample_config serving_env "1d" "1m" true true
                      self (mkWorld 70 [] 0 0) in
  outcome_of x = Ok (None, empty_report)
  /\ circuit_breaker (self_of x) = Some (CircuitBreaker.mk 3 60 0 (Some 3%Q) false)
  /\ provider_calls (world_of x) = 0%nat.
Proof. cbv zeta. repeat split. Qed.

(** X17. How a run moves the cache statistics. One run of [fetch_ohlc] never
    lowers a counter and never touches the evictions; it adds at most one to
    hits and misses together and at most one invalidation; with
    [use_cache=False] it leaves the statistics as they are; and a run that
    hands back data without calling the provider has counted exactly one hit
    and no miss. *)
Theorem cache_stats_accounting
    (cfg : Config) (env : Env) (period interval : string)
    (use_cache validate : bool) (self : Fetcher) (w : World) :
  let x := fetch_ohlc cfg env period interval use_cache validate self w in
  let s := cache_stats self in
  let s' := cache_stats (self_of x) in
  CacheStatistics.evictions s' = CacheStatistics.evictions s
  /\ CacheStatistics.hits s <= CacheStatistics.hits s'
  /\ CacheStatistics.misses s <= CacheStatistics.misses s'
  /\ CacheStatistics.invalidations s <= CacheStatistics.invalidations s'
     <= CacheStatistics.invalidations s + 1
  /\ CacheStatistics.hits s' + CacheStatistics.misses s'
     <= CacheStatistics.hits s + CacheStatistics.misses s + 1
  /\ (use_cache = false -> s' = s)
  /\ (forall l report,
        outcome_of x = Ok (Some l, report) ->
        provider_calls (world_of x) = provider_calls w ->
        CacheStatistics.hits s' = CacheStatistics.hits s + 1
        /\ CacheStatistics.misses s' = CacheStatistics.misses s).
Proof.
  intros x s s'. subst x s s'. unfold fetch_ohlc, bind.
  pose proof (steady_breaker_blocks self w) as (_ & Hstats1).
  destruct (breaker_blocks_run self w) as (blocked & self1 & Hrun & _).
  rewrite Hrun in Hstats1 |- *. unfold self_of in Hstats1. simpl in Hstats1.
  assert (Hsame : forall (self2 : Fetcher) (w2 : World)
                         (o : outcome (option loc * DataValidationReport.t)),
            cache_stats self2 = cache_stats self ->
            (forall l report, o = Ok (Some l, report) ->
                              (provider_calls w < provider_calls w2)%nat) ->
            let s := cache_stats self in
            let s' := cache_stats (self_of (o, self2, w2)) in
            CacheStatistics.evictions s' = CacheStatistics.evictions s
            /\ CacheStatistics.hits s <= CacheStatistics.hits s'
            /\ CacheStatistics.misses s <= CacheStatistics.misses s'
            /\ CacheStatistics.invalidations s <= CacheStatistics.invalidations s'
               <= CacheStatistics.invalidations s + 1
            /\ CacheStatistics.hits s' + CacheStatistics.misses s'
               <= CacheStatistics.hits s + CacheStatistics.misses s + 1
            /\ (use_cache = false -> s' = s)
            /\ (forall l report,
                  outcome_of (o, self2, w2) = Ok (Some l, report) ->
                  provider_calls (world_of (o, self2, w2)) = provider_calls w ->
                  CacheStatistics.hits s' = CacheStatistics.hits s + 1
                  /\ CacheStatistics.misses s' = CacheStatistics.misses s)).
  { intros self2 w2 o Heq Hcalls. cbv zeta. unfold self_of, outcome_of, world_of.
    simpl. rewrite Heq.
    assert (Hnever : forall l report, o = Ok (Some l, report) ->
                       provider_calls w2 = provider_calls w -> False)
      by (intros l report Ho Hc; specialize (Hcalls l report Ho); lia).
    repeat split; first [lia | exfalso; eapply Hnever; eassumption]. }
  destruct blocked; [apply Hsame; [exact Hstats1 | discriminate]|].
  unfold get_self, monotonic.
  destruct (Qltb (clock w) (rate_limit_until self1));
    [apply Hsame; [exact Hstats1 | discriminate]|].
  assert (Hloop : forall self2,
            let y := retry_loop cfg env period interval validate
                       (Z.to_nat (YFINANCE_RETRY_ATTEMPTS cfg)) 1 false self2 w in
            cache_stats (self_of y) = cache_stats self2
            /\ forall l report, outcome_of y = Ok (Some l, report) ->
                 (provider_calls w < provider_calls (world_of y))%nat).
  { intros self2 y. split; [apply (steady_retry_loop cfg env)|].
    intros l report Ho.
    pose proof (retry_loop_spec cfg env period interval validate
                  (Z.to_nat (YFINANCE_RETRY_ATTEMPTS cfg)) 1 false self2 w)
      as (_ & Hspec).
    fold y in Hspec. rewrite Ho in Hspec.
    destruct Hspec as (df & _ & Hlt & _). exact Hlt. }
  destruct use_cache.
  - unfold timed.
    pose proof (should_use_cache_stats cfg (clock w) self1) as Hcount.
    destruct (_should_use_cache cfg (clock w) self1) as [hit self2] eqn:Huse.
    cbv zeta in Hcount. simpl in Hcount. rewrite Hstats1 in Hcount.
    destruct Hcount as (Hev & Hinv & Hcount).
    destruct hit.
    + pose proof (should_use_cache_answer cfg (clock w) self1) as Hans.
      rewrite Huse in Hans. simpl in Hans. symmetry in Hans.
      pose proof Huse as Huse'.
      rewrite (should_use_cache_hit cfg (clock w) self1 Hans) in Huse'.
      injection Huse' as Hself2.
      apply should_hit_usable in Hans. destruct Hans as (_ & entry & Hentry & _).
      rewrite <- Hself2 in Hcount, Hev, Hinv |- *.
      rewrite (read_cache_run _ w _ (count_hit_cache self1 entry Hentry)).
      cbv zeta. unfold self_of, outcome_of, world_of. simpl.
      simpl in Hcount, Hev, Hinv.
      destruct Hcount as (Hh & Hm & Hi).
      repeat split; first [lia | discriminate].
    + destruct (Hloop self2) as (Hkeep & Hcalls).
      destruct (retry_loop cfg env period interval validate
                           (Z.to_nat (YFINANCE_RETRY_ATTEMPTS cfg)) 1 false self2 w)
        as [[o self3] w3].
      unfold self_of, outcome_of, world_of in Hkeep, Hcalls |- *.
      simpl in Hkeep, Hcalls |- *. cbv zeta. rewrite Hkeep.
      destruct Hcount as (Hh & Hm).
      assert (Hnever : forall l report, o = Ok (Some l, report) ->
                         provider_calls w3 = provider_calls w -> False)
        by (intros l report Ho Hc; specialize (Hcalls l report Ho); lia).
      repeat split;
        first [lia | discriminate | exfalso; eapply Hnever; eassumption].
  - change (ret false self1 w) with (Ok false, self1, w). cbv iota beta.
    destruct (Hloop self1) as (Hkeep & Hcalls).
    destruct (retry_loop cfg env period interval validate
                         (Z.to_nat (YFINANCE_RETRY_ATTEMPTS cfg)) 1 false self1 w)
      as [[o self3] w3].
    unfold self_of, outcome_of, world_of in Hkeep, Hcalls.
    simpl in Hkeep, Hcalls.
    apply Hsame; [rewrite <- Hstats1; exact Hkeep | exact Hcalls].
Qed.

Lemma retry_loop_ignores_validate (cfg : Config) (env : Env)
    (period interval : string) (validate1 validate2 : bool) (remaining : nat) :
  forall (attempt : Z) (is_rate_limited : bool) (self : Fetcher) (w : World),
    retry_loop cfg env period interval validate1 remaining attempt
               is_rate_limited self w
    = retry_loop cfg env period interval validate2 remaining attempt
                 is_rate_limited self w.
Proof.
  induction remaining as [|remaining IH]; intros attempt rl self w;
    [reflexivity|].
  cbn [retry_loop]. unfold bind.
  change (attempt_body cfg env period interval validate1 attempt rl)
    with (attempt_body cfg env period interval validate2 attempt rl).
  destruct (try_except (attempt_body cfg env period interval validate2 attempt rl)
                       (handler cfg env attempt rl) self w)
    as [[[[value|rl']|e] self1] w1]; [reflexivity | apply IH | reflexivity].
Qed.

(** X18. The [validate] argument changes nothing: for the same instance, world
    and provider, [fetch_ohlc] returns the same data and the same report and
    leaves the same state whether it is called with [validate=True] or
    [validate=False]. The validator runs in both cases and an invalid frame is
    handed back and cached in both. *)
Theorem validate_flag_has_no_effect
    (cfg : Config) (env : Env) (period interval : string)
    (use_cache : bool) (self : Fetcher) (w : World) :
  fetch_ohlc cfg env period interval use_cache true self w
  = fetch_ohlc cfg env period interval use_cache false self w.
Proof.
  unfold fetch_ohlc, bind.
  destruct (breaker_blocks self w) as [[[blocked|e] self1] w1]; [| reflexivity].
  destruct blocked; [reflexivity|].
  destruct (get_self self1 w1) as [[[self2|e] self3] w3]; [| reflexivity].
  destruct (monotonic self3 w3) as [[[now|e] self4] w4]; [| reflexivity].
  destruct (Qltb now (rate_limit_until self2)); [reflexivity|].
  destruct ((if use_cache then timed (_should_use_cache cfg) else ret false)
              self4 w4) as [[[hit|e] self5] w5]; [| reflexivity].
  destruct hit; [reflexivity|].
  apply retry_loop_ignores_validate.
Qed.

(** X19. A cache hit does not look at what was asked. If a call of
    [fetch_ohlc] is served from the cache (it hands back data without calling
    the provider), then the call for any other period and interval, from the
    same state, is served the very same frame with the same report: the
    period and interval an entry was fetched for are stored with it but never
    compared with the request. *)
Theorem cache_hit_ignores_request
    (cfg : Config) (env : Env) (period interval : string) (validate : bool)
    (self : Fetcher) (w : World) (l : loc) (report : DataValidationReport.t)
    (period2 interval2 : string) (validate2 : bool) :
  let x := fetch_ohlc cfg env period interval true validate self w in
  outcome_of x = Ok (Some l, report) ->
  provider_calls (world_of x) = provider_calls w ->
  fetch_ohlc cfg env period2 interval2 true validate2 self w = x.
Proof.
  intros x Hout Hcalls. subst x. revert Hout Hcalls.
  unfold fetch_ohlc, bind.
  destruct (breaker_blocks_run self w) as (blocked & self1 & -> & _).
  destruct blocked; [reflexivity|].
  unfold get_self, monotonic.
  destruct (Qltb (clock w) (rate_limit_until self1)); [reflexivity|].
  unfold timed.
  destruct (_should_use_cache cfg (clock w) self1) as [hit self2].
  destruct hit; [reflexivity|].
  intros Hout Hcalls. exfalso.
  pose proof (retry_loop_spec cfg env period interval validate
                (Z.to_nat (YFINANCE_RETRY_ATTEMPTS cfg)) 1 false self2 w)
    as (_ & Hspec).
  rewrite Hout in Hspec. destruct Hspec as (df & _ & Hlt & _). lia.
Qed.

Lemma cache_hit_ignores_request_witness :
  fetch_ohlc sample_config rate_limited_env "5d" "1h" true false
             fetcher_with_entry world_with_frame
  = fetch_ohlc sample_config rate_limited_env "1d" "1m" true true
               fetcher_with_entry world_with_frame.
Proof.
  apply (cache_hit_ignores_request sample_config rate_limited_env "1d" "1m" true
           fetcher_with_entry world_with_frame 1%nat
           (DataValidationReport.mk false [] [] ∅));
    reflexivity.
Defined.

(** ** What the breaker is told *)

Section BreakerBookkeeping.

Variable cfg : Config.
Variable env : Env.

Lemma after_breaker_gate_fields (self : Fetcher) (w : World) :
  instrument (after_breaker_gate self w) = instrument self
  /\ cache (after_breaker_gate self w) = cache self
  /\ cache_stats (after_breaker_gate self w) = cache_stats self
  /\ rate_limit_until (after_breaker_gate self w) = rate_limit_until self
  /\ circuit_breaker (after_breaker_gate self w)
     = option_map (fun b => snd (CircuitBreaker.can_attempt (clock w) b))
                  (circuit_breaker self).
Proof.
  unfold after_breaker_gate.
  destruct self as [inst entry stats [b|] backoff until last]; simpl;
    repeat split.
Qed.

Lemma breaker_gate_run (self : Fetcher) (w : World) :
  breaker_blocks self w
  = (Ok (match circuit_breaker self with
         | Some b => negb (fst (CircuitBreaker.can_attempt (clock w) b))
         | None => false
         end),
     after_breaker_gate self w, w).
Proof.
  unfold breaker_blocks, timed, after_breaker_gate.
  destruct (circuit_breaker self) as [b|]; [| reflexivity].
  destruct (CircuitBreaker.can_attempt (clock w) b) as [ok b']. reflexivity.
Qed.

Lemma should_hit_after_gate (now : Q) (self : Fetcher) (w : World) :
  should_hit cfg now (after_breaker_gate self w) = should_hit cfg now self.
Proof.
  unfold should_hit.
  destruct (after_breaker_gate_fields self w) as (_ & -> & _). reflexivity.
Qed.

Lemma fetch_past_gates (period interval : string)
    (use_cache validate : bool) (self : Fetcher) (w : World) :
  passes_gates self w ->
  fetch_ohlc cfg env period interval use_cache validate self w
  = if use_cache && should_hit cfg (clock w) self
    then read_cache (snd (_should_use_cache cfg (clock w)
                                            (after_breaker_gate self w))) w
    else retry_loop cfg env period interval validate
                    (Z.to_nat (YFINANCE_RETRY_ATTEMPTS cfg)) 1 false
                    (after_cache_check cfg use_cache
                                       (after_breaker_gate self w) w) w.
Proof.
  intros (Hgate & Hcool).
  apply Qltb_ge in Hcool.
  unfold fetch_ohlc, bind. rewrite breaker_gate_run.
  assert (Hopen : match circuit_breaker self with
                  | Some b => negb (fst (CircuitBreaker.can_attempt (clock w) b))
                  | None => false
                  end = false).
  { destruct (circuit_breaker self) as [b|]; [| reflexivity].
    rewrite Hgate. reflexivity. }
  rewrite Hopen. unfold get_self, monotonic, after_cache_check.
  destruct (after_breaker_gate_fields self w) as (_ & _ & _ & -> & _).
  rewrite Hcool.
  destruct use_cache; [| reflexivity].
  unfold timed.
  pose proof (should_use_cache_answer cfg (clock w) (after_breaker_gate self w))
    as Hans.
  rewrite should_hit_after_gate in Hans.
  destruct (_should_use_cache cfg (clock w) (after_breaker_gate self w))
    as [hit self2].
  simpl in Hans. subst hit. simpl.
  destruct (should_hit cfg (clock w) self); reflexivity.
Qed.

Lemma fetch_goes_to_provider (period interval : string)
    (use_cache validate : bool) (self : Fetcher) (w : World) :
  goes_to_provider cfg use_cache self w ->
  fetch_ohlc cfg env period interval use_cache validate self w
  = retry_loop cfg env period interval validate
               (Z.to_nat (YFINANCE_RETRY_ATTEMPTS cfg)) 1 false
               (after_cache_check cfg use_cache (after_breaker_gate self w) w) w.
Proof.
  intros (Hgates & Hmiss).
  rewrite (fetch_past_gates period interval use_cache validate self w Hgates).
  destruct use_cache; [| reflexivity].
  rewrite (Hmiss eq_refl). reflexivity.
Qed.

Lemma after_cache_check_fields (use_cache : bool) (self : Fetcher) (w : World) :
  circuit_breaker (after_cache_check cfg use_cache self w) = circuit_breaker self
  /\ rate_limit_until (after_cache_check cfg use_cache self w)
     = rate_limit_until self
  /\ instrument (after_cache_check cfg use_cache self w) = instrument self.
Proof.
  unfold after_cache_check, _should_use_cache, _is_cache_valid, count_miss,
    count_hit.
  destruct use_cache; [| repeat split].
  destruct self as [inst [entry|] stats breaker backoff until last]; simpl;
    destruct (YFINANCE_CACHE_ENABLED cfg); simpl; try (repeat split; reflexivity).
  destruct (Qltb _ _); simpl; try (repeat split; reflexivity).
  destruct (YFINANCE_CACHE_VALIDATION cfg && _); repeat split.
Qed.

(** The instance at the start of the retry loop. *)
Lemma at_loop_fields (use_cache : bool) (self : Fetcher) (w : World) :
  circuit_breaker (after_cache_check cfg use_cache (after_breaker_gate self w) w)
  = option_map (fun b => snd (CircuitBreaker.can_attempt (clock w) b))
               (circuit_breaker self)
  /\ rate_limit_until
       (after_cache_check cfg use_cache (after_breaker_gate self w) w)
     = rate_limit_until self
  /\ instrument (after_cache_check cfg use_cache (after_breaker_gate self w) w)
     = instrument self.
Proof.
  destruct (after_cache_check_fields use_cache (after_breaker_gate self w) w)
    as (-> & -> & ->).
  destruct (after_breaker_gate_fields self w) as (-> & _ & _ & -> & ->).
  repeat split.
Qed.

Lemma attempt_body_breaker (period interval : string) (validate : bool)
    (attempt : Z) (is_rate_limited : bool) (self : Fetcher) (w : World) :
  let x := attempt_body cfg env period interval validate attempt
                        is_rate_limited self w in
  match outcome_of x with
  | Ok (Return (data, _)) =>
      circuit_breaker (self_of x)
      = option_map (breaker_outcome data (clock (world_of x)))
                   (circuit_breaker self)
  | Ok (NextAttempt _) =>
      attempt < YFINANCE_RETRY_ATTEMPTS cfg
      /\ circuit_breaker (self_of x) = circuit_breaker self
  | Raise _ => circuit_breaker (self_of x) = circuit_breaker self
  end.
Proof.
  unfold attempt_body, bind, monotonic, history.
  destruct self as [inst entry stats breaker backoff until last].
  destruct (result _) as [msg | frame]; [reflexivity|].
  destruct (df_empty (raw frame)).
  { destruct (Z.ltb_spec attempt (YFINANCE_RETRY_ATTEMPTS cfg)).
    - unfold backoff_delay, sleep, bind, modify_world, ret, raise,
        outcome_of, world_of, self_of.
      repeat match goal with
             | |- context [if ?b then _ else _] => destruct b; simpl
             end; auto.
    - unfold breaker_record_failure, bind, monotonic, modify_self, ret,
        outcome_of, world_of, self_of. simpl.
      destruct breaker; reflexivity. }
  destruct (has_column _ "datetime" || has_column _ "date").
  - unfold select_required.
    destruct (List.filter _ required_cols); [| reflexivity].
    unfold lift, ret. cbv beta iota.
    destruct (_validate_ohlc_data cfg _ _); [| reflexivity].
    unfold update_cache, copy, alloc, get_world, bind, monotonic,
      breaker_record_success, modify_self, ret, outcome_of, world_of, self_of.
    destruct (YFINANCE_CACHE_ENABLED cfg); destruct breaker; reflexivity.
  - unfold breaker_record_failure, bind, monotonic, modify_self, ret,
      outcome_of, world_of, self_of. simpl.
    destruct breaker; reflexivity.
Qed.

Lemma handler_breaker (attempt : Z) (is_rate_limited : bool) (e : exn)
    (self : Fetcher) (w : World) :
  let x := handler cfg env attempt is_rate_limited e self w in
  match outcome_of x with
  | Ok _ =>
      circuit_breaker (self_of x)
      = if attempt <? YFINANCE_RETRY_ATTEMPTS cfg
        then circuit_breaker self
        else option_map (CircuitBreaker.record_failure (clock (world_of x)))
                        (circuit_breaker self)
  | Raise _ => True
  end.
Proof.
  unfold handler, bind, backoff_delay, sleep, breaker_record_failure,
    monotonic, modify_self, modify_world, ret, raise, outcome_of, world_of,
    self_of.
  destruct self as [inst entry stats breaker backoff until last].
  destruct (attempt <? YFINANCE_RETRY_ATTEMPTS cfg);
    repeat match goal with
           | |- context [if ?b then _ else _] => destruct b; simpl
           end; try exact I; try reflexivity;
    destruct breaker; reflexivity.
Qed.

Lemma one_attempt_breaker (period interval : string) (validate : bool)
    (attempt : Z) (is_rate_limited : bool) (self : Fetcher) (w : World) :
  let x := one_attempt cfg env period interval validate attempt
                       is_rate_limited self w in
  match outcome_of x with
  | Ok (Return (data, _)) =>
      circuit_breaker (self_of x)
      = option_map (breaker_outcome data (clock (world_of x)))
                   (circuit_breaker self)
  | Ok (NextAttempt _) =>
      circuit_breaker (self_of x)
      = if attempt <? YFINANCE_RETRY_ATTEMPTS cfg
        then circuit_breaker self
        else option_map (CircuitBreaker.record_failure (clock (world_of x)))
                        (circuit_breaker self)
  | Raise _ => True
  end.
Proof.
  unfold one_attempt, try_except.
  pose proof (attempt_body_breaker period interval validate attempt
                                   is_rate_limited self w) as Hbody.
  destruct (attempt_body cfg env period interval validate attempt
                         is_rate_limited self w) as [[[next|e] self1] w1];
    unfold outcome_of, self_of, world_of in Hbody; simpl in Hbody.
  - destruct next as [[data report]|rl']; [exact Hbody|].
    destruct Hbody as (Hlt & Hsame). cbv zeta.
    unfold outcome_of, self_of. simpl.
    apply Z.ltb_lt in Hlt. rewrite Hlt. exact Hsame.
  - pose proof (handler_breaker attempt is_rate_limited e self1 w1) as Hhandler.
    pose proof (handler_falls_through cfg env attempt is_rate_limited e self1 w1)
      as Hfall.
    cbv zeta in Hhandler |- *.
    destruct (outcome_of (handler cfg env attempt is_rate_limited e self1 w1))
      as [[value|rl']|e']; [contradiction | | exact I].
    rewrite Hhandler, Hbody. reflexivity.
Qed.

Lemma retry_loop_breaker (period interval : string) (validate : bool)
    (remaining : nat) :
  forall (attempt : Z) (is_rate_limited : bool) (self : Fetcher) (w : World),
    attempt + Z.of_nat remaining = YFINANCE_RETRY_ATTEMPTS cfg + 1 ->
    (1 <= remaining)%nat ->
    let x := retry_loop cfg env period interval validate remaining attempt
                        is_rate_limited self w in
    match outcome_of x with
    | Ok (data, _) =>
        circuit_breaker (self_of x)
        = option_map (breaker_outcome data (clock (world_of x)))
                     (circuit_breaker self)
    | Raise _ => True
    end.
Proof.
  induction remaining as [|remaining IH]; intros attempt rl self w Hsync Hpos;
    [lia|].
  cbn [retry_loop]. fold (one_attempt cfg env period interval validate attempt rl).
  unfold bind.
  pose proof (one_attempt_breaker period interval validate attempt rl self w)
    as Hone.
  destruct (one_attempt cfg env period interval validate attempt rl self w)
    as [[[[[data report]|rl']|e] self1] w1];
    unfold outcome_of, self_of, world_of in Hone; simpl in Hone; cbv zeta.
  - exact Hone.
  - destruct (Z.ltb_spec attempt (YFINANCE_RETRY_ATTEMPTS cfg)) as [Hlt | Hge].
    + specialize (IH (attempt + 1) rl' self1 w1). cbv zeta in IH.
      rewrite Hone in IH. apply IH; lia.
    + assert (Hzero : remaining = 0%nat) by lia. subst remaining.
      simpl. unfold outcome_of, self_of, world_of. simpl. exact Hone.
  - exact I.
Qed.

End BreakerBookkeeping.



(** X20. Each run that gets past the gates tells the breaker exactly one
    thing. With at least one attempt configured, a run of [fetch_ohlc] that is
    not stopped by the breaker or the cool-down and not served from the cache,
    and that returns, leaves the breaker as one call of record_success (when
    it hands back data) or one call of record_failure at the instant the run
    ends (when the result is absent) on the breaker as the can_attempt of the
    gate left it, however many attempts it took. The gate leaves a closed
    breaker as it found it; an open one that it lets through as a probe it has
    closed with the count cleared, so that a failed probe run ends with a
    count of 1 and the breaker closed. *)
Theorem breaker_told_once
    (cfg : Config) (env : Env) (period interval : string)
    (use_cache validate : bool) (self : Fetcher) (w : World)
    (data : option loc) (report : DataValidationReport.t) :
  1 <= YFINANCE_RETRY_ATTEMPTS cfg ->
  goes_to_provider cfg use_cache self w ->
  let x := fetch_ohlc cfg env period interval use_cache validate self w in
  outcome_of x = Ok (data, report) ->
  circuit_breaker (self_of x)
  = option_map
      (fun b =>
         breaker_outcome data (clock (world_of x))
           (if probe_due (clock w) b then probe_granted b else b))
      (circuit_breaker self).
Proof.
  intros Hattempts Hgoes x Hout. subst x.
  rewrite (fetch_goes_to_provider cfg env period interval use_cache validate
                                  self w Hgoes) in Hout |- *.
  pose proof (retry_loop_breaker cfg env period interval validate
                (Z.to_nat (YFINANCE_RETRY_ATTEMPTS cfg)) 1 false
                (after_cache_check cfg use_cache (after_breaker_gate self w) w)
                w) as Hloop.
  cbv zeta in Hloop. rewrite Hout in Hloop.
  destruct (at_loop_fields cfg use_cache self w) as (Hb & _).
  rewrite Hb in Hloop. rewrite Hloop by lia.
  destruct (circuit_breaker self) as [b|]; [| reflexivity].
  simpl. rewrite CircuitBreakerFacts.can_attempt_cases.
  destruct (probe_due (clock w) b); reflexivity.
Qed.

Lemma breaker_told_once_witness :
  probe_due 70 tripped_breaker = true
  /\ circuit_breaker
       (self_of (fetch_ohlc sample_config failing_env "1d" "1m" true true
                            tripped_fetcher (mkWorld 70 [] 0 0)))
     = Some (CircuitBreaker.record_failure (70 + 1 + 2 + 1 + 4 + 1)
               (probe_granted tripped_breaker))
  /\ option_map CircuitBreaker.failure_count
       (circuit_breaker
          (self_of (fetch_ohlc sample_config failing_env "1d" "1m" true true
                               tripped_fetcher (mkWorld 70 [] 0 0))))
     = Some 1.
Proof.
  split; [reflexivity|].
  split; [| reflexivity].
  rewrite (breaker_told_once sample_config failing_env "1d" "1m" true true
             tripped_fetcher (mkWorld 70 [] 0 0) None empty_report).
  - reflexivity.
  - simpl. lia.
  - repeat split. simpl. lra.
  - reflexivity.
Defined.

(** ** The accessors *)

Lemma last_sorted_newest (bars : list Bar) (row : Bar) :
  Sorted not_later bars -> last bars = Some row ->
  In row bars /\ forall r, In r bars -> timestamp r <= timestamp row.
Proof.
  intros Hsorted Hlast.
  assert (Htrans : Relations_1.Transitive not_later).
  { intros a b c Hab Hbc. unfold not_later in *. lia. }
  apply Sorted.Sorted_StronglySorted in Hsorted; [| exact Htrans].
  induction Hsorted as [|a bars Hsorted IH Hall].
  - discriminate.
  - destruct bars as [|b bars].
    + simpl in Hlast. inversion Hlast; subst. split; [left; reflexivity|].
      intros r [-> | []]. lia.
    + rewrite last_cons_cons in Hlast.
      destruct (IH Hlast) as (Hin & Hmax).
      split; [right; exact Hin|].
      intros r [-> | Hr]; [| apply Hmax, Hr].
      rewrite List.Forall_forall in Hall. apply (Hall row Hin).
Qed.

Lemma normalised_latest (frame : RawFrame) :
  df_empty (raw frame) = false ->
  df_empty (normalised frame) = false
  /\ exists row, last_row (normalised frame) = Some row /\ newest_of frame row.
Proof.
  intros Hrows.
  assert (Hsome : rows (raw frame) <> []).
  { unfold df_empty in Hrows.
    destruct (columns (raw frame)); [discriminate|].
    destruct (rows (raw frame)); [discriminate | discriminate]. }
  pose proof (sort_values_perm (rows (raw frame))) as Hperm.
  pose proof (sort_values_sorted (rows (raw frame))) as Hsorted.
  unfold normalised, last_row, newest_of, df_empty. simpl.
  destruct (sort_values (rows (raw frame))) as [|b bars] eqn:Hsort.
  { symmetry in Hperm. apply Permutation_nil_r in Hperm. contradiction. }
  split; [reflexivity|].
  destruct (last (b :: bars)) as [row|] eqn:Hlast.
  - exists row. split; [reflexivity|].
    destruct (last_sorted_newest (b :: bars) row Hsorted Hlast) as (Hin & Hmax).
    split.
    + rewrite <- Hperm. exact Hin.
    + intros r Hr. apply Hmax. rewrite Hperm. exact Hr.
  - apply last_None in Hlast. discriminate.
Qed.

(** X21. The price is the close of the newest bar of the provider's answer.
    Whenever [get_latest_price] returns after a run that called the
    provider, either the fetch handed back no frame and the price is absent,
    or some call of the run was answered with a frame and the price is the
    close of a bar of that answer than which no bar of the answer is later,
    in whatever order the provider sent the bars. *)
Theorem latest_price_is_newest_close
    (cfg : Config) (env : Env) (self : Fetcher) (w : World)
    (price : option float64) :
  let x := get_latest_price cfg env self w in
  outcome_of x = Ok price ->
  provider_calls (world_of x) <> provider_calls w ->
  (price = None
   /\ exists report,
        outcome_of (fetch_ohlc cfg env "1d" "1m" true false self w)
        = Ok (None, report))
  \/ (exists n frame row,
        (provider_calls w <= n < provider_calls (world_of x))%nat
        /\ result (provider env n (instrument self) "1d" "1m") = Returns frame
        /\ newest_of frame row
        /\ price = Some (close row)).
Proof.
  unfold get_latest_price, bind.
  pose proof (fetch_ohlc_fetched cfg env "1d" "1m" true false self w) as Hfetched.
  destruct (fetch_ohlc cfg env "1d" "1m" true false self w)
    as [[[[data report]|e] self1] w1]; cbv zeta in Hfetched |- *;
    unfold outcome_of, self_of, world_of in Hfetched |- *; simpl in Hfetched |- *;
    [| discriminate].
  destruct data as [l|]; simpl.
  - intros Hout Hcalls.
    unfold get_world, bind in Hout, Hcalls |- *.
    destruct (Hfetched l report eq_refl) as ((n & frame & Hn & Hresult & Hrows
                                              & _ & Hframe & _) & _).
    { destruct (df_empty (heap w1 !!! l)); [exact Hcalls|].
      destruct (last_row (heap w1 !!! l)); [| exact Hcalls].
      unfold require_columns, bind in Hcalls.
      destruct (List.filter _ _); exact Hcalls. }
    destruct (normalised_latest frame Hrows) as (Hfull & row & Hlast & Hnewest).
    rewrite Hframe, Hfull, Hlast in Hout, Hcalls |- *.
    change (require_columns (normalised frame) ["close"%string])
      with (ret (A := unit) tt) in Hout, Hcalls |- *.
    unfold bind, ret in Hout, Hcalls |- *. simpl in Hout, Hcalls |- *.
    right. exists n, frame, row.
    split; [exact Hn|]. split; [exact Hresult|]. split; [exact Hnewest|].
    inversion Hout. reflexivity.
  - intros Hout _. left. inversion Hout. split; [reflexivity|].
    exists report. reflexivity.
Qed.

Lemma latest_price_is_newest_close_witness :
  (Some (Num 11) = None
   /\ exists report,
        outcome_of (fetch_ohlc sample_config serving_env "1d" "1m" true false
                               (Fetcher_init sample_config "NQ=F")
                               (mkWorld 0 [] 0 0))
        = Ok (None, report))
  \/ (exists n frame row,
        (0 <= n < 1)%nat
        /\ result (provider serving_env n "NQ=F" "1d" "1m") = Returns frame
        /\ newest_of frame row
        /\ Some (Num 11) = Some (close row)).
Proof.
  apply (latest_price_is_newest_close sample_config serving_env
           (Fetcher_init sample_config "NQ=F") (mkWorld 0 [] 0 0)
           (Some (Num 11))).
  - reflexivity.
  - vm_compute. discriminate.
Defined.

(** X22. The current bar is the newest bar of the provider's answer, and its
    volume decides whether there is one. Whenever [get_current_bar] comes to
    an end after a run that called the provider, either the fetch handed back
    no frame and the result is absent, or some call of the run was answered
    with a frame and, for a bar of that answer than which none is later: when
    its volume is a finite number the result is that bar's timestamp and
    prices with the volume cut towards zero, and when its volume is NaN or
    infinite the conversion to an integer fails and the exception leaves the
    method, although the fetch succeeded. *)
Theorem current_bar_is_newest
    (cfg : Config) (env : Env) (self : Fetcher) (w : World)
    (r : int_error + option CurrentBar) :
  let x := get_current_bar cfg env self w in
  outcome_of x = Ok r ->
  provider_calls (world_of x) <> provider_calls w ->
  (r = inr None
   /\ exists report,
        outcome_of (fetch_ohlc cfg env "1d" "1m" true false self w)
        = Ok (None, report))
  \/ (exists n frame row,
        (provider_calls w <= n < provider_calls (world_of x))%nat
        /\ result (provider env n (instrument self) "1d" "1m") = Returns frame
        /\ newest_of frame row
        /\ r = match volume row with
               | Num q =>
                   inr (Some (mkCurrentBar (timestamp row) (open row) (high row)
                                           (low row) (close row)
                                           (Z.quot (Qnum q) (Zpos (Qden q)))))
               | NaN => inl IntOfNaN
               | PosInf | NegInf => inl IntOfInfinity
               end).
Proof.
  unfold get_current_bar, bind.
  pose proof (fetch_ohlc_fetched cfg env "1d" "1m" true false self w) as Hfetched.
  destruct (fetch_ohlc cfg env "1d" "1m" true false self w)
    as [[[[data report]|e] self1] w1]; cbv zeta in Hfetched |- *;
    unfold outcome_of, self_of, world_of in Hfetched |- *; simpl in Hfetched |- *;
    [| discriminate].
  destruct data as [l|]; simpl.
  - intros Hout Hcalls.
    unfold get_world, bind in Hout, Hcalls |- *.
    destruct (Hfetched l report eq_refl) as ((n & frame & Hn & Hresult & Hrows
                                              & _ & Hframe & _) & _).
    { destruct (df_empty (heap w1 !!! l)); [exact Hcalls|].
      destruct (last_row (heap w1 !!! l)); [| exact Hcalls].
      unfold require_columns, bind in Hcalls.
      destruct (List.filter _ _); [| exact Hcalls].
      destruct (python_int _); exact Hcalls. }
    destruct (normalised_latest frame Hrows) as (Hfull & row & Hlast & Hnewest).
    rewrite Hframe, Hfull, Hlast in Hout, Hcalls |- *.
    change (require_columns (normalised frame) required_cols)
      with (ret (A := unit) tt) in Hout, Hcalls |- *.
    unfold bind, ret in Hout, Hcalls |- *. simpl in Hout, Hcalls |- *.
    right. exists n, frame, row.
    unfold python_int in Hout, Hcalls |- *.
    destruct (volume row); simpl in Hout |- *;
      (split; [exact Hn|]); (split; [exact Hresult|]);
      (split; [exact Hnewest|]); inversion Hout; reflexivity.
  - intros Hout _. left. inversion Hout. split; [reflexivity|].
    exists report. reflexivity.
Qed.

Lemma current_bar_is_newest_witness :
  let r : int_error + option CurrentBar :=
    inr (Some (mkCurrentBar 0 (Num 11) (Num 10) (Num 12) (Num 11) 100)) in
  (r = inr None
   /\ exists report,
        outcome_of (fetch_ohlc sample_config serving_env "1d" "1m" true false
                               (Fetcher_init sample_config "NQ=F")
                               (mkWorld 0 [] 0 0))
        = Ok (None, report))
  \/ (exists n frame row,
        (0 <= n < 1)%nat
        /\ result (provider serving_env n "NQ=F" "1d" "1m") = Returns frame
        /\ newest_of frame row
        /\ r = match volume row with
               | Num q =>
                   inr (Some (mkCurrentBar (timestamp row) (open row) (high row)
                                           (low row) (close row)
                                           (Z.quot (Qnum q) (Zpos (Qden q)))))
               | NaN => inl IntOfNaN
               | PosInf | NegInf => inl IntOfInfinity
               end).
Proof.
  apply (current_bar_is_newest sample_config serving_env
           (Fetcher_init sample_config "NQ=F") (mkWorld 0 [] 0 0)).
  - reflexivity.
  - vm_compute. discriminate.
Defined.


(** ** Answers that end or use up the attempts *)

(** X23. An answer without a date column is not retried. When the first
    answer of the provider in a run of [fetch_ohlc] that reaches the retry
    loop is a frame that is not empty but has neither a [datetime] nor a
    [date] column, the run ends there with an absent result and an empty
    report: one call of the provider, no sleep (the clock moves by the
    duration of that call only), no jitter drawn, nothing allocated;
    the attempts that are left are not used, unlike after an empty answer. *)
Theorem shapeless_answer_not_retried
    (cfg : Config) (env : Env) (period interval : string)
    (use_cache validate : bool) (self : Fetcher) (w : World) (frame : RawFrame) :
  1 <= YFINANCE_RETRY_ATTEMPTS cfg ->
  goes_to_provider cfg use_cache self w ->
  result (provider env (provider_calls w) (instrument self) period interval)
  = Returns frame ->
  df_empty (raw frame) = false ->
  has_date_column frame = false ->
  let x := fetch_ohlc cfg env period interval use_cache validate self w in
  outcome_of x = Ok (None, empty_report)
  /\ provider_calls (world_of x) = S (provider_calls w)
  /\ clock (world_of x)
     = (clock w
        + took (provider env (provider_calls w) (instrument self) period interval))%Q
  /\ jitter_draws (world_of x) = jitter_draws w
  /\ heap (world_of x) = heap w.
Proof.
  intros Hattempts Hgoes Hresult Hrows Hdate. cbv zeta.
  rewrite (fetch_goes_to_provider cfg env period interval use_cache validate
                                  self w Hgoes).
  destruct (at_loop_fields cfg use_cache self w) as (_ & _ & Hinst).
  destruct (Z.to_nat (YFINANCE_RETRY_ATTEMPTS cfg)) as [|k] eqn:Hk; [lia|].
  cbn [retry_loop].
  unfold bind, try_except, attempt_body, bind, monotonic, history.
  rewrite Hinst, Hresult, Hrows.
  unfold has_date_column in Hdate. rewrite Hdate.
  unfold breaker_record_failure, bind, monotonic, modify_self, ret,
    outcome_of, world_of. simpl.
  repeat split.
Qed.

Lemma shapeless_answer_not_retried_witness :
  let x := fetch_ohlc sample_config shapeless_env "1d" "1m" true true
                      (Fetcher_init sample_config "NQ=F") (mkWorld 0 [] 0 0) in
  outcome_of x = Ok (None, empty_report)
  /\ provider_calls (world_of x) = 1%nat
  /\ clock (world_of x) = (0 + 1)%Q
  /\ jitter_draws (world_of x) = 0%nat
  /\ heap (world_of x) = [].
Proof.
  apply (shapeless_answer_not_retried sample_config shapeless_env "1d" "1m"
           true true (Fetcher_init sample_config "NQ=F") (mkWorld 0 [] 0 0)
           shapeless_frame).
  - simpl. lia.
  - repeat split. simpl. discriminate.
  - reflexivity.
  - reflexivity.
  - reflexivity.
Defined.

Section RaisingProvider.

Variable cfg : Config.
Variable env : Env.

Lemma one_attempt_raising (period interval : string) (validate : bool)
    (attempt : Z) (is_rate_limited : bool) (self : Fetcher) (w : World)
    (msg : string) :
  result (provider env (provider_calls w) (instrument self) period interval)
  = Raises msg ->
  let x := one_attempt cfg env period interval validate attempt
                       is_rate_limited self w in
  let flag :=
    rate_limit_reported
      (provider env (provider_calls w) (instrument self) period interval)
    || is_rate_limited in
  match outcome_of x with
  | Ok (NextAttempt b) =>
      b = flag
      /\ provider_calls (world_of x) = S (provider_calls w)
      /\ instrument (self_of x) = instrument self
      /\ rate_limit_until (self_of x)
         = if (attempt <? YFINANCE_RETRY_ATTEMPTS cfg) || negb flag
           then rate_limit_until self
           else (clock (world_of x)
                 + _calculate_backoff_delay cfg
                     (jitter env (pred (jitter_draws (world_of x))))
                     attempt true)%Q
  | Ok (Return _) => False
  | Raise _ => True
  end.
Proof.
  intros Hresult.
  unfold rate_limit_reported. rewrite Hresult.
  unfold one_attempt, try_except, attempt_body, bind, monotonic, history.
  rewrite Hresult.
  unfold handler, str.
  destruct (contains "429" msg || contains "rate" (lower msg)); simpl orb.
  - destruct (attempt <? YFINANCE_RETRY_ATTEMPTS cfg); simpl orb; simpl negb;
      cbv iota.
    + unfold bind, backoff_delay, sleep, modify_world, ret, raise.
      destruct (YFINANCE_RETRY_JITTER_ENABLED cfg);
        destruct (Qltb _ 0); simpl; auto.
    + unfold bind, backoff_delay, breaker_record_failure, monotonic,
        modify_self, ret.
      destruct (YFINANCE_RETRY_JITTER_ENABLED cfg) eqn:Hjitter; simpl.
      * destruct self as [? ? ? [?|] ? ? ?]; simpl; repeat split.
      * destruct self as [? ? ? [?|] ? ? ?]; simpl; repeat split;
          unfold _calculate_backoff_delay; rewrite Hjitter; reflexivity.
  - destruct (attempt <? YFINANCE_RETRY_ATTEMPTS cfg); simpl orb; cbv iota.
    + unfold bind, backoff_delay, sleep, modify_world, ret, raise.
      destruct (YFINANCE_RETRY_JITTER_ENABLED cfg);
        destruct (Qltb _ 0); simpl; auto.
    + destruct is_rate_limited; simpl negb; cbv iota;
        unfold bind, backoff_delay, breaker_record_failure, monotonic,
          modify_self, ret.
      * destruct (YFINANCE_RETRY_JITTER_ENABLED cfg) eqn:Hjitter; simpl.
        -- destruct self as [? ? ? [?|] ? ? ?]; simpl; repeat split.
        -- destruct self as [? ? ? [?|] ? ? ?]; simpl; repeat split;
             unfold _calculate_backoff_delay; rewrite Hjitter; reflexivity.
      * destruct self as [? ? ? [?|] ? ? ?]; simpl; repeat split.
Qed.

Lemma retry_loop_raising (period interval : string) (validate : bool)
    (remaining : nat) :
  forall (attempt : Z) (is_rate_limited : bool) (self : Fetcher) (w : World),
    attempt + Z.of_nat remaining = YFINANCE_RETRY_ATTEMPTS cfg + 1 ->
    (1 <= remaining)%nat ->
    (forall n, (provider_calls w <= n)%nat ->
       exists msg,
         result (provider env n (instrument self) period interval) = Raises msg) ->
    let x := retry_loop cfg env period interval validate remaining attempt
                        is_rate_limited self w in
    match outcome_of x with
    | Ok (data, report) =>
        data = None /\ report = empty_report
        /\ provider_calls (world_of x) = (provider_calls w + remaining)%nat
        /\ rate_limit_until (self_of x)
           = if is_rate_limited
                || existsb (fun n => rate_limit_reported
                                       (provider env n (instrument self)
                                                 period interval))
                           (seq (provider_calls w) remaining)
             then (clock (world_of x)
                   + _calculate_backoff_delay cfg
                       (jitter env (pred (jitter_draws (world_of x))))
                       (YFINANCE_RETRY_ATTEMPTS cfg) true)%Q
             else rate_limit_until self
    | Raise _ => True
    end.
Proof.
  induction remaining as [|remaining IH];
    intros attempt rl self w Hsync Hpos Hraises; [lia|].
  cbn [retry_loop]. fold (one_attempt cfg env period interval validate attempt rl).
  unfold bind.
  destruct (Hraises (provider_calls w) (le_n _)) as (msg & Hmsg).
  pose proof (one_attempt_raising period interval validate attempt rl self w
                                  msg Hmsg) as Hone.
  destruct (one_attempt cfg env period interval validate attempt rl self w)
    as [[[[value|rl']|e] self1] w1];
    unfold outcome_of, self_of, world_of in Hone; simpl in Hone; cbv zeta;
    [contradiction | | exact I].
  destruct Hone as (Hflag & Hcalls & Hinst & Huntil).
  cbn [seq existsb].
  set (reported := rate_limit_reported
                     (provider env (provider_calls w) (instrument self)
                               period interval)) in *.
  destruct (Z.ltb_spec attempt (YFINANCE_RETRY_ATTEMPTS cfg)) as [Hlt | Hge].
  - simpl orb in Huntil. cbv iota in Huntil.
    specialize (IH (attempt + 1) rl' self1 w1). cbv zeta in IH.
    destruct (outcome_of (retry_loop cfg env period interval validate remaining
                                     (attempt + 1) rl' self1 w1))
      as [[data report]|e]; [| exact I].
    destruct IH as (Hdata & Hreport & Hcalls' & Huntil'); [lia | lia | |].
    { intros n Hn. rewrite Hinst. apply Hraises. lia. }
    split; [exact Hdata|]. split; [exact Hreport|].
    split; [lia|].
    rewrite Huntil', Hinst, Hcalls, Huntil, Hflag.
    destruct reported, rl; reflexivity.
  - assert (Hzero : remaining = 0%nat) by lia. subst remaining.
    assert (Hlast : attempt = YFINANCE_RETRY_ATTEMPTS cfg) by lia.
    simpl. unfold outcome_of, self_of, world_of. simpl.
    split; [reflexivity|]. split; [reflexivity|]. split; [lia|].
    rewrite Huntil, Hlast. simpl.
    destruct reported, rl; reflexivity.
Qed.

End RaisingProvider.

(** X24. A provider that fails at every call uses up the attempts, and one
    rate-limit message is enough for the cool-down. When every call of the
    provider raises, a run of [fetch_ohlc] that reaches the retry loop and
    returns has an absent result and an empty report and has called the
    provider exactly as often as there are attempts. If the text of any of
    these exceptions, the first as well as the last, contains 429 or, in
    whatever case, rate, the cool-down ends at the instant the run ends plus
    the rate-limit delay of the last attempt (with the jitter drawn last);
    if none does, the end of the cool-down is left as it was. *)
Theorem failing_provider_uses_up_attempts
    (cfg : Config) (env : Env) (period interval : string)
    (use_cache validate : bool) (self : Fetcher) (w : World)
    (data : option loc) (report : DataValidationReport.t) :
  1 <= YFINANCE_RETRY_ATTEMPTS cfg ->
  goes_to_provider cfg use_cache self w ->
  (forall n, (provider_calls w <= n)%nat ->
     exists msg,
       result (provider env n (instrument self) period interval) = Raises msg) ->
  let x := fetch_ohlc cfg env period interval use_cache validate self w in
  outcome_of x = Ok (data, report) ->
  data = None /\ report = empty_report
  /\ provider_calls (world_of x)
     = (provider_calls w + Z.to_nat (YFINANCE_RETRY_ATTEMPTS cfg))%nat
  /\ rate_limit_until (self_of x)
     = if existsb (fun n => rate_limit_reported
                              (provider env n (instrument self) period interval))
                  (seq (provider_calls w)
                       (Z.to_nat (YFINANCE_RETRY_ATTEMPTS cfg)))
       then (clock (world_of x)
             + _calculate_backoff_delay cfg
                 (jitter env (pred (jitter_draws (world_of x))))
                 (YFINANCE_RETRY_ATTEMPTS cfg) true)%Q
       else rate_limit_until self.
Proof.
  intros Hattempts Hgoes Hraises x Hout. subst x.
  rewrite (fetch_goes_to_provider cfg env period interval use_cache validate
                                  self w Hgoes) in Hout |- *.
  destruct (at_loop_fields cfg use_cache self w)
    as (_ & Huntil & Hinst).
  pose proof (retry_loop_raising cfg env period interval validate
                (Z.to_nat (YFINANCE_RETRY_ATTEMPTS cfg)) 1 false
                (after_cache_check cfg use_cache (after_breaker_gate self w) w) w) as Hloop.
  cbv zeta in Hloop. rewrite Hout, Hinst, Huntil in Hloop.
  apply Hloop; [lia | lia | exact Hraises].
Qed.

Lemma failing_provider_uses_up_attempts_witness :
  let x := fetch_ohlc sample_config limited_once_env "1d" "1m" true true
                      (Fetcher_init sample_config "NQ=F") (mkWorld 0 [] 0 0) in
  (None : option loc) = None
  /\ empty_report = empty_report
  /\ provider_calls (world_of x) = (0 + Z.to_nat 3)%nat
  /\ rate_limit_until (self_of x)
     = if existsb (fun n => rate_limit_reported
                              (provider limited_once_env n "NQ=F" "1d" "1m"))
                  (seq 0 (Z.to_nat 3))
       then (clock (world_of x)
             + _calculate_backoff_delay sample_config
                 (jitter limited_once_env (pred (jitter_draws (world_of x))))
                 3 true)%Q
       else 0%Q.
Proof.
  apply (failing_provider_uses_up_attempts sample_config limited_once_env
           "1d" "1m" true true (Fetcher_init sample_config "NQ=F")
           (mkWorld 0 [] 0 0) None empty_report).
  - simpl. lia.
  - repeat split. simpl. discriminate.
  - intros n _. eexists. reflexivity.
  - reflexivity.
Defined.


(** ** Answers with a time zone under the freshness check *)

Section AwareAnswers.

Variable cfg : Config.
Variable env : Env.

Hypothesis freshness_on : VALIDATE_DATA_FRESHNESS cfg = true.

Lemma validate_aware_raises (utcnow : Z) (frame : RawFrame) :
  df_empty (raw frame) = false ->
  tz_aware (raw frame) = true ->
  _validate_ohlc_data cfg utcnow (normalised frame) = Raise TypeError.
Proof.
  intros Hrows Hzone.
  destruct (normalised_latest frame Hrows) as (Hfull & _).
  rewrite (validate_unfold cfg utcnow (normalised frame) Hfull eq_refl).
  unfold freshness_raises, normalised. simpl. rewrite freshness_on, Hzone.
  reflexivity.
Qed.

Lemma one_attempt_aware (period interval : string) (validate : bool)
    (attempt : Z) (self : Fetcher) (w : World) (frame : RawFrame) :
  result (provider env (provider_calls w) (instrument self) period interval)
  = Returns frame ->
  df_empty (raw frame) = false ->
  well_shaped frame = true ->
  tz_aware (raw frame) = true ->
  let x := one_attempt cfg env period interval validate attempt false self w in
  match outcome_of x with
  | Ok (NextAttempt b) =>
      b = false
      /\ provider_calls (world_of x) = S (provider_calls w)
      /\ instrument (self_of x) = instrument self
      /\ rate_limit_until (self_of x) = rate_limit_until self
  | Ok (Return _) => False
  | Raise _ => True
  end.
Proof.
  intros Hresult Hrows Hshape Hzone.
  unfold well_shaped in Hshape. cbv zeta in Hshape.
  apply andb_true_iff in Hshape. destruct Hshape as [Hdate Hcols].
  unfold one_attempt, try_except, attempt_body, bind, monotonic, history.
  rewrite Hresult, Hrows, Hdate.
  unfold select_required.
  rewrite (filter_missing_nil _ Hcols).
  unfold lift, ret. cbv beta iota.
  match goal with
  | |- context [_validate_ohlc_data cfg ?u ?d] =>
      change d with (normalised frame);
      rewrite (validate_aware_raises u frame Hrows Hzone)
  end.
  unfold handler.
  change (contains "429" (str TypeError)
          || contains "rate" (lower (str TypeError))) with false.
  cbv iota.
  destruct (attempt <? YFINANCE_RETRY_ATTEMPTS cfg).
  - unfold bind, backoff_delay, sleep, modify_world, ret, raise.
    destruct (YFINANCE_RETRY_JITTER_ENABLED cfg);
      destruct (Qltb _ 0); simpl; auto.
  - unfold bind, breaker_record_failure, monotonic, modify_self, ret.
    destruct self as [? ? ? [?|] ? ? ?]; simpl; repeat split.
Qed.

Lemma retry_loop_aware (period interval : string) (validate : bool)
    (remaining : nat) :
  forall (attempt : Z) (self : Fetcher) (w : World),
    (forall n, (provider_calls w <= n)%nat ->
       exists frame,
         result (provider env n (instrument self) period interval)
         = Returns frame
         /\ df_empty (raw frame) = false
         /\ well_shaped frame = true
         /\ tz_aware (raw frame) = true) ->
    let x := retry_loop cfg env period interval validate remaining attempt
                        false self w in
    match outcome_of x with
    | Ok (data, report) =>
        data = None /\ report = empty_report
        /\ provider_calls (world_of x) = (provider_calls w + remaining)%nat
        /\ rate_limit_until (self_of x) = rate_limit_until self
    | Raise _ => True
    end.
Proof.
  induction remaining as [|remaining IH]; intros attempt self w Hanswers.
  { simpl. unfold outcome_of, world_of, self_of. simpl.
    repeat split. lia. }
  cbn [retry_loop].
  fold (one_attempt cfg env period interval validate attempt false).
  unfold bind.
  destruct (Hanswers (provider_calls w) (le_n _))
    as (frame & Hresult & Hrows & Hshape & Hzone).
  pose proof (one_attempt_aware period interval validate attempt self w frame
                                Hresult Hrows Hshape Hzone) as Hone.
  destruct (one_attempt cfg env period interval validate attempt false self w)
    as [[[[value|rl']|e] self1] w1];
    unfold outcome_of, self_of, world_of in Hone; simpl in Hone; cbv zeta;
    [contradiction | | exact I].
  destruct Hone as (-> & Hcalls & Hinst & Huntil).
  specialize (IH (attempt + 1) self1 w1). cbv zeta in IH.
  destruct (outcome_of (retry_loop cfg env period interval validate remaining
                                   (attempt + 1) false self1 w1))
    as [[data report]|e]; [| exact I].
  destruct IH as (Hdata & Hreport & Hcalls' & Huntil').
  { intros n Hn. rewrite Hinst. apply Hanswers. lia. }
  split; [exact Hdata|]. split; [exact Hreport|].
  split; [lia | congruence].
Qed.

End AwareAnswers.

(** X27. With the freshness check enabled, frames whose instants carry a time
    zone cannot be fetched. The naive [utcnow()] minus the aware latest
    timestamp raises TypeError inside the [try], so the attempt counts as a
    failed one. When every answer of the provider is a frame with rows, a
    date column, the price and volume columns and a zone on its instants (as
    yfinance delivers them), a run of [fetch_ohlc] that reaches the retry
    loop and returns has an absent result and an empty report after exactly
    as many provider calls as there are attempts; no frame is kept or
    cached, and the text of the TypeError is not taken for a rate limit: the
    end of the cool-down is left as it was. *)
Theorem aware_answers_fail_freshness
    (cfg : Config) (env : Env) (period interval : string)
    (use_cache validate : bool) (self : Fetcher) (w : World)
    (data : option loc) (report : DataValidationReport.t) :
  VALIDATE_DATA_FRESHNESS cfg = true ->
  goes_to_provider cfg use_cache self w ->
  (forall n, (provider_calls w <= n)%nat ->
     exists frame,
       result (provider env n (instrument self) period interval) = Returns frame
       /\ df_empty (raw frame) = false
       /\ well_shaped frame = true
       /\ tz_aware (raw frame) = true) ->
  let x := fetch_ohlc cfg env period interval use_cache validate self w in
  outcome_of x = Ok (data, report) ->
  data = None /\ report = empty_report
  /\ provider_calls (world_of x)
     = (provider_calls w + Z.to_nat (YFINANCE_RETRY_ATTEMPTS cfg))%nat
  /\ rate_limit_until (self_of x) = rate_limit_until self
  /\ heap (world_of x) = heap w
  /\ cache (self_of x) = cache self.
Proof.
  intros Hfresh Hgoes Hanswers x Hout.
  pose proof (fetch_ohlc_spec cfg env period interval use_cache validate self w)
    as (_ & Hspec).
  fold x in Hspec. rewrite Hout in Hspec.
  subst x.
  rewrite (fetch_goes_to_provider cfg env period interval use_cache validate
                                  self w Hgoes) in Hout, Hspec |- *.
  destruct (at_loop_fields cfg use_cache self w) as (_ & Huntil & Hinst).
  pose proof (retry_loop_aware cfg env Hfresh period interval validate
                (Z.to_nat (YFINANCE_RETRY_ATTEMPTS cfg)) 1
                (after_cache_check cfg use_cache (after_breaker_gate self w) w)
                w) as Hloop.
  cbv zeta in Hloop. rewrite Hout, Hinst, Huntil in Hloop.
  destruct (Hloop Hanswers) as (-> & -> & Hcalls & Hsame).
  destruct Hspec as (Hheap & Hcache).
  repeat split; assumption.
Qed.

Lemma aware_answers_fail_freshness_witness :
  let x := fetch_ohlc strict_config serving_env "1d" "1m" true true
                      (Fetcher_init strict_config "NQ=F") (mkWorld 0 [] 0 0) in
  outcome_of x = Ok (None, empty_report)
  /\ provider_calls (world_of x) = 3%nat
  /\ rate_limit_until (self_of x) = 0%Q
  /\ heap (world_of x) = []
  /\ cache (self_of x) = None.
Proof.
  cbv zeta.
  destruct (aware_answers_fail_freshness strict_config serving_env "1d" "1m"
              true true (Fetcher_init strict_config "NQ=F") (mkWorld 0 [] 0 0)
              None empty_report)
    as (_ & _ & Hcalls & Huntil & Hheap & Hcache).
  - reflexivity.
  - repeat split. simpl. lra.
  - intros n _. exists provider_frame. repeat split.
  - reflexivity.
  - split; [reflexivity|]. split; [exact Hcalls|]. split; [exact Huntil|].
    split; [exact Hheap | exact Hcache].
Defined.

(** ** Clearing the cache *)

(** X25. After [clear_cache] nothing old is served. Whatever the entry and
    the statistics were, a run of [fetch_ohlc] on the cleared instance that
    hands back a frame has called the provider; the statistics it leaves count
    from zero: one miss when the cache was asked and none when it was not, no
    hit, no invalidation (the missing entry is not counted as an expired
    one), and [get_cache_stats] reports a hit rate of 0.0. *)
Theorem cleared_cache_is_refetched
    (cfg : Config) (env : Env) (period interval : string)
    (use_cache validate : bool) (self : Fetcher) (w : World)
    (l : loc) (report : DataValidationReport.t) :
  let x := fetch_ohlc cfg env period interval use_cache validate
                      (clear_cache self) w in
  outcome_of x = Ok (Some l, report) ->
  (provider_calls w < provider_calls (world_of x))%nat
  /\ cache_stats (self_of x)
     = CacheStatistics.mk 0 (if use_cache then 1 else 0) 0 0
  /\ get_cache_stats (self_of x) !! "hit_rate_percent"%string = Some 0%Q.
Proof.
  cbv zeta. unfold fetch_ohlc, bind.
  pose proof (steady_breaker_blocks (clear_cache self) w) as (_ & Hstats1).
  destruct (breaker_blocks_run (clear_cache self) w)
    as (blocked & self1 & Hrun & Hcache1).
  rewrite Hrun in Hstats1 |- *. unfold self_of in Hstats1. simpl in Hstats1.
  destruct blocked; [discriminate|].
  unfold get_self, monotonic.
  destruct (Qltb (clock w) (rate_limit_until self1)); [discriminate|].
  assert (Hloop : forall self2 (misses : Z),
            cache_stats self2 = CacheStatistics.mk 0 misses 0 0 ->
            (misses = 0 \/ misses = 1) ->
            let y := retry_loop cfg env period interval validate
                       (Z.to_nat (YFINANCE_RETRY_ATTEMPTS cfg)) 1 false self2 w in
            outcome_of y = Ok (Some l, report) ->
            (provider_calls w < provider_calls (world_of y))%nat
            /\ cache_stats (self_of y) = CacheStatistics.mk 0 misses 0 0
            /\ get_cache_stats (self_of y) !! "hit_rate_percent"%string
               = Some 0%Q).
  { intros self2 misses Hstats2 Hmisses y Hout.
    pose proof (steady_retry_loop cfg env period interval validate
                  (Z.to_nat (YFINANCE_RETRY_ATTEMPTS cfg)) 1 false self2 w)
      as (_ & Hsteady).
    pose proof (retry_loop_spec cfg env period interval validate
                  (Z.to_nat (YFINANCE_RETRY_ATTEMPTS cfg)) 1 false self2 w)
      as (_ & Hspec).
    fold y in Hsteady, Hspec. rewrite Hout in Hspec.
    destruct Hspec as (df & _ & Hlt & _).
    rewrite Hstats2 in Hsteady.
    split; [exact Hlt|]. split; [exact Hsteady|].
    unfold get_cache_stats. rewrite Hsteady.
    destruct Hmisses as [-> | ->]; reflexivity. }
  destruct use_cache.
  - unfold timed.
    assert (Huse : _should_use_cache cfg (clock w) self1
                   = (false, count_miss self1)).
    { unfold _should_use_cache, _is_cache_valid. rewrite Hcache1. simpl.
      destruct (YFINANCE_CACHE_ENABLED cfg); reflexivity. }
    rewrite Huse. cbv iota beta.
    apply Hloop; [| right; reflexivity].
    unfold count_miss. destruct self1; simpl in *. rewrite Hstats1. reflexivity.
  - change (ret false self1 w) with (Ok false, self1, w). cbv iota beta.
    apply Hloop; [exact Hstats1 | left; reflexivity].
Qed.

Lemma cleared_cache_is_refetched_witness :
  let x := fetch_ohlc sample_config serving_env "1d" "1m" true true
                      (clear_cache fetcher_with_entry) world_with_frame in
  (provider_calls world_with_frame < provider_calls (world_of x))%nat
  /\ cache_stats (self_of x) = CacheStatistics.mk 0 1 0 0
  /\ get_cache_stats (self_of x) !! "hit_rate_percent"%string = Some 0%Q.
Proof.
  apply (cleared_cache_is_refetched sample_config serving_env "1d" "1m" true true
           fetcher_with_entry world_with_frame 1%nat scenario_report).
  reflexivity.
Defined.


(** ** The first fetch of a new instance *)

Lemma retry_loop_first_call (cfg : Config) (env : Env)
    (period interval : string) (validate : bool) (remaining : nat)
    (attempt : Z) (is_rate_limited : bool) (self : Fetcher) (w : World) :
  (1 <= remaining)%nat ->
  (provider_calls w
   < provider_calls
       (world_of (retry_loop cfg env period interval validate remaining attempt
                             is_rate_limited self w)))%nat.
Proof.
  intros Hpos. destruct remaining as [|remaining]; [lia|].
  cbn [retry_loop]. fold (one_attempt cfg env period interval validate attempt
                                      is_rate_limited).
  unfold bind.
  pose proof (one_attempt_spec cfg env period interval validate attempt
                               is_rate_limited self w) as (Hcalls & _).
  destruct (one_attempt cfg env period interval validate attempt
                        is_rate_limited self w)
    as [[[[value|rl']|e] self1] w1];
    unfold world_of in Hcalls |- *; simpl in Hcalls |- *; try lia.
  pose proof (retry_loop_spec cfg env period interval validate remaining
                              (attempt + 1) rl' self1 w1) as (Hlow & _).
  unfold world_of in Hlow. lia.
Qed.

(** X26. A new instance goes to the provider. With at least one attempt
    configured and a monotonic clock that is not negative, the first call of
    [fetch_ohlc] on an instance as [__init__] leaves it is stopped by neither
    the breaker nor the cool-down and finds no entry: it calls the provider at
    least once, and when the cache was asked it has counted exactly one miss
    and no invalidation. *)
Theorem new_instance_goes_to_provider
    (cfg : Config) (env : Env) (instrument : string) (period interval : string)
    (use_cache validate : bool) (w : World) :
  1 <= YFINANCE_RETRY_ATTEMPTS cfg ->
  (0 <= clock w)%Q ->
  let x := fetch_ohlc cfg env period interval use_cache validate
                      (Fetcher_init cfg instrument) w in
  (provider_calls w < provider_calls (world_of x))%nat
  /\ cache_stats (self_of x)
     = CacheStatistics.mk 0 (if use_cache then 1 else 0) 0 0.
Proof.
  intros Hattempts Hclock. cbv zeta.
  assert (Hgoes : goes_to_provider cfg use_cache (Fetcher_init cfg instrument) w).
  { unfold goes_to_provider, passes_gates, Fetcher_init, should_hit. simpl.
    split; [split; [| exact Hclock] |].
    - destruct (CIRCUIT_BREAKER_ENABLED cfg); reflexivity.
    - intros _. apply andb_false_r. }
  rewrite (fetch_goes_to_provider cfg env period interval use_cache validate
                                  _ w Hgoes).
  split; [apply retry_loop_first_call; lia|].
  pose proof (steady_retry_loop cfg env period interval validate
                (Z.to_nat (YFINANCE_RETRY_ATTEMPTS cfg)) 1 false
                (after_cache_check cfg use_cache
                   (after_breaker_gate (Fetcher_init cfg instrument) w) w)
                w) as (_ & Hsteady).
  rewrite Hsteady.
  unfold after_cache_check, after_breaker_gate, _should_use_cache,
    _is_cache_valid, Fetcher_init.
  destruct (CIRCUIT_BREAKER_ENABLED cfg); destruct use_cache; simpl;
    try reflexivity; destruct (YFINANCE_CACHE_ENABLED cfg); reflexivity.
Qed.

Lemma new_instance_goes_to_provider_witness :
  let x := fetch_ohlc sample_config failing_env "1d" "1m" true true
                      (Fetcher_init sample_config "NQ=F") (mkWorld 0 [] 0 0) in
  (0 < provider_calls (world_of x))%nat
  /\ cache_stats (self_of x) = CacheStatistics.mk 0 1 0 0.
Proof.
  apply (new_instance_goes_to_provider sample_config failing_env "NQ=F"
           "1d" "1m" true true (mkWorld 0 [] 0 0)).
  - simpl. lia.
  - simpl. lra.
Defined.
